(** * utils/geojson-to-polygons.py: the GeoJSON to map-coordinates converter

    A shallow embedding of [main] of [utils/geojson-to-polygons.py] and the
    properties of its three stages: the feature loop (lines 15-32), the
    bounding box and the shift/scale transform (lines 34-53) and the two
    printing loops (lines 55-66).

    Values.  The script is dynamically typed: it subscripts, measures,
    compares and adds whatever [json.load] produced, and a value of the wrong
    kind raises [TypeError] at the operation that meets it, not where it was
    read.  The embedding follows it: coordinates are JSON values made of
    numbers and arrays, nested to any depth, and every operation the script
    applies to them is a function of the same name with Python's result on
    both kinds.  Strings, booleans, [null] and objects in the place of a
    coordinate are outside the embedding.

    Numbers.  [MAP_SIZE], [MARGIN] and the divisor [2.] are float literals,
    so every shift, scale and printed coordinate is a Python float: IEEE 754
    binary64 as specified by the standard library's [SpecFloat] (53 bits of
    precision, round to nearest even).  The number operations are taken
    through a small interface [PyNum], so that what does not depend on
    rounding is proved once for any number type.  JSON integers are taken at
    their float value, which is exact up to 2^53; the literal NaN that
    [json.load] accepts beyond RFC 8259 is not considered an input.

    Objects.  Every feature is taken to have a [geometry] object with a
    [type] string; its [coordinates] member and the feature's [properties]
    member may be missing, and [properties] may be [null], as GeoJSON allows.

    Exceptions.  A run is a value of [result (list line)]: either the
    exception that ended it or the lines written to standard output.
    ([printing_never_fails] shows that no exception follows the first
    [print].) *)

From Stdlib Require Import String.
From Stdlib Require Import List Bool Arith ZArith QArith Qabs Qpower Lia Lqa.
From Stdlib Require Import SpecFloat.
Import ListNotations.

Local Close Scope Q_scope.
Local Open Scope string_scope.
Local Open Scope list_scope.

(** ** Exceptions and the error monad *)

(** The exceptions [main] can end with.  [Exception msg] is the plain
    [Exception] of line 32. *)
Inductive exn : Type :=
| AssertionError
| KeyError (key : string)
| IndexError
| TypeError
| ZeroDivisionError
| Exception (msg : string).

Definition result (A : Type) : Type := (exn + A)%type.

Definition ret {A} (a : A) : result A := inr a.
Definition raise {A} (e : exn) : result A := inl e.

Definition bind {A B} (c : result A) (k : A -> result B) : result B :=
  match c with
  | inl e => inl e
  | inr a => k a
  end.

Notation "x <- c ;; k" := (bind c (fun x => k))
  (at level 61, c at next level, right associativity).
Notation "' p <- c ;; k" := (bind c (fun x => match x with p => k end))
  (at level 61, p pattern, c at next level, right associativity).
Notation "c ;;; k" := (bind c (fun _ => k))
  (at level 61, right associativity).

(** [assert cond], the interpreter being run without [-O]. *)
Definition assert (cond : bool) : result unit :=
  if cond then ret tt else raise AssertionError.

(** [l[i]] for a list [l] and a non-negative index [i]. *)
Definition index {A} (l : list A) (i : nat) : result A :=
  match nth_error l i with
  | Some a => ret a
  | None => raise IndexError
  end.

(** [l[-1]] *)
Definition index_last {A} (l : list A) : result A :=
  match rev l with
  | a :: _ => ret a
  | [] => raise IndexError
  end.

(** [d[key]] for an object [d] whose member [key] is [o] when present. *)
Definition member {A} (key : string) (o : option A) : result A :=
  match o with
  | Some a => ret a
  | None => raise (KeyError key)
  end.

(** A comprehension [[f(v) for v in l]], or a [for] loop that collects: the
    elements are evaluated from left to right and the first exception ends
    it. *)
Fixpoint comprehension {A B} (f : A -> result B) (l : list A) : result (list B) :=
  match l with
  | [] => ret []
  | v :: l' =>
      b <- f v ;;
      bs <- comprehension f l' ;;
      ret (b :: bs)
  end.

(** ** Numbers *)

(** What the script asks of a number: [<] (behind [min] and [max]), [==],
    [+], [-], [*], [/] and the literals. [num_div] is the quotient for a
    non-zero divisor; the zero divisor is handled by [py_div] below. *)
Class PyNum (num : Type) : Type := {
  num_lt : num -> num -> bool;
  num_eqb : num -> num -> bool;
  num_add : num -> num -> num;
  num_sub : num -> num -> num;
  num_mul : num -> num -> num;
  num_div : num -> num -> num;
  num_of_Z : Z -> num
}.

(** IEEE 754 binary64. *)
Definition prec : Z := 53.
Definition emax : Z := 1024.

Definition binary64 : Type := spec_float.

Definition b64_of_Z (z : Z) : binary64 := binary_normalize prec emax z 0 false.

#[export] Instance binary64_num : PyNum binary64 := {|
  num_lt := SFltb;
  num_eqb := SFeqb;
  num_add := SFadd prec emax;
  num_sub := SFsub prec emax;
  num_mul := SFmul prec emax;
  num_div := SFdiv prec emax;
  num_of_Z := b64_of_Z
|}.

(** ** The program *)

Section Program.

Context {num : Type} {N : PyNum num}.

(** Line 6 and line 7. *)
Definition MAP_SIZE : num := num_of_Z 1000.
Definition MARGIN : num := num_of_Z 50.

(** *** Values

    What [geometry['coordinates']] can hold: a number, or an array of
    values. *)
#[warnings="-register-all"]
Inductive value : Type :=
| Num (n : num)
| Arr (items : list value).

(** [len(v)] *)
Definition len (v : value) : result nat :=
  match v with
  | Arr items => ret (List.length items)
  | Num _ => raise TypeError
  end.

(** [v[i]] for a non-negative [i], [v[-1]] and [v[:-1]]. *)
Definition item (v : value) (i : nat) : result value :=
  match v with
  | Arr items => index items i
  | Num _ => raise TypeError
  end.

Definition item_last (v : value) : result value :=
  match v with
  | Arr items => index_last items
  | Num _ => raise TypeError
  end.

Definition all_but_last (v : value) : result (list value) :=
  match v with
  | Arr items => ret (removelast items)
  | Num _ => raise TypeError
  end.

(** [a == b]: numbers compare as numbers, arrays element by element, and a
    number is never equal to an array. *)
Fixpoint py_eq (a b : value) : bool :=
  match a, b with
  | Num x, Num y => num_eqb x y
  | Arr l, Arr m =>
      (fix all_eq (l m : list value) : bool :=
         match l, m with
         | [], [] => true
         | x :: l', y :: m' => py_eq x y && all_eq l' m'
         | _, _ => false
         end) l m
  | _, _ => false
  end.

(** [a < b] and [a > b]: arrays are ordered by their first pair of unequal
    items, or by length when one is a prefix of the other; a number and an
    array are not ordered. *)
Fixpoint py_lt (a b : value) : result bool :=
  match a, b with
  | Num x, Num y => ret (num_lt x y)
  | Arr l, Arr m =>
      (fix lex (l m : list value) : result bool :=
         match l, m with
         | [], [] => ret false
         | [], _ :: _ => ret true
         | _ :: _, [] => ret false
         | x :: l', y :: m' => if py_eq x y then lex l' m' else py_lt x y
         end) l m
  | _, _ => raise TypeError
  end.

Fixpoint py_gt (a b : value) : result bool :=
  match a, b with
  | Num x, Num y => ret (num_lt y x)
  | Arr l, Arr m =>
      (fix lex (l m : list value) : result bool :=
         match l, m with
         | [], [] => ret false
         | [], _ :: _ => ret false
         | _ :: _, [] => ret true
         | x :: l', y :: m' => if py_eq x y then lex l' m' else py_gt x y
         end) l m
  | _, _ => raise TypeError
  end.

(** [min(a, b)] and [max(a, b)] of two arguments: the builtin keeps the first
    argument unless the second is strictly smaller (respectively greater),
    which it finds out with [b < a] (respectively [b > a]). *)
Definition py_min (a b : value) : result value :=
  smaller <- py_lt b a ;;
  ret (if smaller then b else a).

Definition py_max (a b : value) : result value :=
  greater <- py_gt b a ;;
  ret (if greater then b else a).

(** [a + b]: the sum of two numbers, or two arrays one after the other. *)
Definition py_add (a b : value) : result value :=
  match a, b with
  | Num x, Num y => ret (Num (num_add x y))
  | Arr l, Arr m => ret (Arr (l ++ m))
  | _, _ => raise TypeError
  end.

(** [a - b] *)
Definition py_sub (a b : value) : result num :=
  match a, b with
  | Num x, Num y => ret (num_sub x y)
  | _, _ => raise TypeError
  end.

(** [a / b] on two numbers: true division raises on a zero divisor. *)
Definition py_div (a b : num) : result num :=
  if num_eqb b (num_of_Z 0) then raise ZeroDivisionError else ret (num_div a b).

(** [a / 2.]: the divisor is a non-zero literal. *)
Definition half (a : num) : num := num_div a (num_of_Z 2).

Definition py_half (a : value) : result num :=
  match a with
  | Num x => ret (half x)
  | Arr _ => raise TypeError
  end.

(** *** Input *)

(** [feature['properties']]: missing, [null], or an object with or without a
    ['name']. *)
Inductive properties_member : Type :=
| PropertiesMissing
| PropertiesNull
| Properties (name : option string).

(** A feature as [main] reads it: [feature['geometry']['type']],
    [feature['geometry']['coordinates']], which may be missing, and
    [feature['properties']]. *)
Record feature : Type := {
  geometry_type : string;
  coordinates : option value;
  properties : properties_member
}.

(** [feature['properties']['name']] *)
Definition name_of (f : feature) : result string :=
  match properties f with
  | PropertiesMissing => raise (KeyError "properties")
  | PropertiesNull => raise TypeError
  | Properties name => member "name" name
  end.

Definition point : Type := (value * value * string)%type.
Definition vertex : Type := (value * value)%type.
Definition polygon : Type := list vertex.

(** Line 29: [(v[0], v[1])]. *)
Definition vertex_of (v : value) : result vertex :=
  x <- item v 0 ;;
  y <- item v 1 ;;
  ret (x, y).

(** Lines 21-23, the body of the ['Point'] branch. *)
Definition parse_point (f : feature) (coordinates : value) (points : list point)
  : result (list point) :=
  n <- len coordinates ;;
  assert (Nat.eqb n 2) ;;;
  name <- name_of f ;;
  x <- item coordinates 0 ;;
  y <- item coordinates 1 ;;
  ret (points ++ [(x, y, name)]).

(** Lines 25-30, the body of the ['Polygon'] branch. *)
Definition parse_polygon (coordinates : value) (polygons : list polygon)
  : result (list polygon) :=
  n <- len coordinates ;;
  assert (Nat.eqb n 1) ;;;
  outer_ring <- item coordinates 0 ;;
  k <- len outer_ring ;;
  assert (Nat.leb 4 k) ;;;
  first <- item outer_ring 0 ;;
  last <- item_last outer_ring ;;
  assert (py_eq first last) ;;;
  kept <- all_but_last outer_ring ;;
  vertices <- comprehension vertex_of kept ;;
  ret (polygons ++ [vertices]).

(** Lines 16-32, one turn of the loop over [geojson['features']]: the
    coordinates are looked up on line 18, before the type is tested. *)
Definition parse_feature (f : feature) (acc : list point * list polygon)
  : result (list point * list polygon) :=
  let '(points, polygons) := acc in
  c <- member "coordinates" (coordinates f) ;;
  if String.eqb (geometry_type f) "Point" then
    points' <- parse_point f c points ;;
    ret (points', polygons)
  else if String.eqb (geometry_type f) "Polygon" then
    polygons' <- parse_polygon c polygons ;;
    ret (points, polygons')
  else
    raise (Exception (String.append "Unexpected geometry type: " (geometry_type f))).

(** Lines 12-32. *)
Fixpoint parse_from (features : list feature) (acc : list point * list polygon)
  : result (list point * list polygon) :=
  match features with
  | [] => ret acc
  | f :: rest =>
      acc' <- parse_feature f acc ;;
      parse_from rest acc'
  end.

Definition parse (features : list feature) : result (list point * list polygon) :=
  parse_from features ([], []).

(** *** Bounding box *)

Record bbox : Type := {
  x_min : value;
  y_min : value;
  x_max : value;
  y_max : value
}.

(** Lines 38-41 and 45-48. *)
Definition extend (b : bbox) (x y : value) : result bbox :=
  xmin <- py_min (x_min b) x ;;
  xmax <- py_max (x_max b) x ;;
  ymin <- py_min (y_min b) y ;;
  ymax <- py_max (y_max b) y ;;
  ret {| x_min := xmin; y_min := ymin; x_max := xmax; y_max := ymax |}.

(** The coordinates in the order the two loops of lines 37-48 visit them. *)
Definition point_xy (p : point) : vertex := let '(x, y, _) := p in (x, y).

Definition scanned (points : list point) (polygons : list polygon) : list vertex :=
  map point_xy points ++ concat polygons.

Fixpoint extend_all (b : bbox) (vs : list vertex) : result bbox :=
  match vs with
  | [] => ret b
  | v :: vs' =>
      b' <- extend b (fst v) (snd v) ;;
      extend_all b' vs'
  end.

(** Lines 34-48: the seed is [points[0]]. *)
Definition bounding_box (points : list point) (polygons : list polygon) : result bbox :=
  '(x0, y0, _) <- index points 0 ;;
  let seed := {| x_min := x0; y_min := y0; x_max := x0; y_max := y0 |} in
  b <- extend_all seed (map point_xy points) ;;
  extend_all b (concat polygons).

(** *** Transform *)

Record transform : Type := {
  x_shift : num;
  x_scale : num;
  y_shift : num;
  y_scale : num
}.

(** Lines 50-53. *)
Definition transform_of (b : bbox) : result transform :=
  x_sum <- py_add (x_max b) (x_min b) ;;
  xsh <- py_half x_sum ;;
  x_range <- py_sub (x_max b) (x_min b) ;;
  xsc <- py_div (num_sub MAP_SIZE MARGIN) x_range ;;
  y_sum <- py_add (y_max b) (y_min b) ;;
  ysh <- py_half y_sum ;;
  y_range <- py_sub (y_max b) (y_min b) ;;
  ysc <- py_div (num_sub MAP_SIZE MARGIN) y_range ;;
  ret {| x_shift := xsh; x_scale := xsc; y_shift := ysh; y_scale := ysc |}.

(** Lines 56-57 and 63-64. *)
Definition apply_x (t : transform) (x : value) : result num :=
  d <- py_sub x (Num (x_shift t)) ;;
  ret (num_mul (x_scale t) d).

Definition apply_y (t : transform) (y : value) : result num :=
  d <- py_sub y (Num (y_shift t)) ;;
  ret (num_mul (y_scale t) d).

Definition apply (t : transform) (v : vertex) : result (num * num) :=
  x <- apply_x t (fst v) ;;
  y <- apply_y t (snd v) ;;
  ret (x, y).

(** *** Output

    One constructor per [print] of the script, carrying the values the
    f-string formats. *)
Inductive line : Type :=
| PointLine (name : string) (x y : num)  (* Point {name}: ({x}, {y}) *)
| BlockOpen                              (* Ichnography::from(ConvexPolygon::from_convex_hull(&[ *)
| VertexLine (x y : num)                 (* Point::new({x}, {y}), *)
| BlockClose.                            (* ]).unwrap()), *)

(** Lines 55-58. *)
Definition emit_point (t : transform) (p : point) : result line :=
  let '(x, y, name) := p in
  x' <- apply_x t x ;;
  y' <- apply_y t y ;;
  ret (PointLine name x' y').

(** Lines 61-66. *)
Definition emit_vertex (t : transform) (v : vertex) : result line :=
  x' <- apply_x t (fst v) ;;
  y' <- apply_y t (snd v) ;;
  ret (VertexLine x' y').

Definition emit_polygon (t : transform) (p : polygon) : result (list line) :=
  vertex_lines <- comprehension (emit_vertex t) p ;;
  ret (BlockOpen :: vertex_lines ++ [BlockClose]).

Definition emit (t : transform) (points : list point) (polygons : list polygon)
  : result (list line) :=
  point_lines <- comprehension (emit_point t) points ;;
  blocks <- comprehension (emit_polygon t) polygons ;;
  ret (point_lines ++ concat blocks).

(** *** [main] *)
Definition main (features : list feature) : result (list line) :=
  '(points, polygons) <- parse features ;;
  b <- bounding_box points polygons ;;
  t <- transform_of b ;;
  emit t points polygons.

(** *** Vocabulary of the properties *)

(** The exception of line 32, under the name the specification gives it. *)
Definition UnsupportedGeometryError (geometry_type : string) : exn :=
  Exception (String.append "Unexpected geometry type: " geometry_type).

(** The test of line 28 on a whole ring. *)
Definition closed (ring : list value) : bool :=
  match ring, rev ring with
  | first :: _, last :: _ => py_eq first last
  | _, _ => false
  end.

(** [first_two v xy]: the vertex [xy] is made of the first two components of
    the ring entry [v], whatever follows them. *)
Definition first_two (v : value) (xy : vertex) : Prop :=
  exists rest, v = Arr (fst xy :: snd xy :: rest).

(** An entry of two components or more; an array of fewer; an array. *)
Definition two_or_more (v : value) : bool :=
  match v with
  | Arr (_ :: _ :: _) => true
  | _ => false
  end.

Definition is_array (v : value) : bool :=
  match v with
  | Arr _ => true
  | Num _ => false
  end.

Definition is_number (v : value) : bool :=
  match v with
  | Num _ => true
  | Arr _ => false
  end.

Definition is_point_line (l : line) : bool :=
  match l with
  | PointLine _ _ _ => true
  | _ => false
  end.

Definition is_vertex_line (l : line) : bool :=
  match l with
  | VertexLine _ _ => true
  | _ => false
  end.

(** The names of the ['Point'] features that carry one, in feature order,
    and the names the point lines of an output carry. *)
Definition point_names (features : list feature) : list string :=
  flat_map
    (fun f =>
       if String.eqb (geometry_type f) "Point" then
         match properties f with
         | Properties (Some name) => [name]
         | _ => []
         end
       else [])
    features.

Definition point_name (p : point) : string := snd p.

Definition line_names (out : list line) : list string :=
  flat_map
    (fun l =>
       match l with
       | PointLine name _ _ => [name]
       | _ => []
       end)
    out.

(** The centre of a box as the specification writes it,
    [((x_min + x_max) / 2, (y_min + y_max) / 2)]. *)
Definition center (b : bbox) : result (num * num) :=
  x_sum <- py_add (x_min b) (x_max b) ;;
  cx <- py_half x_sum ;;
  y_sum <- py_add (y_min b) (y_max b) ;;
  cy <- py_half y_sum ;;
  ret (cx, cy).

(** [(MAP_SIZE - MARGIN) / 2] *)
Definition extent : num := half (num_sub MAP_SIZE MARGIN).

(** The coordinates a line carries, and those of a whole output. *)
Definition line_xy (l : line) : list (num * num) :=
  match l with
  | PointLine _ x y => [(x, y)]
  | VertexLine x y => [(x, y)]
  | BlockOpen | BlockClose => []
  end.

Definition printed (out : list line) : list (num * num) := flat_map line_xy out.

(** Numbers as values: a vertex and a box made of numbers. *)
Definition number_vertex (v : num * num) : vertex := (Num (fst v), Num (snd v)).

Definition box_of (xmin ymin xmax ymax : num) : bbox :=
  {| x_min := Num xmin; y_min := Num ymin; x_max := Num xmax; y_max := Num ymax |}.

(** [min] and [max] on two numbers. *)
Definition num_min (a b : num) : num := if num_lt b a then b else a.
Definition num_max (a b : num) : num := if num_lt a b then b else a.

(** Lines 56-57 on a number. *)
Definition moved_x (t : transform) (x : num) : num :=
  num_mul (x_scale t) (num_sub x (x_shift t)).
Definition moved_y (t : transform) (y : num) : num :=
  num_mul (y_scale t) (num_sub y (y_shift t)).

(** Features with integer coordinates, for the examples. *)
Definition position_of (xy : Z * Z) : value :=
  Arr [Num (num_of_Z (fst xy)); Num (num_of_Z (snd xy))].

Definition point_feature (name : string) (xy : Z * Z) : feature :=
  {| geometry_type := "Point";
     coordinates := Some (position_of xy);
     properties := Properties (Some name) |}.

Definition polygon_feature (ring : list (Z * Z)) : feature :=
  {| geometry_type := "Polygon";
     coordinates := Some (Arr [Arr (map position_of ring)]);
     properties := Properties None |}.

(** The number of lines an accepted feature puts on standard output: one
    for a ['Point'], and for a ['Polygon'] the two marker lines and one line
    per ring entry but the last. *)
Definition lines_of_feature (f : feature) : nat :=
  if String.eqb (geometry_type f) "Point" then 1
  else if String.eqb (geometry_type f) "Polygon" then
    match coordinates f with
    | Some (Arr [Arr ring]) => List.length ring + 1
    | _ => 0
    end
  else 0.

(** The number of lines of the block of a polygon. *)
Definition block_lines (p : polygon) : nat := List.length p + 2.

(** The divisor of line 51 is a zero, or line 51 passes and the divisor of
    line 53 is a zero. *)
Definition flat (b : bbox) : Prop :=
  (exists xm xM,
     x_min b = Num xm /\ x_max b = Num xM /\
     num_eqb (num_sub xM xm) (num_of_Z 0) = true) \/
  (exists xm xM ym yM,
     x_min b = Num xm /\ x_max b = Num xM /\
     num_eqb (num_sub xM xm) (num_of_Z 0) = false /\
     y_min b = Num ym /\ y_max b = Num yM /\
     num_eqb (num_sub yM ym) (num_of_Z 0) = true).

End Program.

Arguments value num : clear implicits.
Arguments feature num : clear implicits.
Arguments point num : clear implicits.
Arguments vertex num : clear implicits.
Arguments polygon num : clear implicits.
Arguments bbox num : clear implicits.
Arguments transform num : clear implicits.
Arguments line num : clear implicits.

(** The exceptions of the subscripts, the assertions and the operand kinds,
    as opposed to the two the script raises by name or by dividing. *)
Definition data_error (e : exn) : bool :=
  match e with
  | AssertionError | KeyError _ | IndexError | TypeError => true
  | ZeroDivisionError | Exception _ => false
  end.

(** ** Inputs of the examples *)

Local Open Scope Z_scope.

(** 47.5, and 2^-1020, which JSON writes 8.900295434028806e-308. *)
Definition b64_47_5 : binary64 := binary_normalize prec emax 95 (-1) false.
Definition b64_tiny : binary64 := binary_normalize prec emax 1 (-1020) false.

(** The neighbours of 475: 475 + 2^-44, printed 475.00000000000006, and
    475 - 2^-44, printed 474.99999999999994. *)
Definition above_475 : binary64 := S754_finite false 8356288371097601 (-44).
Definition below_475 : binary64 := S754_finite false 8356288371097599 (-44).

(** A binary64 value that is neither an infinity nor NaN, and one that is
    not NaN. *)
Definition finite (x : binary64) : bool :=
  match x with
  | S754_zero _ | S754_finite _ _ _ => true
  | S754_infinity _ | S754_nan => false
  end.

Definition not_nan (x : binary64) : bool :=
  match x with
  | S754_nan => false
  | _ => true
  end.

Definition number_not_nan (v : value binary64) : bool :=
  match v with
  | Num x => not_nan x
  | Arr _ => false
  end.

(** One point [A] at (10, 10) and the closed triangle (0,0) (20,0) (20,20). *)
Definition scenario : list (feature binary64) :=
  [ point_feature "A" (10, 10);
    polygon_feature [(0, 0); (20, 0); (20, 20); (0, 0)] ].

(** The ring of that triangle and the vertices kept from it. *)
Definition triangle_ring : list (value binary64) :=
  map position_of [(0, 0); (20, 0); (20, 20); (0, 0)].

Definition triangle : polygon binary64 :=
  map number_vertex
    [(b64_of_Z 0, b64_of_Z 0); (b64_of_Z 20, b64_of_Z 0); (b64_of_Z 20, b64_of_Z 20)].

(** What the three stages make of [scenario]. *)
Definition scenario_points : list (point binary64) :=
  [(Num (b64_of_Z 10), Num (b64_of_Z 10), "A"%string)].

Definition scenario_box : bbox binary64 :=
  box_of (b64_of_Z 0) (b64_of_Z 0) (b64_of_Z 20) (b64_of_Z 20).

Definition scenario_transform : transform binary64 :=
  {| x_shift := b64_of_Z 10; x_scale := b64_47_5;
     y_shift := b64_of_Z 10; y_scale := b64_47_5 |}.

Definition scenario_out : list (line binary64) :=
  [ PointLine "A" (b64_of_Z 0) (b64_of_Z 0);
    BlockOpen;
    VertexLine (b64_of_Z (-475)) (b64_of_Z (-475));
    VertexLine (b64_of_Z 475) (b64_of_Z (-475));
    VertexLine (b64_of_Z 475) (b64_of_Z 475);
    BlockClose ].

(** A single point: a box of zero width and zero height. *)
Definition single_point : list (feature binary64) :=
  [ point_feature "A" (10, 10) ].

Definition single_box : bbox binary64 :=
  box_of (b64_of_Z 10) (b64_of_Z 10) (b64_of_Z 10) (b64_of_Z 10).

(** Two points 51 apart on both axes, and two points 23 apart. *)
Definition span_51 : list (feature binary64) :=
  [ point_feature "A" (0, 0); point_feature "B" (51, 51) ].

Definition span_51_points : list (point binary64) :=
  [ (Num (b64_of_Z 0), Num (b64_of_Z 0), "A"%string);
    (Num (b64_of_Z 51), Num (b64_of_Z 51), "B"%string) ].

Definition span_23 : list (feature binary64) :=
  [ point_feature "A" (0, 0); point_feature "B" (23, 23) ].

(** Two points 2 apart on both axes, at 2^53 = 9007199254740992. *)
Definition span_far : list (feature binary64) :=
  [ point_feature "A" (2 ^ 53, 2 ^ 53); point_feature "B" (2 ^ 53 + 2, 2 ^ 53 + 2) ].

(** Two points 2^-1020 apart on both axes. *)
Definition span_tiny : list (feature binary64) :=
  [ point_feature "A" (0, 0);
    {| geometry_type := "Point";
       coordinates := Some (Arr [Num b64_tiny; Num b64_tiny]);
       properties := Properties (Some "B"%string) |} ].

Definition tiny_box : bbox binary64 :=
  box_of (b64_of_Z 0) (b64_of_Z 0) b64_tiny b64_tiny.

Definition tiny_transform : transform binary64 :=
  {| x_shift := half b64_tiny; x_scale := S754_infinity false;
     y_shift := half b64_tiny; y_scale := S754_infinity false |}.

(** Polygons only. *)
Definition no_points : list (feature binary64) :=
  [ polygon_feature [(0, 0); (20, 0); (20, 20); (0, 0)] ].

(** A LineString between two points, and a GeometryCollection, which has
    [geometries] in place of [coordinates]. *)
Definition line_string : feature binary64 :=
  {| geometry_type := "LineString";
     coordinates := Some (Arr [position_of (0, 0); position_of (1, 1)]);
     properties := Properties (Some "L"%string) |}.

Definition geometry_collection : feature binary64 :=
  {| geometry_type := "GeometryCollection";
     coordinates := None;
     properties := Properties (Some "G"%string) |}.

(** A ring of four identical coordinate pairs, alone and between two
    points. *)
Definition collapsed : feature binary64 :=
  polygon_feature [(0, 0); (0, 0); (0, 0); (0, 0)].

Definition around_collapsed : list (feature binary64) :=
  [ point_feature "A" (0, 0); collapsed; point_feature "B" (20, 20) ].

(** The triangle of [scenario] with a third component on every entry. *)
Definition ring_xyz : list (value binary64) :=
  map (fun '(x, y, z) => Arr [Num (b64_of_Z x); Num (b64_of_Z y); Num (b64_of_Z z)])
      [(0, 0, 7); (20, 0, 8); (20, 20, 9); (0, 0, 7)].

Definition triangle_xyz : feature binary64 :=
  {| geometry_type := "Polygon";
     coordinates := Some (Arr [Arr ring_xyz]);
     properties := Properties None |}.

(** Polygons and points in turn, and what the run prints for them. *)
Definition interleaved : list (feature binary64) :=
  [ polygon_feature [(0, 0); (20, 0); (20, 20); (0, 0)];
    point_feature "A" (10, 10);
    polygon_feature [(0, 0); (4, 0); (4, 4); (0, 4); (0, 0)];
    point_feature "B" (20, 0) ].

Definition interleaved_out : list (line binary64) :=
  [ PointLine "A" (b64_of_Z 0) (b64_of_Z 0);
    PointLine "B" (b64_of_Z 475) (b64_of_Z (-475));
    BlockOpen;
    VertexLine (b64_of_Z (-475)) (b64_of_Z (-475));
    VertexLine (b64_of_Z 475) (b64_of_Z (-475));
    VertexLine (b64_of_Z 475) (b64_of_Z 475);
    BlockClose;
    BlockOpen;
    VertexLine (b64_of_Z (-475)) (b64_of_Z (-475));
    VertexLine (b64_of_Z (-285)) (b64_of_Z (-475));
    VertexLine (b64_of_Z (-285)) (b64_of_Z (-285));
    VertexLine (b64_of_Z (-475)) (b64_of_Z (-285));
    BlockClose ].

(** Points whose name cannot be read: an object without ['name'], a [null]
    and no [properties] at all. *)
Definition nameless : feature binary64 :=
  {| geometry_type := "Point";
     coordinates := Some (position_of (10, 10));
     properties := Properties None |}.

Definition null_properties : feature binary64 :=
  {| geometry_type := "Point";
     coordinates := Some (position_of (10, 10));
     properties := PropertiesNull |}.

Definition no_properties : feature binary64 :=
  {| geometry_type := "Point";
     coordinates := Some (position_of (10, 10));
     properties := PropertiesMissing |}.

(** A ['Point'] whose two coordinates are arrays. *)
Definition nested_point : feature binary64 :=
  {| geometry_type := "Point";
     coordinates := Some (Arr [position_of (0, 0); position_of (1, 1)]);
     properties := Properties (Some "N"%string) |}.

(** A polygon with a hole, and a ring that does not come back to its first
    entry. *)
Definition with_hole : feature binary64 :=
  {| geometry_type := "Polygon";
     coordinates :=
       Some (Arr [ Arr (map position_of [(0, 0); (20, 0); (20, 20); (0, 0)]);
                   Arr (map position_of [(5, 1); (9, 1); (9, 4); (5, 1)]) ]);
     properties := Properties None |}.

Definition open_ring : list (value binary64) :=
  map position_of [(0, 0); (20, 0); (20, 20); (0, 20)].

Definition unclosed : feature binary64 :=
  {| geometry_type := "Polygon";
     coordinates := Some (Arr [Arr open_ring]);
     properties := Properties None |}.

Local Close Scope Z_scope.

(** ** Vocabulary of binary64 rounding *)

(** [2^e] as a rational. *)
Definition pow2 (e : Z) : Q := (2 ^ e)%Q.

Definition signed (s : bool) (v : Q) : Q := if s then (- v)%Q else v.

(** The rational a finite binary64 stands for; 0 for the others. *)
Definition b64_value (x : binary64) : Q :=
  match x with
  | S754_finite s m e => signed s (inject_Z (Zpos m) * pow2 e)
  | _ => 0%Q
  end.

(** A binary64 in canonical form, as every Python float is: a mantissa of 53
    bits, or fewer at the least exponent, and an exponent within range. *)
Definition valid (x : binary64) : bool := valid_binary prec emax x.

Definition nonzero (x : binary64) : bool :=
  match x with
  | S754_finite _ _ _ => true
  | _ => false
  end.

(** What the round and sticky bits of a shifted mantissa say of the fraction
    [f] that was shifted out. *)
Definition loc_inv (r s : bool) (f : Q) : Prop :=
  match r, s with
  | false, false => (f == 0)%Q
  | false, true => (0 < f /\ f < 1 # 2)%Q
  | true, false => (f == 1 # 2)%Q
  | true, true => ((1 # 2) < f /\ f < 1)%Q
  end.

(** A shift record stands for the non-negative rational [x]: the mantissa is
    its integer part and the two bits locate its fraction. *)
Definition rec_inv (mrs : shr_record) (x : Q) : Prop :=
  (0 <= shr_m mrs)%Z /\ loc_inv (shr_r mrs) (shr_s mrs) (x - inject_Z (shr_m mrs))%Q.

(** [z] is the rounding of the exact result [v]: within half a unit in the
    last place when finite, with a full mantissa or at the least exponent;
    a zero only below half the least subnormal; an infinity only from
    2^1023 on. *)
Definition rounded (v : Q) (z : binary64) : Prop :=
  match z with
  | S754_nan => False
  | S754_infinity _ => (pow2 1023 <= Qabs v)%Q
  | S754_zero _ => (Qabs v <= pow2 (-1075))%Q
  | S754_finite s m e =>
      bounded prec emax m e = true /\
      (Qabs (b64_value z - v) <= pow2 (e - 1))%Q /\
      ((2 ^ 52 <= Zpos m)%Z \/ e = (-1074)%Z)
  end.

(** The same for a sum or a difference, which is exact whenever its mantissa
    is not full. *)
Definition rounded_sum (v : Q) (z : binary64) : Prop :=
  match z with
  | S754_nan => False
  | S754_infinity _ => (pow2 1023 <= Qabs v)%Q
  | S754_zero _ => (v == 0)%Q
  | S754_finite s m e =>
      bounded prec emax m e = true /\
      (Qabs (b64_value z - v) <= pow2 (e - 1))%Q /\
      ((2 ^ 52 <= Zpos m)%Z \/ (b64_value z == v)%Q)
  end.

(** The order of two magnitudes in canonical form, and what a comparison
    says of two rationals. *)
Definition compare_magnitude (m1 m2 : positive) (e1 e2 : Z) : comparison :=
  match Z.compare e1 e2 with
  | Lt => Lt
  | Gt => Gt
  | Eq => Pos.compare_cont Eq m1 m2
  end.

Definition ordered (c : comparison) (a b : Q) : Prop :=
  match c with
  | Lt => (a < b)%Q
  | Eq => (a == b)%Q
  | Gt => (b < a)%Q
  end.

(** *** Vocabulary of the extent property *)

(** Half a unit in the last place of 1: 2^-53. *)
Definition ulp_half : Q := 1 # 9007199254740992.

(** Where exact arithmetic puts the coordinate [x] of a box from [lo] to
    [hi]: [950 / (hi - lo) * (x - (lo + hi) / 2)]. *)
Definition exact_image (lo hi x : Q) : Q :=
  (950 / (hi - lo) * (x - (lo + hi) * (1 # 2)))%Q.

(** How far a printed coordinate may be from its exact image when no
    coordinate of the axis is more than [K] box ranges away from zero:
    [475 * (K + 1) * 2^-49]. *)
Definition slack (K : Q) : Q := (475 * (K + 1) * (1 # 562949953421312))%Q.

(** A box side the error analysis covers: the range is at least 2^-1000, both
    ends are within 2^1000 of zero and within [K] ranges of zero, and
    [K <= 2^40]. *)
Definition well_scaled (K : Q) (lo hi : binary64) : Prop :=
  (pow2 (-1000) <= b64_value hi - b64_value lo /\
   Qabs (b64_value lo) <= pow2 1000 /\
   Qabs (b64_value hi) <= pow2 1000 /\
   Qabs (b64_value lo) <= K * (b64_value hi - b64_value lo) /\
   Qabs (b64_value hi) <= K * (b64_value hi - b64_value lo) /\
   K <= 1099511627776)%Q.

(** A coordinate the error analysis covers: a number in canonical form. *)
Definition regular (x : binary64) : bool := valid x && finite x.

(** The rational a coordinate stands for, and a vertex made of two numbers
    in canonical form. *)
Definition value_of (v : value binary64) : Q :=
  match v with
  | Num n => b64_value n
  | Arr _ => 0%Q
  end.

Definition regular_vertex (v : vertex binary64) : bool :=
  match v with
  | (Num x, Num y) => regular x && regular y
  | _ => false
  end.

(** The printed coordinate [x'] is within [slack K] of the exact image of
    the coordinate [x] of a box from [lo] to [hi]. *)
Definition near (K : Q) (lo hi : binary64) (x : value binary64) (x' : binary64) : Prop :=
  (Qabs (b64_value x' - exact_image (b64_value lo) (b64_value hi) (value_of x)) <= slack K)%Q.

(** ** Facts about the error monad *)

Lemma bind_ret_inv {A B} (c : result A) (k : A -> result B) (b : B) :
  bind c k = ret b -> exists a, c = ret a /\ k a = ret b.
Proof.
  destruct c as [e|a]; cbn; [discriminate|].
  intros Hk. now exists a.
Qed.

Lemma bind_raise_inv {A B} (c : result A) (k : A -> result B) (e : exn) :
  bind c k = raise e -> c = raise e \/ exists a, c = ret a /\ k a = raise e.
Proof.
  destruct c as [e'|a]; cbn.
  - intros H. left. injection H as ->. reflexivity.
  - intros H. right. now exists a.
Qed.

Lemma assert_ret_inv (cond : bool) (u : unit) : assert cond = ret u -> cond = true.
Proof. destruct cond; [reflexivity|discriminate]. Qed.

Lemma assert_raises (cond : bool) (e : exn) : assert cond = raise e -> e = AssertionError.
Proof. destruct cond; [discriminate|]. intros H. now injection H. Qed.

Lemma index_raises {A} (l : list A) (i : nat) (e : exn) :
  index l i = raise e -> e = IndexError.
Proof. unfold index. destruct (nth_error l i); [discriminate|]. intros H. now injection H. Qed.

Lemma index_last_raises {A} (l : list A) (e : exn) :
  index_last l = raise e -> e = IndexError.
Proof. unfold index_last. destruct (rev l); [|discriminate]. intros H. now injection H. Qed.

(** Splits a hypothesis [bind c k = ret b] into the two runs it stands for. *)
Ltac bind_inv_fresh H :=
  let a := fresh "a" in
  let Hc := fresh "Hc" in
  apply bind_ret_inv in H; destruct H as (a & Hc & H).

Tactic Notation "bind_inv" hyp(H) "as" ident(a) ident(Hc) :=
  apply bind_ret_inv in H; destruct H as (a & Hc & H).

Tactic Notation "bind_inv" hyp(H) := bind_inv_fresh H.

(** Runs the first command of every sequence of the goal, both ways. *)
Ltac run_binds :=
  repeat (match goal with
          | |- context [bind ?c _] =>
              lazymatch c with
              | bind _ _ => fail
              | _ => destruct c; cbn [bind ret raise]
              end
          end; try reflexivity).

Lemma comprehension_length {A B} (f : A -> result B) (l : list A) :
  forall bs, comprehension f l = ret bs -> length bs = length l.
Proof.
  induction l as [|a l IH]; intros bs H; cbn in H.
  - now injection H as <-.
  - bind_inv H as b Hb. bind_inv H as bs' Hbs. injection H as <-.
    cbn. now rewrite (IH bs' Hbs).
Qed.

Lemma comprehension_app {A B} (f : A -> result B) (l l' : list A) :
  comprehension f (l ++ l') =
  (bs <- comprehension f l ;; bs' <- comprehension f l' ;; ret (bs ++ bs')).
Proof.
  induction l as [|a l IH]; cbn [app comprehension bind ret].
  - destruct (comprehension f l'); reflexivity.
  - destruct (f a); cbn [bind ret]; [reflexivity|]. rewrite IH.
    destruct (comprehension f l); cbn [bind ret]; [reflexivity|].
    destruct (comprehension f l'); reflexivity.
Qed.

Section ParserFacts.

Context {num : Type} {N : PyNum num}.

(** The loop only ever appends: a feature read with accumulators
    [(points, polygons)] adds to them what it adds to empty ones. *)
Lemma parse_feature_shift (f : feature num) (points : list (point num))
    (polygons : list (polygon num)) :
  parse_feature f (points, polygons) =
  ('(dp, dq) <- parse_feature f ([], []) ;; ret (points ++ dp, polygons ++ dq)).
Proof.
  unfold parse_feature.
  destruct (coordinates f) as [c|]; cbn [member bind ret raise]; [|reflexivity].
  destruct (String.eqb (geometry_type f) "Point").
  - unfold parse_point. run_binds. now rewrite app_nil_r.
  - destruct (String.eqb (geometry_type f) "Polygon"); [|reflexivity].
    unfold parse_polygon. run_binds. now rewrite app_nil_r.
Qed.

Lemma parse_from_shift (features : list (feature num)) :
  forall (points : list (point num)) (polygons : list (polygon num)),
  parse_from features (points, polygons) =
  ('(dp, dq) <- parse features ;; ret (points ++ dp, polygons ++ dq)).
Proof.
  unfold parse.
  induction features as [|f rest IH]; intros points polygons.
  - cbn. now rewrite !app_nil_r.
  - cbn [parse_from].
    rewrite (parse_feature_shift f points polygons).
    destruct (parse_feature f ([], [])) as [e|[a b]]; cbn; [reflexivity|].
    rewrite (IH (points ++ a) (polygons ++ b)), (IH a b).
    destruct (parse_from rest ([], [])) as [e|[dp dq]]; cbn; [reflexivity|].
    now rewrite !app_assoc.
Qed.

Lemma parse_cons (f : feature num) (rest : list (feature num)) :
  parse (f :: rest) =
  ('(p1, q1) <- parse_feature f ([], []) ;;
   '(p2, q2) <- parse rest ;;
   ret (p1 ++ p2, q1 ++ q2)).
Proof.
  unfold parse at 1. cbn [parse_from].
  destruct (parse_feature f ([], [])) as [e|[p1 q1]]; cbn; [reflexivity|].
  apply parse_from_shift.
Qed.

Lemma parse_app (before after : list (feature num)) :
  parse (before ++ after) =
  ('(p1, q1) <- parse before ;;
   '(p2, q2) <- parse after ;;
   ret (p1 ++ p2, q1 ++ q2)).
Proof.
  induction before as [|f before IH].
  - rewrite app_nil_l. destruct (parse after) as [e|[p2 q2]]; reflexivity.
  - rewrite <- app_comm_cons, !parse_cons, IH.
    destruct (parse_feature f ([], [])) as [e|[p0 q0]]; cbn; [reflexivity|].
    destruct (parse before) as [e|[p1 q1]]; cbn; [reflexivity|].
    destruct (parse after) as [e|[p2 q2]]; cbn; [reflexivity|].
    now rewrite !app_assoc.
Qed.

(** A run that prints has parsed, found its box and its transform. *)
Lemma main_ret_inv (features : list (feature num)) (out : list (line num)) :
  main features = ret out ->
  exists points polygons b t,
    parse features = ret (points, polygons) /\
    bounding_box points polygons = ret b /\
    transform_of b = ret t /\
    emit t points polygons = ret out.
Proof.
  unfold main. intros H.
  bind_inv H as parsed Hparse. destruct parsed as [points polygons].
  bind_inv H as b Hbox. bind_inv H as t Ht.
  now exists points, polygons, b, t.
Qed.

Lemma main_of_stages (features : list (feature num)) (points : list (point num))
    (polygons : list (polygon num)) (b : bbox num) :
  parse features = ret (points, polygons) ->
  bounding_box points polygons = ret b ->
  main features = (t <- transform_of b ;; emit t points polygons).
Proof. intros Hparse Hbox. unfold main. now rewrite Hparse; cbn [bind ret]; rewrite Hbox. Qed.

(** What [emit] returns: the point lines, then the blocks. *)
Lemma emit_ret_inv (t : transform num) (points : list (point num))
    (polygons : list (polygon num)) (out : list (line num)) :
  emit t points polygons = ret out ->
  exists point_lines blocks,
    comprehension (emit_point t) points = ret point_lines /\
    comprehension (emit_polygon t) polygons = ret blocks /\
    out = point_lines ++ concat blocks.
Proof.
  unfold emit. intros H.
  bind_inv H as point_lines Hpoints. bind_inv H as blocks Hblocks.
  injection H as <-. now exists point_lines, blocks.
Qed.

End ParserFacts.

Section ParserClaims.

Context {num : Type} {N : PyNum num}.

(** *** Empty [points] *)

(** C5.  When the feature loop leaves [points] empty, whatever it put into
    [polygons], the seed [points[0]] of line 34 does not exist: the run ends
    with [IndexError] and prints nothing. *)
Theorem empty_points_crash (features : list (feature num)) (polygons : list (polygon num)) :
  parse features = ret ([], polygons) ->
  bounding_box [] polygons = raise IndexError /\
  main features = raise IndexError.
Proof.
  intros Hparse. split; [reflexivity|].
  unfold main. now rewrite Hparse.
Qed.

(** *** Other geometry types *)

Lemma other_type_raises (f : feature num) (c : value num)
    (acc : list (point num) * list (polygon num)) :
  coordinates f = Some c ->
  geometry_type f <> "Point" ->
  geometry_type f <> "Polygon" ->
  parse_feature f acc = raise (UnsupportedGeometryError (geometry_type f)).
Proof.
  intros Hc HPoint HPolygon. unfold parse_feature. destruct acc as [points polygons].
  apply String.eqb_neq in HPoint, HPolygon.
  now rewrite Hc, HPoint, HPolygon.
Qed.

Lemma no_coordinates_raises (f : feature num) (acc : list (point num) * list (polygon num)) :
  coordinates f = None ->
  parse_feature f acc = raise (KeyError "coordinates").
Proof.
  intros Hc. unfold parse_feature. destruct acc as [points polygons].
  now rewrite Hc.
Qed.

Lemma parse_from_stops (before after : list (feature num)) (f : feature num) (e : exn) :
  forall acc acc',
  parse_from before acc = ret acc' ->
  parse_feature f acc' = raise e ->
  parse_from (before ++ f :: after) acc = raise e.
Proof.
  induction before as [|g before IH]; intros acc acc' Hbefore Hf.
  - cbn in Hbefore. injection Hbefore as <-. cbn. now rewrite Hf.
  - cbn in Hbefore |- *.
    destruct (parse_feature g acc) as [e'|acc1]; cbn in *; [discriminate|].
    now apply IH with (acc' := acc').
Qed.

Lemma parse_from_fails (before after : list (feature num)) (f : feature num) :
  (forall acc, exists e, parse_feature f acc = raise e) ->
  forall acc, exists e, parse_from (before ++ f :: after) acc = raise e.
Proof.
  intros Hf.
  induction before as [|g before IH]; intros acc.
  - cbn. destruct (Hf acc) as [e He]. exists e. now rewrite He.
  - cbn. destruct (parse_feature g acc) as [e'|acc1]; cbn.
    + now exists e'.
    + apply IH.
Qed.

Lemma main_stops (before after : list (feature num)) (f : feature num) (e : exn)
    (acc : list (point num) * list (polygon num)) :
  parse before = ret acc ->
  parse_feature f acc = raise e ->
  parse (before ++ f :: after) = raise e /\
  main (before ++ f :: after) = raise e.
Proof.
  intros Hbefore Hf.
  assert (parse (before ++ f :: after) = raise e) as Hparse.
  { unfold parse. now apply parse_from_stops with (acc' := acc). }
  split; [assumption|]. unfold main. now rewrite Hparse.
Qed.

(** C6, as the code has it.  A feature whose geometry has a [coordinates]
    member and whose type is neither ['Point'] nor ['Polygon'] ends its turn
    of the loop with the exception of line 32, whose message ends with the
    type.  It ends the run with it when the features before it are accepted,
    and no run over a collection that contains it prints.  Without a
    [coordinates] member the turn ends on line 18 with [KeyError], whatever
    the type. *)
Theorem unsupported_geometry (f : feature num) :
  geometry_type f <> "Point" ->
  geometry_type f <> "Polygon" ->
  (forall c, coordinates f = Some c ->
     (forall acc, parse_feature f acc = raise (UnsupportedGeometryError (geometry_type f))) /\
     (forall before after acc,
        parse before = ret acc ->
        main (before ++ f :: after) = raise (UnsupportedGeometryError (geometry_type f)))) /\
  (coordinates f = None ->
     (forall acc, parse_feature f acc = raise (KeyError "coordinates")) /\
     (forall before after acc,
        parse before = ret acc ->
        main (before ++ f :: after) = raise (KeyError "coordinates"))) /\
  (forall before after, exists e, main (before ++ f :: after) = raise e).
Proof.
  intros HPoint HPolygon. split; [|split].
  - intros c Hc. split.
    + intros acc. now apply other_type_raises with (c := c).
    + intros before after acc Hbefore.
      apply (main_stops before after f _ acc Hbefore).
      now apply other_type_raises with (c := c).
  - intros Hc. split.
    + intros acc. now apply no_coordinates_raises.
    + intros before after acc Hbefore.
      apply (main_stops before after f _ acc Hbefore).
      now apply no_coordinates_raises.
  - intros before after. unfold main, parse.
    destruct (parse_from_fails before after f)
      with (acc := (@nil (point num), @nil (polygon num))) as [e He].
    + intros acc. destruct (coordinates f) as [c|] eqn:Hc; eexists.
      * now apply other_type_raises with (c := c).
      * now apply no_coordinates_raises.
    + exists e. now rewrite He.
Qed.

End ParserClaims.

Section RingFacts.

Context {num : Type} {N : PyNum num}.

(** *** Reading a ring *)

Lemma vertex_of_ret (v : value num) (xy : vertex num) :
  vertex_of v = ret xy <-> first_two v xy.
Proof.
  unfold vertex_of, first_two, item, index. split.
  - destruct v as [n|[|x [|y rest]]]; cbn; try discriminate.
    intros H. injection H as <-. now exists rest.
  - intros [rest ->]. cbn. now destruct xy.
Qed.

Lemma vertex_of_long (v : value num) :
  two_or_more v = true -> exists xy, vertex_of v = ret xy.
Proof.
  destruct v as [n|[|x [|y rest]]]; cbn; try discriminate.
  intros _. now exists (x, y).
Qed.

Lemma vertex_of_short (v : value num) :
  is_array v = true -> two_or_more v = false -> vertex_of v = raise IndexError.
Proof.
  destruct v as [n|[|x [|y rest]]]; cbn; try discriminate; reflexivity.
Qed.

Lemma vertex_of_number (n : num) : vertex_of (Num n) = raise TypeError.
Proof. reflexivity. Qed.

Lemma vertex_of_raises (v : value num) (e : exn) :
  vertex_of v = raise e -> e = IndexError \/ e = TypeError.
Proof.
  destruct v as [n|[|x [|y rest]]]; cbn; try discriminate;
    intros H; injection H as <-; auto.
Qed.

Lemma comprehension_ret (l : list (value num)) :
  forall vertices,
  comprehension vertex_of l = ret vertices <-> Forall2 first_two l vertices.
Proof.
  induction l as [|v l IH]; intros vertices; cbn.
  - split.
    + intros H. injection H as <-. constructor.
    + intros H. now inversion H.
  - split.
    + intros H. bind_inv H. bind_inv H. injection H as <-.
      constructor; [now apply vertex_of_ret | now apply IH].
    + intros H. inversion H as [|? xy ? vs Hv Hl]; subst.
      apply vertex_of_ret in Hv. apply IH in Hl.
      now rewrite Hv, Hl.
Qed.

Lemma comprehension_total (l : list (value num)) :
  Forall (fun v => two_or_more v = true) l ->
  exists vertices, comprehension vertex_of l = ret vertices.
Proof.
  induction 1 as [|v l Hv _ [vertices IH]]; cbn.
  - now exists [].
  - destruct (vertex_of_long v Hv) as [xy Hxy].
    exists (xy :: vertices). now rewrite Hxy, IH.
Qed.

(** Among arrays, the only way the comprehension of line 29 fails is the
    subscript of an entry that is too short. *)
Lemma comprehension_short (l : list (value num)) :
  Forall (fun v => is_array v = true) l ->
  Exists (fun v => two_or_more v = false) l ->
  comprehension vertex_of l = raise IndexError.
Proof.
  intros Harr Hshort. induction Hshort as [v l Hv|v l _ IH]; cbn.
  - inversion Harr; subst. now rewrite (vertex_of_short v).
  - inversion Harr as [|? ? Ha Hl]; subst.
    destruct (two_or_more v) eqn:Hv.
    + destruct (vertex_of_long v Hv) as [xy ->]. cbn. now rewrite IH.
    + now rewrite (vertex_of_short v).
Qed.

Lemma comprehension_raises (l : list (value num)) (e : exn) :
  comprehension vertex_of l = raise e -> e = IndexError \/ e = TypeError.
Proof.
  induction l as [|v l IH]; cbn; [discriminate|].
  intros H. apply bind_raise_inv in H. destruct H as [H|(xy & _ & H)].
  - now apply vertex_of_raises in H.
  - apply bind_raise_inv in H. destruct H as [H|(vs & _ & H)]; [auto|discriminate].
Qed.

Lemma Forall_removelast {A} (P : A -> Prop) (l : list A) :
  Forall P l -> Forall P (removelast l).
Proof.
  induction 1 as [|a l Ha Hl IH]; cbn; [constructor|].
  destruct l; [constructor|]. now constructor.
Qed.

Lemma length_removelast_pred {A} (l : list A) :
  length (removelast l) = length l - 1.
Proof.
  induction l as [|a l IH]; cbn; [reflexivity|].
  destruct l as [|b l]; [reflexivity|].
  cbn [length] in *. lia.
Qed.

Lemma Forall2_length_eq {A B} (R : A -> B -> Prop) (l : list A) (l' : list B) :
  Forall2 R l l' -> length l = length l'.
Proof. induction 1; cbn; congruence. Qed.

(** Lines 26-28 on a ring: what [first] and [last] are. *)
Lemma ring_ends (ring : list (value num)) :
  4 <= length ring ->
  exists first last,
    index ring 0 = ret first /\ index_last ring = ret last /\
    closed ring = py_eq first last.
Proof.
  intros Hlen. unfold closed, index, index_last.
  destruct ring as [|first ring]; cbn in Hlen; [lia|].
  destruct (rev (first :: ring)) as [|last r] eqn:Hrev.
  - apply (f_equal (@length _)) in Hrev. rewrite length_rev in Hrev. discriminate.
  - now exists first, last.
Qed.

(** The ['Polygon'] branch on one ring that is an array. *)
Lemma parse_polygon_ring (ring : list (value num)) (polygons : list (polygon num)) :
  parse_polygon (Arr [Arr ring]) polygons =
  (assert (Nat.leb 4 (length ring)) ;;;
   assert (closed ring) ;;;
   vertices <- comprehension vertex_of (removelast ring) ;;
   ret (polygons ++ [vertices])).
Proof.
  unfold parse_polygon.
  cbn [len length Nat.eqb assert item index nth_error bind ret].
  destruct (Nat.leb 4 (length ring)) eqn:Hlen; cbn [assert bind ret raise]; [|reflexivity].
  apply Nat.leb_le in Hlen.
  destruct (ring_ends ring Hlen) as (first & last & Hfirst & Hlast & ->).
  cbn [item_last all_but_last]. rewrite Hfirst, Hlast. reflexivity.
Qed.

(** The ['Polygon'] branch accepts coordinates exactly when they hold one
    ring, an array of at least four entries, the first equal to the last,
    and every retained entry is an array of two components or more. *)
Lemma parse_polygon_ret (c : value num) (polygons polygons' : list (polygon num)) :
  parse_polygon c polygons = ret polygons' <->
  exists ring vertices,
    c = Arr [Arr ring] /\
    4 <= length ring /\
    closed ring = true /\
    Forall2 first_two (removelast ring) vertices /\
    polygons' = polygons ++ [vertices].
Proof.
  split.
  - intros H.
    destruct c as [n|[|[n|ring] [|hole rings]]]; try discriminate H.
    rewrite parse_polygon_ring in H.
    bind_inv H as u Hlen. apply assert_ret_inv, Nat.leb_le in Hlen.
    bind_inv H as u' Hclosed. apply assert_ret_inv in Hclosed.
    bind_inv H as vertices Hvertices. injection H as <-.
    exists ring, vertices. repeat split; try assumption.
    now apply comprehension_ret.
  - intros (ring & vertices & -> & Hlen & Hclosed & Hvertices & ->).
    rewrite parse_polygon_ring.
    apply Nat.leb_le in Hlen. rewrite Hlen, Hclosed. cbn [assert bind ret].
    apply comprehension_ret in Hvertices. now rewrite Hvertices.
Qed.

Lemma parse_polygon_accepts (ring : list (value num)) (polygons : list (polygon num)) :
  4 <= length ring ->
  closed ring = true ->
  Forall (fun v => two_or_more v = true) (removelast ring) ->
  exists vertices,
    parse_polygon (Arr [Arr ring]) polygons = ret (polygons ++ [vertices]) /\
    Forall2 first_two (removelast ring) vertices.
Proof.
  intros Hlen Hclosed Hring.
  destruct (comprehension_total (removelast ring) Hring) as [vertices Hvertices].
  apply comprehension_ret in Hvertices.
  exists vertices. split; [|assumption].
  apply parse_polygon_ret. now exists ring, vertices.
Qed.

Lemma parse_polygon_short (ring : list (value num)) (polygons : list (polygon num)) :
  length ring < 4 ->
  parse_polygon (Arr [Arr ring]) polygons = raise AssertionError.
Proof.
  intros Hlen. rewrite parse_polygon_ring.
  apply Nat.leb_gt in Hlen. now rewrite Hlen.
Qed.

Lemma parse_polygon_subscript (ring : list (value num)) (polygons : list (polygon num)) :
  4 <= length ring ->
  closed ring = true ->
  Forall (fun v => is_array v = true) (removelast ring) ->
  Exists (fun v => two_or_more v = false) (removelast ring) ->
  parse_polygon (Arr [Arr ring]) polygons = raise IndexError.
Proof.
  intros Hlen Hclosed Harr Hshort. rewrite parse_polygon_ring.
  apply Nat.leb_le in Hlen. rewrite Hlen, Hclosed. cbn [assert bind ret].
  now rewrite (comprehension_short _ Harr Hshort).
Qed.

Lemma parse_point_accepts (f : feature num) (items : list (value num)) (name : string)
    (points : list (point num)) :
  length items = 2 ->
  properties f = Properties (Some name) ->
  exists x y, items = [x; y] /\ parse_point f (Arr items) points = ret (points ++ [(x, y, name)]).
Proof.
  intros Hlen Hname.
  destruct items as [|x [|y [|z items]]]; try discriminate.
  exists x, y. split; [reflexivity|].
  unfold parse_point, name_of. now rewrite Hname.
Qed.

Lemma parse_point_arity (f : feature num) (items : list (value num))
    (points : list (point num)) :
  length items <> 2 ->
  parse_point f (Arr items) points = raise AssertionError.
Proof.
  intros Hlen. unfold parse_point. cbn [len bind ret].
  apply Nat.eqb_neq in Hlen. now rewrite Hlen.
Qed.

(** One turn of the loop on a ['Point'] and on a ['Polygon']. *)
Lemma parse_feature_point (f : feature num) (c : value num)
    (points : list (point num)) (polygons : list (polygon num)) :
  geometry_type f = "Point" ->
  coordinates f = Some c ->
  parse_feature f (points, polygons) =
  (points' <- parse_point f c points ;; ret (points', polygons)).
Proof. intros Htype Hc. unfold parse_feature. now rewrite Hc, Htype. Qed.

Lemma parse_feature_polygon (f : feature num) (c : value num)
    (points : list (point num)) (polygons : list (polygon num)) :
  geometry_type f = "Polygon" ->
  coordinates f = Some c ->
  parse_feature f (points, polygons) =
  (polygons' <- parse_polygon c polygons ;; ret (points, polygons')).
Proof. intros Htype Hc. unfold parse_feature. now rewrite Hc, Htype. Qed.

End RingFacts.

Section EmitterFacts.

Context {num : Type} {N : PyNum num}.

Lemma emit_point_ret (t : transform num) (p : point num) (l : line num) :
  emit_point t p = ret l -> exists x y, l = PointLine (point_name p) x y.
Proof.
  destruct p as [[x y] name]. unfold emit_point. intros H.
  bind_inv H as x' Hx. bind_inv H as y' Hy. injection H as <-.
  now exists x', y'.
Qed.

Lemma emit_vertex_ret (t : transform num) (v : vertex num) (l : line num) :
  emit_vertex t v = ret l -> exists x y, l = VertexLine x y.
Proof.
  unfold emit_vertex. intros H.
  bind_inv H as x' Hx. bind_inv H as y' Hy. injection H as <-.
  now exists x', y'.
Qed.

(** The point lines are point lines and carry the names of the points. *)
Lemma point_lines_of_points (t : transform num) (points : list (point num)) :
  forall point_lines,
  comprehension (emit_point t) points = ret point_lines ->
  forallb is_point_line point_lines = true /\
  line_names point_lines = map point_name points.
Proof.
  induction points as [|p points IH]; intros point_lines H; cbn in H.
  - injection H as <-. now split.
  - bind_inv H as l Hl. bind_inv H as ls Hls. injection H as <-.
    destruct (emit_point_ret t p l Hl) as (x & y & ->).
    destruct (IH ls Hls) as [Hall Hnames].
    split; [exact Hall|].
    unfold line_names in *. cbn [flat_map app map]. now rewrite Hnames.
Qed.

Lemma vertex_lines_of_polygon (t : transform num) (p : polygon num) :
  forall vertex_lines,
  comprehension (emit_vertex t) p = ret vertex_lines ->
  forallb is_vertex_line vertex_lines = true /\
  existsb is_point_line vertex_lines = false /\
  line_names vertex_lines = [].
Proof.
  induction p as [|v p IH]; intros vertex_lines H; cbn in H.
  - injection H as <-. now repeat split.
  - bind_inv H as l Hl. bind_inv H as ls Hls. injection H as <-.
    destruct (emit_vertex_ret t v l Hl) as (x & y & ->).
    destruct (IH ls Hls) as (Hall & Hnone & Hnames).
    repeat split; assumption.
Qed.

Lemma emit_polygon_ret (t : transform num) (p : polygon num) (block : list (line num)) :
  emit_polygon t p = ret block <->
  exists vertex_lines,
    comprehension (emit_vertex t) p = ret vertex_lines /\
    block = BlockOpen :: vertex_lines ++ [BlockClose].
Proof.
  unfold emit_polygon. split.
  - intros H. bind_inv H as vertex_lines Hv. injection H as <-. now exists vertex_lines.
  - intros (vertex_lines & -> & ->). reflexivity.
Qed.

Lemma no_point_line_in_block (t : transform num) (p : polygon num) (block : list (line num)) :
  emit_polygon t p = ret block ->
  existsb is_point_line block = false /\ line_names block = [].
Proof.
  intros H. apply emit_polygon_ret in H. destruct H as (vertex_lines & Hv & ->).
  destruct (vertex_lines_of_polygon t p vertex_lines Hv) as (_ & Hnone & Hnames).
  split.
  - cbn. now rewrite existsb_app, Hnone.
  - unfold line_names in *. cbn [flat_map app]. rewrite flat_map_app, Hnames. reflexivity.
Qed.

Lemma no_point_line_in_blocks (t : transform num) (polygons : list (polygon num)) :
  forall blocks,
  comprehension (emit_polygon t) polygons = ret blocks ->
  existsb is_point_line (concat blocks) = false /\ line_names (concat blocks) = [].
Proof.
  induction polygons as [|p polygons IH]; intros blocks H; cbn in H.
  - injection H as <-. now split.
  - bind_inv H as block Hblock. bind_inv H as rest Hrest. injection H as <-.
    destruct (no_point_line_in_block t p block Hblock) as [Hb Hbn].
    destruct (IH rest Hrest) as [Hr Hrn].
    cbn [concat]. split.
    + now rewrite existsb_app, Hb, Hr.
    + unfold line_names in *. now rewrite flat_map_app, Hbn, Hrn.
Qed.

(** The names in [points] are those of the ['Point'] features, in order. *)
Lemma parsed_point_names (features : list (feature num)) :
  forall points polygons,
  parse features = ret (points, polygons) ->
  map point_name points = point_names features.
Proof.
  induction features as [|f rest IH]; intros points polygons H.
  - injection H as <- <-. reflexivity.
  - rewrite parse_cons in H.
    bind_inv H as acc Hf. destruct acc as [p1 q1].
    bind_inv H as acc Hrest. destruct acc as [p2 q2].
    injection H as <- <-.
    rewrite map_app, (IH p2 q2 Hrest). cbn [point_names flat_map].
    f_equal.
    unfold parse_feature in Hf.
    bind_inv Hf as c Hc.
    destruct (String.eqb (geometry_type f) "Point").
    + bind_inv Hf as points' Hpoint. injection Hf as <- <-.
      unfold parse_point in Hpoint.
      bind_inv Hpoint as n Hn. bind_inv Hpoint as u Hlen. bind_inv Hpoint as name Hname.
      unfold name_of in Hname.
      destruct (properties f) as [| |[name'|]]; try discriminate.
      injection Hname as ->.
      bind_inv Hpoint as x Hx. bind_inv Hpoint as y Hy.
      injection Hpoint as <-. reflexivity.
    + destruct (String.eqb (geometry_type f) "Polygon"); [|discriminate].
      bind_inv Hf as polygons' Hpolygon. injection Hf as <- <-. reflexivity.
Qed.

End EmitterFacts.

Section OutputClaims.

Context {num : Type} {N : PyNum num}.

(** C9.  The output of a run is the point lines followed by the polygon
    blocks: every line of the first part is a point line, no line of the
    second part is one, and the point lines carry the names of the ['Point']
    features in feature order, wherever those stood among the polygons. *)
Theorem points_before_polygons (features : list (feature num)) (out : list (line num)) :
  main features = ret out ->
  exists points polygons b t point_lines blocks,
    parse features = ret (points, polygons) /\
    bounding_box points polygons = ret b /\
    transform_of b = ret t /\
    comprehension (emit_point t) points = ret point_lines /\
    comprehension (emit_polygon t) polygons = ret blocks /\
    out = point_lines ++ concat blocks /\
    forallb is_point_line point_lines = true /\
    existsb is_point_line (concat blocks) = false /\
    map point_name points = point_names features /\
    line_names point_lines = point_names features.
Proof.
  intros H.
  destruct (main_ret_inv features out H)
    as (points & polygons & b & t & Hparse & Hbox & Ht & Hemit).
  destruct (emit_ret_inv t points polygons out Hemit)
    as (point_lines & blocks & Hpoints & Hblocks & ->).
  destruct (point_lines_of_points t points point_lines Hpoints) as [Hall Hnames].
  destruct (no_point_line_in_blocks t polygons blocks Hblocks) as [Hnone _].
  pose proof (parsed_point_names features points polygons Hparse) as Hparsed.
  exists points, polygons, b, t, point_lines, blocks.
  repeat split; try assumption. now rewrite Hnames.
Qed.

(** C8.  An accepted ['Polygon'] feature whose ring has [K + 1] entries
    contributes one block to the output: the opening line, exactly [K] vertex
    lines and the closing line.  The vertices are the first [K] entries of the
    ring in ring order, the closing entry left out, and the block stands
    after the point lines and the blocks of the polygons before it, before
    the blocks of the polygons after it. *)
Theorem polygon_block (before after : list (feature num)) (f : feature num)
    (ring : list (value num)) (K : nat) (out : list (line num)) :
  geometry_type f = "Polygon" ->
  coordinates f = Some (Arr [Arr ring]) ->
  length ring = S K ->
  main (before ++ f :: after) = ret out ->
  exists points polygons b t earlier later vertices
         point_lines earlier_blocks vertex_lines later_blocks,
    parse (before ++ f :: after) = ret (points, polygons) /\
    bounding_box points polygons = ret b /\
    transform_of b = ret t /\
    parse before = ret earlier /\
    parse after = ret later /\
    polygons = snd earlier ++ vertices :: snd later /\
    Forall2 first_two (removelast ring) vertices /\
    length vertices = K /\
    comprehension (emit_point t) points = ret point_lines /\
    comprehension (emit_polygon t) (snd earlier) = ret earlier_blocks /\
    comprehension (emit_vertex t) vertices = ret vertex_lines /\
    comprehension (emit_polygon t) (snd later) = ret later_blocks /\
    out = (point_lines ++ concat earlier_blocks)
          ++ (BlockOpen :: vertex_lines ++ [BlockClose])
          ++ concat later_blocks /\
    length vertex_lines = K /\
    forallb is_vertex_line vertex_lines = true.
Proof.
  intros Htype Hcoords Hlen H.
  destruct (main_ret_inv _ out H)
    as (points & polygons & b & t & Hparse & Hbox & Ht & Hemit).
  destruct (emit_ret_inv t points polygons out Hemit)
    as (point_lines & blocks & Hpoints & Hblocks & ->).
  pose proof Hparse as Hsplit.
  rewrite parse_app in Hsplit.
  bind_inv Hsplit as earlier Hbefore. destruct earlier as [p1 q1].
  bind_inv Hsplit as acc Hrest. destruct acc as [p2 q2].
  injection Hsplit as Hpts Hpolys.
  rewrite parse_cons in Hrest.
  bind_inv Hrest as acc Hf. destruct acc as [pf qf].
  bind_inv Hrest as later Hafter. destruct later as [p3 q3].
  injection Hrest as <- <-.
  rewrite (parse_feature_polygon f _ [] [] Htype Hcoords) in Hf.
  bind_inv Hf as polygons' Hpolygon. injection Hf as <- <-.
  apply parse_polygon_ret in Hpolygon.
  destruct Hpolygon as (ring' & vertices & Hcoords' & _ & _ & Hvertices & ->).
  assert (ring' = ring) as -> by congruence.
  assert (length vertices = K) as HK.
  { rewrite <- (Forall2_length_eq _ _ _ Hvertices), length_removelast_pred. lia. }
  cbn [app] in Hpolys. subst polygons.
  rewrite comprehension_app in Hblocks.
  bind_inv Hblocks as earlier_blocks Hearlier.
  bind_inv Hblocks as rest_blocks Hrest. injection Hblocks as <-.
  cbn [comprehension] in Hrest.
  bind_inv Hrest as block Hblock. bind_inv Hrest as later_blocks Hlater.
  injection Hrest as <-.
  apply emit_polygon_ret in Hblock. destruct Hblock as (vertex_lines & Hvl & ->).
  destruct (vertex_lines_of_polygon t vertices vertex_lines Hvl) as (Hvall & _ & _).
  exists points, (q1 ++ vertices :: q3), b, t, (p1, q1), (p3, q3), vertices,
         point_lines, earlier_blocks, vertex_lines, later_blocks.
  repeat split; try assumption.
  - rewrite concat_app. cbn [concat].
    repeat (rewrite <- app_assoc || rewrite <- app_comm_cons). reflexivity.
  - rewrite (comprehension_length _ _ _ Hvl). exact HK.
Qed.

(** C10.  The entries of a ring may have any number of components from two
    up: in a closed ring of at least four entries each retained entry gives
    the vertex made of its first two components, whatever follows them.
    Nothing checks the length of an entry; among arrays the only failure is
    the subscript of an entry of fewer than two components.  A ['Point'], in
    contrast, is accepted when its coordinates have exactly two elements and
    refused by the assertion of line 21 otherwise. *)
Theorem vertex_arity_unchecked (f : feature num) (ring : list (value num))
    (points : list (point num)) (polygons : list (polygon num)) :
  geometry_type f = "Polygon" ->
  coordinates f = Some (Arr [Arr ring]) ->
  4 <= length ring ->
  closed ring = true ->
  (Forall (fun v => two_or_more v = true) (removelast ring) ->
   exists vertices,
     parse_polygon (Arr [Arr ring]) polygons = ret (polygons ++ [vertices]) /\
     parse_feature f (points, polygons) = ret (points, polygons ++ [vertices]) /\
     Forall2 first_two (removelast ring) vertices) /\
  (Forall (fun v => is_array v = true) (removelast ring) ->
   Exists (fun v => two_or_more v = false) (removelast ring) ->
   parse_polygon (Arr [Arr ring]) polygons = raise IndexError /\
   parse_feature f (points, polygons) = raise IndexError) /\
  (forall (g : feature num) (items : list (value num)),
     geometry_type g = "Point" ->
     coordinates g = Some (Arr items) ->
     length items <> 2 ->
     parse_point g (Arr items) points = raise AssertionError /\
     parse_feature g (points, polygons) = raise AssertionError) /\
  (forall (g : feature num) (items : list (value num)) (name : string),
     geometry_type g = "Point" ->
     coordinates g = Some (Arr items) ->
     length items = 2 ->
     properties g = Properties (Some name) ->
     exists x y,
       items = [x; y] /\
       parse_point g (Arr items) points = ret (points ++ [(x, y, name)]) /\
       parse_feature g (points, polygons) = ret (points ++ [(x, y, name)], polygons)).
Proof.
  intros Htype Hcoords Hlen Hclosed. split; [|split; [|split]].
  - intros Hring.
    destruct (parse_polygon_accepts ring polygons Hlen Hclosed Hring) as (vertices & Hp & Hv).
    exists vertices. repeat split; try assumption.
    rewrite (parse_feature_polygon f _ points polygons Htype Hcoords). now rewrite Hp.
  - intros Harr Hshort.
    pose proof (parse_polygon_subscript ring polygons Hlen Hclosed Harr Hshort) as Hp.
    split; [assumption|].
    rewrite (parse_feature_polygon f _ points polygons Htype Hcoords). now rewrite Hp.
  - intros g items Hg Hc Hn.
    pose proof (parse_point_arity g items points Hn) as Hp.
    split; [assumption|].
    rewrite (parse_feature_point g _ points polygons Hg Hc). now rewrite Hp.
  - intros g items name Hg Hc Hn Hname.
    destruct (parse_point_accepts g items name points Hn Hname) as (x & y & -> & Hp).
    exists x, y. repeat split; try assumption.
    rewrite (parse_feature_point g _ points polygons Hg Hc). now rewrite Hp.
Qed.

(** C7, as the code has it.  The ['Polygon'] branch counts the entries of the
    ring and compares its ends; it does not count distinct vertices.  A ring
    of fewer than four entries is refused by the assertion of line 27, and a
    closed ring of four entries or more (each of two components or more) is
    accepted with one vertex per entry but the last. *)
Theorem ring_length_checked (f : feature num) (ring : list (value num))
    (points : list (point num)) (polygons : list (polygon num)) :
  geometry_type f = "Polygon" ->
  coordinates f = Some (Arr [Arr ring]) ->
  (length ring < 4 ->
   parse_polygon (Arr [Arr ring]) polygons = raise AssertionError /\
   parse_feature f (points, polygons) = raise AssertionError) /\
  (4 <= length ring ->
   closed ring = true ->
   Forall (fun v => two_or_more v = true) ring ->
   exists vertices,
     parse_polygon (Arr [Arr ring]) polygons = ret (polygons ++ [vertices]) /\
     parse_feature f (points, polygons) = ret (points, polygons ++ [vertices]) /\
     length vertices = length ring - 1).
Proof.
  intros Htype Hcoords. split.
  - intros Hlen. pose proof (parse_polygon_short ring polygons Hlen) as Hp.
    split; [assumption|].
    rewrite (parse_feature_polygon f _ points polygons Htype Hcoords). now rewrite Hp.
  - intros Hlen Hclosed Hring.
    destruct (parse_polygon_accepts ring polygons Hlen Hclosed
                (Forall_removelast _ _ Hring))
      as (vertices & Hparse & Hvertices).
    exists vertices. split; [assumption|]. split.
    + rewrite (parse_feature_polygon f _ points polygons Htype Hcoords). now rewrite Hparse.
    + now rewrite <- (Forall2_length_eq _ _ _ Hvertices), length_removelast_pred.
Qed.

End OutputClaims.

(** ** The bounding box *)

Section BoxFacts.

Context {num : Type} {N : PyNum num}.

(** *** [min] and [max] keep one of their arguments, of the kind of both *)

Lemma py_lt_kind (a b : value num) (r : bool) :
  py_lt a b = ret r -> is_number a = is_number b.
Proof. destruct a, b; cbn [py_lt is_number]; try discriminate; reflexivity. Qed.

Lemma py_gt_kind (a b : value num) (r : bool) :
  py_gt a b = ret r -> is_number a = is_number b.
Proof. destruct a, b; cbn [py_gt is_number]; try discriminate; reflexivity. Qed.

Lemma py_min_ret (a b m : value num) :
  py_min a b = ret m -> is_number b = is_number a /\ (m = a \/ m = b).
Proof.
  unfold py_min. intros H. bind_inv H as r Hr. injection H as <-.
  split; [now apply py_lt_kind in Hr|]. destruct r; auto.
Qed.

Lemma py_max_ret (a b m : value num) :
  py_max a b = ret m -> is_number b = is_number a /\ (m = a \/ m = b).
Proof.
  unfold py_max. intros H. bind_inv H as r Hr. injection H as <-.
  split; [now apply py_gt_kind in Hr|]. destruct r; auto.
Qed.

Lemma py_min_numbers (a b : num) : py_min (Num a) (Num b) = ret (Num (num_min a b)).
Proof. unfold py_min, num_min. cbn [py_lt bind ret]. now destruct (num_lt b a). Qed.

Lemma py_max_numbers (a b : num) : py_max (Num a) (Num b) = ret (Num (num_max a b)).
Proof. unfold py_max, num_max. cbn [py_gt bind ret]. now destruct (num_lt a b). Qed.

(** *** One step and the whole scan *)

Lemma extend_ret (b b' : bbox num) (x y : value num) :
  extend b x y = ret b' ->
  (is_number x = is_number (x_min b) /\ is_number x = is_number (x_max b) /\
   is_number y = is_number (y_min b) /\ is_number y = is_number (y_max b)) /\
  (x_min b' = x_min b \/ x_min b' = x) /\
  (x_max b' = x_max b \/ x_max b' = x) /\
  (y_min b' = y_min b \/ y_min b' = y) /\
  (y_max b' = y_max b \/ y_max b' = y).
Proof.
  unfold extend. intros H.
  bind_inv H as xmin Hxmin. bind_inv H as xmax Hxmax.
  bind_inv H as ymin Hymin. bind_inv H as ymax Hymax.
  injection H as <-. cbn [x_min x_max y_min y_max].
  apply py_min_ret in Hxmin, Hymin. apply py_max_ret in Hxmax, Hymax.
  tauto.
Qed.

Lemma extend_all_app (vs vs' : list (vertex num)) :
  forall b,
  extend_all b (vs ++ vs') = (b' <- extend_all b vs ;; extend_all b' vs').
Proof.
  induction vs as [|v vs IH]; intros b; cbn [app extend_all bind ret]; [reflexivity|].
  destruct (extend b (fst v) (snd v)) as [e|b1]; cbn [bind]; [reflexivity|]. apply IH.
Qed.

(** The sides of the box after a scan are sides before it or scanned
    coordinates, and everything scanned is of the kind of the sides. *)
Lemma extend_all_ret (vs : list (vertex num)) :
  forall b b',
  extend_all b vs = ret b' ->
  (x_min b' = x_min b \/ In (x_min b') (map fst vs)) /\
  (x_max b' = x_max b \/ In (x_max b') (map fst vs)) /\
  (y_min b' = y_min b \/ In (y_min b') (map snd vs)) /\
  (y_max b' = y_max b \/ In (y_max b') (map snd vs)) /\
  (is_number (x_min b) = is_number (x_max b) ->
   is_number (y_min b) = is_number (y_max b) ->
   Forall (fun v => is_number (fst v) = is_number (x_min b) /\
                    is_number (snd v) = is_number (y_min b)) vs /\
   is_number (x_min b') = is_number (x_min b) /\
   is_number (x_max b') = is_number (x_min b) /\
   is_number (y_min b') = is_number (y_min b) /\
   is_number (y_max b') = is_number (y_min b)).
Proof.
  induction vs as [|v vs IH]; intros b b' H; cbn [extend_all] in H.
  - injection H as <-. repeat split; auto; congruence.
  - bind_inv H as b1 Hb1.
    destruct (extend_ret b b1 (fst v) (snd v) Hb1)
      as ((Kxm & KxM & Kym & KyM) & Hxm & HxM & Hym & HyM).
    destruct (IH b1 b' H) as (Ixm & IxM & Iym & IyM & Ikind).
    cbn [map In].
    split; [|split; [|split; [|split]]].
    + destruct Ixm as [->|Hin]; [destruct Hxm as [->| ->]|]; auto.
    + destruct IxM as [->|Hin]; [destruct HxM as [->| ->]|]; auto.
    + destruct Iym as [->|Hin]; [destruct Hym as [->| ->]|]; auto.
    + destruct IyM as [->|Hin]; [destruct HyM as [->| ->]|]; auto.
    + intros Hx Hy.
      assert (is_number (x_min b1) = is_number (x_min b)) as E1
        by (destruct Hxm as [->| ->]; congruence).
      assert (is_number (x_max b1) = is_number (x_min b)) as E2
        by (destruct HxM as [->| ->]; congruence).
      assert (is_number (y_min b1) = is_number (y_min b)) as E3
        by (destruct Hym as [->| ->]; congruence).
      assert (is_number (y_max b1) = is_number (y_min b)) as E4
        by (destruct HyM as [->| ->]; congruence).
      destruct Ikind as (Hall & F1 & F2 & F3 & F4); [congruence|congruence|].
      rewrite E1 in *. rewrite E3 in *.
      repeat split; try assumption. now constructor.
Qed.

(** The two loops of lines 37-48 are one scan, and the seed is its first
    element. *)
Lemma bounding_box_scan (points : list (point num)) (polygons : list (polygon num))
    (b : bbox num) :
  bounding_box points polygons = ret b <->
  exists x0 y0 rest,
    scanned points polygons = (x0, y0) :: rest /\
    map point_xy points <> [] /\
    extend_all {| x_min := x0; y_min := y0; x_max := x0; y_max := y0 |}
      (scanned points polygons) = ret b.
Proof.
  unfold bounding_box, scanned. split.
  - intros H.
    bind_inv H as p0 Hseed. destruct p0 as [[x0 y0] name].
    destruct points as [|p points]; [discriminate|].
    injection Hseed as ->.
    exists x0, y0, (map point_xy points ++ concat polygons).
    split; [reflexivity|]. split; [discriminate|].
    now rewrite extend_all_app.
  - intros (x0 & y0 & rest & Hscan & Hne & H).
    destruct points as [|[[x y] name] points]; [now contradiction Hne|].
    injection Hscan as -> -> _.
    cbn [index nth_error bind ret]. now rewrite <- extend_all_app.
Qed.

(** On numbers the scan is four folds. *)
Lemma extend_all_numbers (nvs : list (num * num)) :
  forall xm ym xM yM,
  extend_all (box_of xm ym xM yM) (map number_vertex nvs) =
  ret (box_of (fold_left num_min (map fst nvs) xm) (fold_left num_min (map snd nvs) ym)
              (fold_left num_max (map fst nvs) xM) (fold_left num_max (map snd nvs) yM)).
Proof.
  induction nvs as [|[x y] nvs IH]; intros xm ym xM yM; [reflexivity|].
  cbn [map extend_all number_vertex fst snd fold_left].
  unfold extend. cbn [box_of x_min x_max y_min y_max].
  rewrite !py_min_numbers, !py_max_numbers. cbn [bind ret].
  exact (IH (num_min xm x) (num_min ym y) (num_max xM x) (num_max yM y)).
Qed.

Lemma numbers_of (vs : list (vertex num)) :
  Forall (fun v => is_number (fst v) = true /\ is_number (snd v) = true) vs ->
  exists nvs, vs = map number_vertex nvs.
Proof.
  induction 1 as [|[x y] vs [Hx Hy] _ [nvs ->]].
  - now exists [].
  - destruct x as [x|]; [|discriminate]. destruct y as [y|]; [|discriminate].
    now exists ((x, y) :: nvs).
Qed.

(** A box of numbers was made from numbers only. *)
Lemma number_box_scan (points : list (point num)) (polygons : list (polygon num))
    (xm ym xM yM : num) :
  bounding_box points polygons = ret (box_of xm ym xM yM) ->
  exists x0 y0 nvs,
    scanned points polygons = map number_vertex ((x0, y0) :: nvs) /\
    xm = fold_left num_min (map fst ((x0, y0) :: nvs)) x0 /\
    ym = fold_left num_min (map snd ((x0, y0) :: nvs)) y0 /\
    xM = fold_left num_max (map fst ((x0, y0) :: nvs)) x0 /\
    yM = fold_left num_max (map snd ((x0, y0) :: nvs)) y0.
Proof.
  intros H. apply bounding_box_scan in H.
  destruct H as (x0 & y0 & rest & Hscan & _ & H).
  destruct (extend_all_ret _ _ _ H) as (_ & _ & _ & _ & Hkind).
  destruct Hkind as (Hall & Kxm & _ & Kym & _); [reflexivity|reflexivity|].
  cbn [x_min y_min box_of is_number] in Hall, Kxm, Kym.
  rewrite <- Kxm, <- Kym in Hall.
  destruct (numbers_of _ Hall) as [nvs Hnvs].
  rewrite Hnvs in Hscan.
  destruct nvs as [|[nx ny] nvs]; [discriminate|].
  cbn [map number_vertex fst snd] in Hscan. injection Hscan as <- <- _.
  exists nx, ny, nvs. split; [assumption|].
  rewrite Hnvs in H.
  change {| x_min := Num nx; y_min := Num ny; x_max := Num nx; y_max := Num ny |}
    with (box_of nx ny nx ny) in H.
  rewrite extend_all_numbers in H. injection H as <- <- <- <-. now repeat split.
Qed.

(** *** Lines 50-53 *)

(** The transform exists only for a box of numbers, and is then what the
    four lines say. *)
Lemma transform_of_ret (b : bbox num) (t : transform num) :
  transform_of b = ret t <->
  exists xm ym xM yM,
    b = box_of xm ym xM yM /\
    x_shift t = half (num_add xM xm) /\
    py_div (num_sub MAP_SIZE MARGIN) (num_sub xM xm) = ret (x_scale t) /\
    y_shift t = half (num_add yM ym) /\
    py_div (num_sub MAP_SIZE MARGIN) (num_sub yM ym) = ret (y_scale t).
Proof.
  unfold transform_of. split.
  - intros H. destruct b as [[xm|] [ym|] [xM|] [yM|]];
      cbn [x_min x_max y_min y_max py_add py_half py_sub bind ret raise] in H;
      try discriminate H;
      try (destruct (py_div _ _); discriminate H).
    bind_inv H as xsc Hxsc. bind_inv H as ysc Hysc. injection H as <-.
    exists xm, ym, xM, yM. now repeat split.
  - intros (xm & ym & xM & yM & -> & Hxsh & Hxsc & Hysh & Hysc).
    cbn [box_of x_min x_max y_min y_max py_add py_half py_sub bind ret].
    rewrite Hxsc, Hysc. cbn [bind ret]. destruct t; cbn in *. congruence.
Qed.

(** *** Lines 55-66 *)

Lemma printed_app (out out' : list (line num)) :
  printed (out ++ out') = printed out ++ printed out'.
Proof. unfold printed. apply flat_map_app. Qed.

Lemma emit_points_printed (t : transform num) (points : list (point num)) :
  forall point_lines,
  comprehension (emit_point t) points = ret point_lines <->
  comprehension (apply t) (map point_xy points) = ret (printed point_lines) /\
  line_names point_lines = map point_name points /\
  forallb is_point_line point_lines = true.
Proof.
  induction points as [|[[x y] name] points IH]; intros point_lines.
  - cbn. split.
    + intros H. injection H as <-. now repeat split.
    + intros (_ & Hn & Hall). destruct point_lines as [|[] ?]; try discriminate. reflexivity.
  - cbn [comprehension map point_xy]. unfold emit_point at 1, apply at 1. cbn [fst snd].
    split.
    + intros H. bind_inv H as l Hl. bind_inv Hl as x' Hx. bind_inv Hl as y' Hy.
      injection Hl as <-. bind_inv H as ls Hls. injection H as <-.
      apply IH in Hls. destruct Hls as (Hp & Hn & Hall).
      rewrite Hx, Hy. cbn [bind ret]. rewrite Hp. cbn [bind ret].
      repeat split.
      * unfold line_names in *. cbn [flat_map app map point_name snd]. now rewrite Hn.
      * exact Hall.
    + intros (H & Hn & Hall).
      bind_inv H as xy Hxy. bind_inv Hxy as x' Hx. bind_inv Hxy as y' Hy.
      injection Hxy as <-. bind_inv H as rest Hrest.
      destruct point_lines as [|[name' x'' y''| | |] ls]; try discriminate.
      injection H as -> -> Hrest'.
      unfold line_names in Hn. cbn [flat_map app map point_name snd] in Hn.
      injection Hn as -> Hn.
      rewrite Hx, Hy. cbn [bind ret].
      assert (comprehension (emit_point t) points = ret ls) as ->.
      { apply IH. cbn in Hall. repeat split; try assumption. now rewrite Hrest, Hrest'. }
      reflexivity.
Qed.

Lemma emit_vertices_printed (t : transform num) (p : polygon num) :
  forall vertex_lines,
  comprehension (emit_vertex t) p = ret vertex_lines ->
  comprehension (apply t) p = ret (printed vertex_lines).
Proof.
  induction p as [|v p IH]; intros vertex_lines H; cbn in H.
  - now injection H as <-.
  - bind_inv H as l Hl. unfold emit_vertex in Hl.
    bind_inv Hl as x' Hx. bind_inv Hl as y' Hy. injection Hl as <-.
    bind_inv H as ls Hls. injection H as <-.
    cbn [comprehension]. unfold apply at 1. rewrite Hx, Hy. cbn [bind ret].
    now rewrite (IH ls Hls).
Qed.

Lemma emit_vertices_total (t : transform num) (p : polygon num) :
  forall xys,
  comprehension (apply t) p = ret xys ->
  exists vertex_lines,
    comprehension (emit_vertex t) p = ret vertex_lines /\ printed vertex_lines = xys.
Proof.
  induction p as [|v p IH]; intros xys H; cbn in H.
  - injection H as <-. now exists [].
  - bind_inv H as xy Hxy. unfold apply in Hxy.
    bind_inv Hxy as x' Hx. bind_inv Hxy as y' Hy. injection Hxy as <-.
    bind_inv H as rest Hrest. injection H as <-.
    destruct (IH rest Hrest) as (ls & Hls & Hp).
    exists (VertexLine x' y' :: ls). cbn [comprehension]. unfold emit_vertex at 1.
    rewrite Hx, Hy. cbn [bind ret]. rewrite Hls. cbn [bind ret].
    split; [reflexivity|]. unfold printed in *. cbn. now rewrite Hp.
Qed.

Lemma emit_points_total (t : transform num) (points : list (point num)) :
  forall xys,
  comprehension (apply t) (map point_xy points) = ret xys ->
  exists point_lines,
    comprehension (emit_point t) points = ret point_lines /\ printed point_lines = xys.
Proof.
  induction points as [|[[x y] name] points IH]; intros xys H; cbn in H.
  - injection H as <-. now exists [].
  - bind_inv H as xy Hxy. unfold apply in Hxy. cbn [fst snd] in Hxy.
    bind_inv Hxy as x' Hx. bind_inv Hxy as y' Hy. injection Hxy as <-.
    bind_inv H as rest Hrest. injection H as <-.
    destruct (IH rest Hrest) as (ls & Hls & Hp).
    exists (PointLine name x' y' :: ls). cbn [comprehension]. unfold emit_point at 1.
    rewrite Hx, Hy. cbn [bind ret]. rewrite Hls. cbn [bind ret].
    split; [reflexivity|]. unfold printed in *. cbn. now rewrite Hp.
Qed.

Lemma emit_blocks_printed (t : transform num) (polygons : list (polygon num)) :
  forall blocks,
  comprehension (emit_polygon t) polygons = ret blocks ->
  comprehension (apply t) (concat polygons) = ret (printed (concat blocks)).
Proof.
  induction polygons as [|p polygons IH]; intros blocks H; cbn in H.
  - now injection H as <-.
  - bind_inv H as block Hblock. bind_inv H as rest Hrest. injection H as <-.
    apply emit_polygon_ret in Hblock. destruct Hblock as (vertex_lines & Hv & ->).
    cbn [concat]. rewrite comprehension_app.
    rewrite (emit_vertices_printed t p vertex_lines Hv). cbn [bind ret].
    rewrite (IH rest Hrest). cbn [bind ret].
    rewrite printed_app. f_equal. f_equal.
    unfold printed. cbn [flat_map line_xy app]. rewrite flat_map_app. cbn.
    now rewrite app_nil_r.
Qed.

Lemma emit_blocks_total (t : transform num) (polygons : list (polygon num)) :
  forall xys,
  comprehension (apply t) (concat polygons) = ret xys ->
  exists blocks, comprehension (emit_polygon t) polygons = ret blocks.
Proof.
  induction polygons as [|p polygons IH]; intros xys H.
  - now exists [].
  - cbn [concat] in H. rewrite comprehension_app in H.
    bind_inv H as here Hhere. bind_inv H as rest Hrest.
    destruct (emit_vertices_total t p here Hhere) as (vertex_lines & Hv & _).
    destruct (IH rest Hrest) as (blocks & Hblocks).
    exists ((BlockOpen :: vertex_lines ++ [BlockClose]) :: blocks).
    cbn [comprehension]. unfold emit_polygon at 1. rewrite Hv. cbn [bind ret].
    now rewrite Hblocks.
Qed.

(** What the run prints is what lines 56-57 and 63-64 make of the scanned
    coordinates, in scan order. *)
Lemma printed_emit (t : transform num) (points : list (point num))
    (polygons : list (polygon num)) (out : list (line num)) :
  emit t points polygons = ret out ->
  comprehension (apply t) (scanned points polygons) = ret (printed out).
Proof.
  intros H. apply emit_ret_inv in H.
  destruct H as (point_lines & blocks & Hpoints & Hblocks & ->).
  apply emit_points_printed in Hpoints. destruct Hpoints as (Hp & _ & _).
  unfold scanned. rewrite comprehension_app, Hp. cbn [bind ret].
  rewrite (emit_blocks_printed t polygons blocks Hblocks). cbn [bind ret].
  now rewrite printed_app.
Qed.

Lemma emit_total (t : transform num) (points : list (point num))
    (polygons : list (polygon num)) (xys : list (num * num)) :
  comprehension (apply t) (scanned points polygons) = ret xys ->
  exists out, emit t points polygons = ret out.
Proof.
  unfold scanned. rewrite comprehension_app. intros H.
  bind_inv H as here Hhere. bind_inv H as rest Hrest.
  destruct (emit_points_total t points here Hhere) as (point_lines & Hp & _).
  destruct (emit_blocks_total t polygons rest Hrest) as (blocks & Hb).
  exists (point_lines ++ concat blocks). unfold emit. now rewrite Hp, Hb.
Qed.

Lemma apply_numbers (t : transform num) (nvs : list (num * num)) :
  comprehension (apply t) (map number_vertex nvs) =
  ret (map (fun v => (moved_x t (fst v), moved_y t (snd v))) nvs).
Proof.
  induction nvs as [|[x y] nvs IH]; [reflexivity|].
  cbn [map comprehension]. unfold apply at 1, number_vertex at 1.
  cbn [fst snd apply_x apply_y py_sub bind ret]. rewrite IH. reflexivity.
Qed.

End BoxFacts.

(** ** binary64 arithmetic *)

Section Binary64Facts.

Lemma b64_add_comm (x y : binary64) : SFadd prec emax x y = SFadd prec emax y x.
Proof.
  destruct x as [sx|sx| |sx mx ex], y as [sy|sy| |sy my ey];
    try reflexivity; try (destruct sx, sy; reflexivity).
  unfold SFadd. rewrite (Z.min_comm ey ex). f_equal. apply Z.add_comm.
Qed.

(** [x - y] is a zero when [x == y] and [y] is finite. *)
Lemma b64_sub_eq (x y : binary64) :
  SFeqb x y = true -> finite y = true -> exists s, num_sub x y = S754_zero s.
Proof.
  unfold SFeqb. cbn [num_sub binary64_num].
  destruct x as [sx|sx| |sx mx ex], y as [sy|sy| |sy my ey];
    cbn [SFcompare finite SFsub]; try discriminate; intros Heq _;
    try (destruct sx; discriminate Heq); try (destruct sy; discriminate Heq).
  - destruct sx, sy; eexists; reflexivity.
  - assert (sx = sy /\ ex = ey /\ mx = my) as (-> & -> & ->).
    { destruct sx, sy; try discriminate;
        destruct (Z.compare ex ey) eqn:He; try discriminate;
        apply Z.compare_eq in He;
        destruct (Pos.compare_cont Eq mx my) eqn:Hm; try discriminate;
        apply Pos.compare_eq in Hm; auto. }
    rewrite Z.sub_diag. now exists false.
Qed.

Lemma b64_sub_diag (x : binary64) :
  finite x = true -> SFsub prec emax x x = S754_zero false.
Proof.
  destruct x as [s|s| |s m e]; cbn [finite SFsub]; try discriminate; intros _.
  - now destruct s.
  - now rewrite Z.sub_diag.
Qed.

Lemma b64_sub_diag_nan (x : binary64) :
  finite x = false -> SFsub prec emax x x = S754_nan.
Proof.
  destruct x as [s|s| |s m e]; cbn [finite]; try discriminate; intros _.
  - now destruct s.
  - reflexivity.
Qed.

(** [scale * (shift - shift)] is a zero when both are finite and NaN
    otherwise. *)
Lemma shift_to_zero (scale shift : binary64) :
  (finite shift = true /\ finite scale = true ->
   exists s, num_mul scale (num_sub shift shift) = S754_zero s) /\
  (finite shift = false \/ finite scale = false ->
   num_mul scale (num_sub shift shift) = S754_nan).
Proof.
  cbn [num_mul num_sub binary64_num].
  destruct (finite shift) eqn:Hshift.
  - rewrite (b64_sub_diag shift Hshift).
    destruct scale as [s|s| |s m e]; cbn [SFmul finite]; split;
      try (intros _; eexists; reflexivity);
      try (intros _; reflexivity);
      try (intros [_ H]; discriminate H);
      try (intros [H|H]; discriminate H).
  - rewrite (b64_sub_diag_nan shift Hshift). split.
    + intros [H _]. discriminate H.
    + intros _. now destruct scale.
Qed.

Lemma zero_divisor_raises (a r : binary64) (s : bool) :
  r = S754_zero s -> py_div a r = raise ZeroDivisionError.
Proof. now intros ->. Qed.

Lemma py_div_cases {num : Type} {N : PyNum num} (a r : num) :
  py_div a r = raise ZeroDivisionError \/ py_div a r = ret (num_div a r).
Proof. unfold py_div. destruct (num_eqb r (num_of_Z 0)); auto. Qed.

(** The centre of the box, written [(min + max) / 2], is the shift of line 50
    and 52, written [(max + min) / 2]. *)
Lemma center_is_shift (b : bbox binary64) (t : transform binary64) :
  transform_of b = ret t -> center b = ret (x_shift t, y_shift t).
Proof.
  intros H. apply transform_of_ret in H.
  destruct H as (xm & ym & xM & yM & -> & -> & _ & -> & _).
  unfold center. cbn [box_of x_min x_max y_min y_max py_add py_half bind ret num_add binary64_num].
  now rewrite (b64_add_comm xm), (b64_add_comm ym).
Qed.

End Binary64Facts.

(** ** The run over binary64 *)

Section Binary64Claims.

(** C1.  On [scenario] the feature loop keeps the point and the three
    vertices of the triangle, the box is [0, 20] on both axes, the shift is
    (10, 10), the scale (47.5, 47.5), and the run prints the point at (0, 0)
    followed by one block with the vertices (-475, -475), (475, -475) and
    (475, 475), in that order. *)
Theorem scenario_output :
  parse scenario = ret (scenario_points, [triangle]) /\
  bounding_box scenario_points [triangle] = ret scenario_box /\
  transform_of scenario_box = ret scenario_transform /\
  main scenario = ret scenario_out.
Proof. repeat split; vm_compute; reflexivity. Qed.

(** *** A box of zero range *)

(** A single point makes a box of zero width and height: line 51 divides by
    zero and the run ends with [ZeroDivisionError] instead of printing. *)
Lemma single_point_aborts :
  bounding_box [(Num (b64_of_Z 10), Num (b64_of_Z 10), "A")] [] = ret single_box /\
  transform_of single_box = raise ZeroDivisionError /\
  main single_point = raise ZeroDivisionError /\
  ~ (exists out, main single_point = ret out).
Proof.
  repeat split; try (vm_compute; reflexivity).
  intros [out H]. vm_compute in H. discriminate.
Qed.

(** C4, as the code has it.  When the box has zero range on an axis, the
    maximum equal to the minimum and finite, the divisor of line 51 or of
    line 53 is a zero and [/] raises [ZeroDivisionError]: no scale is
    computed and the run ends without printing. *)
Theorem zero_range_raises (features : list (feature binary64))
    (points : list (point binary64)) (polygons : list (polygon binary64))
    (xm ym xM yM : binary64) :
  parse features = ret (points, polygons) ->
  bounding_box points polygons = ret (box_of xm ym xM yM) ->
  (SFeqb xM xm = true /\ finite xm = true) \/
  (SFeqb yM ym = true /\ finite ym = true) ->
  transform_of (box_of xm ym xM yM) = raise ZeroDivisionError /\
  main features = raise ZeroDivisionError.
Proof.
  intros Hparse Hbox Hzero.
  assert (transform_of (box_of xm ym xM yM) = raise ZeroDivisionError) as Ht.
  { unfold transform_of.
    cbn [box_of x_min x_max y_min y_max py_add py_half py_sub bind ret].
    destruct Hzero as [[Heq Hfin]|[Heq Hfin]];
      destruct (b64_sub_eq _ _ Heq Hfin) as [s Hs].
    - now rewrite (zero_divisor_raises _ _ s Hs).
    - rewrite (zero_divisor_raises _ (num_sub yM ym) s Hs).
      destruct (py_div_cases (num_sub MAP_SIZE MARGIN) (num_sub xM xm))
        as [-> | ->]; reflexivity. }
  split; [assumption|].
  rewrite (main_of_stages features points polygons _ Hparse Hbox). now rewrite Ht.
Qed.

(** *** Rounding at the sides of the box *)

(** Two points 51 apart: the box is not degenerate, and the far point is
    printed at 475.00000000000006 on both axes, above
    [(MAP_SIZE - MARGIN) / 2 = 475]. *)
Lemma extent_exceeded :
  bounding_box [(Num (b64_of_Z 0), Num (b64_of_Z 0), "A");
                (Num (b64_of_Z 51), Num (b64_of_Z 51), "B")] [] =
    ret (box_of (b64_of_Z 0) (b64_of_Z 0) (b64_of_Z 51) (b64_of_Z 51)) /\
  main span_51 =
    ret [ PointLine "A" (SFopp above_475) (SFopp above_475);
          PointLine "B" above_475 above_475 ] /\
  extent = b64_of_Z 475 /\
  SFltb extent above_475 = true /\
  SFleb (SFabs above_475) extent = false.
Proof. repeat split; vm_compute; reflexivity. Qed.

(** Two points 23 apart: both are printed at 474.99999999999994 from the
    origin, so no printed coordinate reaches 475. *)
Lemma extent_not_reached :
  main span_23 =
    ret [ PointLine "A" (SFopp below_475) (SFopp below_475);
          PointLine "B" below_475 below_475 ] /\
  extent = b64_of_Z 475 /\
  SFltb below_475 extent = true.
Proof. repeat split; vm_compute; reflexivity. Qed.

(** Two points 2 apart at 2^53: [max + min] rounds to 2^54, the shift is the
    lower point, and the upper point is printed at 950, twice
    [(MAP_SIZE - MARGIN) / 2]. *)
Lemma extent_doubled :
  main span_far =
    ret [ PointLine "A" (b64_of_Z 0) (b64_of_Z 0);
          PointLine "B" (b64_of_Z 950) (b64_of_Z 950) ].
Proof. vm_compute. reflexivity. Qed.

(** *** The centre of the box *)

(** Two points 2^-1020 apart: the box has positive range on both axes, the
    scale 950 / 2^-1020 overflows to infinity, the run prints, and the centre
    of the box is sent to (nan, nan). *)
Lemma center_sent_to_nan :
  parse span_tiny =
    ret ([(Num (b64_of_Z 0), Num (b64_of_Z 0), "A"); (Num b64_tiny, Num b64_tiny, "B")], []) /\
  bounding_box [(Num (b64_of_Z 0), Num (b64_of_Z 0), "A"); (Num b64_tiny, Num b64_tiny, "B")] [] =
    ret tiny_box /\
  SFltb (b64_of_Z 0) b64_tiny = true /\
  transform_of tiny_box = ret tiny_transform /\
  main span_tiny =
    ret [ PointLine "A" (S754_infinity true) (S754_infinity true);
          PointLine "B" (S754_infinity false) (S754_infinity false) ] /\
  center tiny_box = ret (half b64_tiny, half b64_tiny) /\
  apply tiny_transform (number_vertex (half b64_tiny, half b64_tiny)) =
    ret (S754_nan, S754_nan).
Proof. repeat split; vm_compute; reflexivity. Qed.

(** C3, as the code has it.  In a run that prints, the transform sends the
    centre of the box to a zero on an axis (0.0 or -0.0, both equal to 0)
    when the shift and the scale of that axis are finite, that is when
    neither [max + min] nor [950 / (max - min)] overflows, and to NaN
    otherwise. *)
Theorem center_to_origin (features : list (feature binary64)) (out : list (line binary64)) :
  main features = ret out ->
  exists points polygons b t c image,
    parse features = ret (points, polygons) /\
    bounding_box points polygons = ret b /\
    transform_of b = ret t /\
    center b = ret c /\
    apply t (number_vertex c) = ret image /\
    (finite (x_shift t) = true /\ finite (x_scale t) = true ->
     exists sx, fst image = S754_zero sx) /\
    (finite (x_shift t) = false \/ finite (x_scale t) = false ->
     fst image = S754_nan) /\
    (finite (y_shift t) = true /\ finite (y_scale t) = true ->
     exists sy, snd image = S754_zero sy) /\
    (finite (y_shift t) = false \/ finite (y_scale t) = false ->
     snd image = S754_nan).
Proof.
  intros H.
  destruct (main_ret_inv features out H)
    as (points & polygons & b & t & Hparse & Hbox & Ht & _).
  exists points, polygons, b, t, (x_shift t, y_shift t),
         (num_mul (x_scale t) (num_sub (x_shift t) (x_shift t)),
          num_mul (y_scale t) (num_sub (y_shift t) (y_shift t))).
  do 3 (split; [assumption|]).
  split; [now apply center_is_shift|].
  split; [reflexivity|].
  destruct (shift_to_zero (x_scale t) (x_shift t)) as [Hx0 Hxn].
  destruct (shift_to_zero (y_scale t) (y_shift t)) as [Hy0 Hyn].
  repeat split; assumption.
Qed.

End Binary64Claims.

(** ** binary64 rounding

    What [SFadd], [SFsub], [SFmul], [SFdiv] and the comparisons of
    [SpecFloat] compute on numbers in canonical form, in terms of the
    rationals they stand for: each operation returns its exact result
    rounded to nearest, within half a unit in the last place. *)

Section Rounding.

Local Open Scope Z_scope.

Lemma pow2_pos (e : Z) : (0 < pow2 e)%Q.
Proof. apply Qpower_0_lt. reflexivity. Qed.

Lemma pow2_add (a b : Z) : (pow2 (a + b) == pow2 a * pow2 b)%Q.
Proof. apply Qpower_plus. discriminate. Qed.

Lemma pow2_le (a b : Z) : a <= b -> (pow2 a <= pow2 b)%Q.
Proof. intros H. apply Qpower_le_compat_l; [assumption|discriminate]. Qed.

Lemma pow2_lt (a b : Z) : a < b -> (pow2 a < pow2 b)%Q.
Proof. intros H. apply Qpower_lt_compat_l; [assumption|reflexivity]. Qed.

Lemma pow2_Z (n : Z) : 0 <= n -> (pow2 n == inject_Z (2 ^ n))%Q.
Proof. intros H. unfold pow2. now rewrite Zpower_Qpower. Qed.

Lemma pow2_split (a b : Z) : (pow2 a == pow2 b * pow2 (a - b))%Q.
Proof. rewrite <- pow2_add. now replace (b + (a - b)) with a by lia. Qed.

Lemma pow2_succ (a : Z) : (pow2 (a + 1) == 2 * pow2 a)%Q.
Proof. rewrite pow2_add. change (pow2 1) with 2%Q. ring. Qed.

Lemma pow2_pred (a : Z) : (pow2 (a - 1) == (1 # 2) * pow2 a)%Q.
Proof.
  rewrite (pow2_split a (a - 1)). replace (a - (a - 1)) with 1 by lia.
  change (pow2 1) with 2%Q. ring.
Qed.

Lemma inject_Z_lt_inv (a b : Z) : (inject_Z a < inject_Z b)%Q -> a < b.
Proof. now rewrite <- Zlt_Qlt. Qed.

Lemma inject_Z_le_inv (a b : Z) : (inject_Z a <= inject_Z b)%Q -> a <= b.
Proof. now rewrite <- Zle_Qle. Qed.

(** *** The number of binary digits *)
Lemma digits2_pos_spec (m : positive) :
  2 ^ (Zpos (digits2_pos m) - 1) <= Zpos m < 2 ^ Zpos (digits2_pos m).
Proof.
  induction m as [p IH|p IH|]; cbn [digits2_pos].
  - rewrite Pos2Z.inj_succ.
    replace (Z.succ (Zpos (digits2_pos p)) - 1) with (Z.succ (Zpos (digits2_pos p) - 1)) by lia.
    rewrite !Z.pow_succ_r by lia. lia.
  - rewrite Pos2Z.inj_succ.
    replace (Z.succ (Zpos (digits2_pos p)) - 1) with (Z.succ (Zpos (digits2_pos p) - 1)) by lia.
    rewrite !Z.pow_succ_r by lia. lia.
  - cbn. lia.
Qed.

Lemma Zdigits2_nonneg (m : Z) : 0 <= Zdigits2 m.
Proof. destruct m; cbn; lia. Qed.

Lemma Zdigits2_spec (m : Z) : 0 < m -> 2 ^ (Zdigits2 m - 1) <= m < 2 ^ Zdigits2 m.
Proof. destruct m; try lia. intros _. apply digits2_pos_spec. Qed.

Lemma Zdigits2_upper (m : Z) : 0 <= m -> m + 1 <= 2 ^ Zdigits2 m.
Proof.
  intros H. destruct (Z.eq_dec m 0) as [->|Hn]; [cbn; lia|].
  pose proof (Zdigits2_spec m). lia.
Qed.

Lemma Zdigits2_le (m k : Z) : 0 <= k -> 0 <= m < 2 ^ k -> Zdigits2 m <= k.
Proof.
  intros Hk [H0 Hm]. destruct (Z.eq_dec m 0) as [->|Hn]; [cbn; lia|].
  destruct (Zdigits2_spec m) as [Hlo _]; [lia|].
  destruct (Z_le_gt_dec (Zdigits2 m) k) as [|Hgt]; [assumption|exfalso].
  assert (2 ^ k <= 2 ^ (Zdigits2 m - 1)) by (apply Z.pow_le_mono_r; lia).
  lia.
Qed.

Lemma Zdigits2_ge (m k : Z) : 2 ^ (k - 1) <= m -> 0 < m -> k <= Zdigits2 m.
Proof.
  intros Hm Hpos. destruct (Zdigits2_spec m Hpos) as [_ Hhi].
  destruct (Z_le_gt_dec k (Zdigits2 m)) as [|Hgt]; [assumption|exfalso].
  assert (2 ^ Zdigits2 m <= 2 ^ (k - 1)).
  { apply Z.pow_le_mono_r; [lia|]. lia. }
  lia.
Qed.

(** *** Shifting a mantissa right *)

Lemma loc_inv_compat (r s : bool) (f g : Q) : (f == g)%Q -> loc_inv r s f -> loc_inv r s g.
Proof. intros E. destruct r, s; cbn; rewrite E; auto. Qed.

Lemma rec_inv_compat (mrs : shr_record) (x y : Q) : (x == y)%Q -> rec_inv mrs x -> rec_inv mrs y.
Proof.
  intros E [H0 H]. split; [assumption|].
  apply loc_inv_compat with (f := (x - inject_Z (shr_m mrs))%Q); [|assumption].
  now rewrite E.
Qed.

Lemma rec_inv_floor (mrs : shr_record) (x : Q) :
  rec_inv mrs x -> (inject_Z (shr_m mrs) <= x /\ x < inject_Z (shr_m mrs) + 1)%Q.
Proof.
  intros [_ H]. destruct (shr_r mrs), (shr_s mrs); cbn in H; lra.
Qed.

Lemma inject_Z_xO (p : positive) : (inject_Z (Zpos p~0) == 2 * inject_Z (Zpos p))%Q.
Proof. change (Zpos p~0) with (2 * Zpos p). now rewrite inject_Z_mult. Qed.

Lemma inject_Z_xI (p : positive) : (inject_Z (Zpos p~1) == 2 * inject_Z (Zpos p) + 1)%Q.
Proof. change (Zpos p~1) with (2 * Zpos p + 1). now rewrite inject_Z_plus, inject_Z_mult. Qed.

Lemma shr_1_inv (mrs : shr_record) (x : Q) :
  rec_inv mrs x -> rec_inv (shr_1 mrs) (x * (1 # 2))%Q.
Proof.
  destruct mrs as [m r s]. unfold rec_inv. cbn [shr_m shr_r shr_s].
  intros [H0 H].
  destruct m as [|p|p]; [| |lia].
  - cbn [shr_1 shr_m shr_r shr_s]. split; [lia|].
    change (inject_Z 0) with 0%Q in *.
    destruct r, s; cbn in *; lra.
  - destruct p as [p|p|]; cbn [shr_1 shr_m shr_r shr_s]; (split; [lia|]).
    + pose proof (inject_Z_xI p). destruct r, s; cbn in *; lra.
    + pose proof (inject_Z_xO p). destruct r, s; cbn in *; lra.
    + change (inject_Z 1) with 1%Q in H. change (inject_Z 0) with 0%Q.
      destruct r, s; cbn in *; lra.
Qed.

Lemma iter_shr_inv (p : positive) :
  forall (mrs : shr_record) (x : Q),
  rec_inv mrs x -> rec_inv (iter_pos shr_1 p mrs) (x * pow2 (- Zpos p))%Q.
Proof.
  assert (pow2 (-1) == 1 # 2)%Q as Hhalf by reflexivity.
  induction p as [p IH|p IH|]; intros mrs x H; cbn [iter_pos].
  - apply rec_inv_compat with (x := (x * (1 # 2) * pow2 (- Zpos p) * pow2 (- Zpos p))%Q).
    + replace (- Zpos p~1) with (-1 + (- Zpos p + - Zpos p)) by lia.
      rewrite !pow2_add, Hhalf. ring.
    + apply IH, IH. now apply shr_1_inv.
  - apply rec_inv_compat with (x := (x * pow2 (- Zpos p) * pow2 (- Zpos p))%Q).
    + replace (- Zpos p~0) with (- Zpos p + - Zpos p) by lia.
      rewrite !pow2_add. ring.
    + now apply IH, IH.
  - apply rec_inv_compat with (x := (x * (1 # 2))%Q).
    + now rewrite <- Hhalf.
    + now apply shr_1_inv.
Qed.

Lemma shr_inv (mrs : shr_record) (e n : Z) (x : Q) :
  0 <= n ->
  rec_inv mrs x ->
  rec_inv (fst (shr mrs e n)) (x * pow2 (- n))%Q /\ snd (shr mrs e n) = e + n.
Proof.
  intros Hn H. destruct n as [|p|p]; [| |lia]; cbn [shr fst snd].
  - split; [|lia]. apply rec_inv_compat with (x := x); [|assumption].
    change (pow2 (-0)) with 1%Q. ring.
  - split; [|reflexivity]. now apply iter_shr_inv.
Qed.

Lemma shr_nop (mrs : shr_record) (e n : Z) : n <= 0 -> shr mrs e n = (mrs, e).
Proof. destruct n; [reflexivity|lia|reflexivity]. Qed.

Lemma round_nearest_even_inv (mrs : shr_record) (x : Q) :
  rec_inv mrs x ->
  let m1 := round_nearest_even (shr_m mrs) (loc_of_shr_record mrs) in
  (Qabs (inject_Z m1 - x) <= 1 # 2)%Q /\ shr_m mrs <= m1 <= shr_m mrs + 1 /\
  (loc_of_shr_record mrs = loc_Exact -> (inject_Z m1 == x)%Q).
Proof.
  destruct mrs as [m r s]. unfold rec_inv. cbn [shr_m shr_r shr_s].
  intros [H0 H].
  destruct r, s; cbn [loc_of_shr_record round_nearest_even loc_inv] in *.
  - rewrite inject_Z_plus. change (inject_Z 1) with 1%Q.
    split; [|split; [lia|discriminate]]. apply Qabs_Qle_condition. lra.
  - destruct (Z.even m);
      [|rewrite inject_Z_plus; change (inject_Z 1) with 1%Q];
      (split; [|split; [lia|discriminate]]); apply Qabs_Qle_condition; lra.
  - split; [|split; [lia|discriminate]]. apply Qabs_Qle_condition. lra.
  - split; [|split; [lia|intros _; lra]]. apply Qabs_Qle_condition. lra.
Qed.

(** *** Rounding to nearest even *)
Lemma fexp_eq (e : Z) : fexp prec emax e = Z.max (e - 53) (-1074).
Proof. reflexivity. Qed.

Lemma shr_m_of_loc (m : Z) (l : location) : shr_m (shr_record_of_loc m l) = m.
Proof. destruct l as [|[| |]]; reflexivity. Qed.

Lemma rec_inv_exact (m : Z) : 0 <= m -> rec_inv (shr_record_of_loc m loc_Exact) (inject_Z m).
Proof. intros H. split; [assumption|]. cbn. ring. Qed.

Lemma scale_abs (a b p h : Q) :
  (0 < p)%Q -> (Qabs (a - b) <= h)%Q -> (Qabs (a * p - b * p) <= h * p)%Q.
Proof.
  intros Hp H. apply Qabs_Qle_condition in H. apply Qabs_Qle_condition.
  split; nra.
Qed.

Lemma round_aux (sx : bool) (m0 e0 : Z) (l : location) (x0 : Q) :
  rec_inv (shr_record_of_loc m0 l) x0 ->
  e0 <= fexp prec emax (Zdigits2 m0 + e0) ->
  match binary_round_aux prec emax sx m0 e0 l with
  | S754_zero s =>
      s = sx /\ (x0 * pow2 e0 <= pow2 (-1075))%Q /\
      (e0 = fexp prec emax (Zdigits2 m0 + e0) -> l = loc_Exact -> (x0 == 0)%Q)
  | S754_finite s m e =>
      s = sx /\
      (Qabs (inject_Z (Zpos m) * pow2 e - x0 * pow2 e0) <= pow2 (e - 1))%Q /\
      bounded prec emax m e = true /\
      (2 ^ 52 <= Zpos m \/ e = -1074) /\
      fexp prec emax (Zdigits2 m0 + e0) <= e /\
      (e0 = fexp prec emax (Zdigits2 m0 + e0) -> l = loc_Exact ->
       (inject_Z (Zpos m) * pow2 e == x0 * pow2 e0)%Q)
  | S754_infinity s => s = sx /\ (pow2 1023 <= x0 * pow2 e0)%Q
  | S754_nan => False
  end.
Proof.
  intros Hrec Hn.
  assert (0 <= m0) as Hm0 by (destruct Hrec as [H _]; now rewrite shr_m_of_loc in H).
  pose proof (rec_inv_floor _ _ Hrec) as [Hx0lo Hx0hi]. rewrite shr_m_of_loc in Hx0lo, Hx0hi.
  unfold binary_round_aux, shr_fexp.
  set (d0 := Zdigits2 m0) in *.
  set (fe := fexp prec emax (d0 + e0)) in *.
  assert (fe = Z.max (d0 + e0 - 53) (-1074)) as Hfe by apply fexp_eq.
  assert (0 <= fe - e0) as Hn' by lia.
  destruct (shr_inv (shr_record_of_loc m0 l) e0 (fe - e0) x0 Hn' Hrec) as [Hrec' He'].
  assert (e0 = fe -> l = loc_Exact ->
          loc_of_shr_record (fst (shr (shr_record_of_loc m0 l) e0 (fe - e0))) = loc_Exact)
    as Hsame.
  { intros E ->. replace (fe - e0) with 0 by lia. reflexivity. }
  destruct (shr (shr_record_of_loc m0 l) e0 (fe - e0)) as [mrs' e'].
  cbn [fst snd] in Hrec', He', Hsame. replace (e0 + (fe - e0)) with fe in He' by lia. subst e'.
  set (x' := (x0 * pow2 (- (fe - e0)))%Q) in *.
  assert (x0 * pow2 e0 == x' * pow2 fe)%Q as Hv.
  { unfold x'. rewrite <- Qmult_assoc, <- pow2_add.
    now replace (- (fe - e0) + fe) with e0 by lia. }
  pose proof (rec_inv_floor _ _ Hrec') as [Hlo Hhi].
  assert (x' < pow2 53)%Q as Hup.
  { assert (x0 < pow2 d0)%Q as Hx0.
    { rewrite pow2_Z by apply Zdigits2_nonneg.
      apply Qlt_le_trans with (inject_Z m0 + 1)%Q; [assumption|].
      change 1%Q with (inject_Z 1). rewrite <- inject_Z_plus. rewrite <- Zle_Qle.
      now apply Zdigits2_upper. }
    apply Qlt_le_trans with (pow2 d0 * pow2 (- (fe - e0)))%Q.
    - unfold x'. apply Qmult_lt_compat_r; [apply pow2_pos|assumption].
    - rewrite <- pow2_add. apply pow2_le. lia. }
  assert (fe = -1074 \/ (pow2 52 <= x')%Q) as Hnorm.
  { destruct (Z_le_gt_dec (d0 + e0 - 53) (-1074)) as [Hsub|Hnor]; [left; lia|right].
    assert (fe = d0 + e0 - 53) as Hfe' by lia.
    assert (0 < m0) as Hpos.
    { destruct (Z.eq_dec m0 0) as [E|E]; [|lia]. exfalso.
      unfold d0 in Hfe'. rewrite E in Hfe'. cbn [Zdigits2] in Hfe'. lia. }
    destruct (Zdigits2_spec m0 Hpos) as [Hd _]. fold d0 in Hd.
    apply Qle_trans with (pow2 (d0 - 1) * pow2 (- (fe - e0)))%Q.
    - rewrite <- pow2_add. apply pow2_le. lia.
    - unfold x'. apply Qmult_le_compat_r; [|apply Qlt_le_weak, pow2_pos].
      apply Qle_trans with (inject_Z m0); [|assumption].
      rewrite pow2_Z by lia. now rewrite <- Zle_Qle. }
  destruct (round_nearest_even_inv mrs' x' Hrec') as (Herr & Hm1 & Hexact).
  set (m1 := round_nearest_even (shr_m mrs') (loc_of_shr_record mrs')) in *.
  assert (0 <= shr_m mrs') as Hm' by apply Hrec'.
  assert (shr_m mrs' < 2 ^ 53) as Hm'up.
  { apply inject_Z_lt_inv. rewrite <- pow2_Z by lia.
    apply Qle_lt_trans with x'; assumption. }
  assert (fe = -1074 \/ 2 ^ 52 <= shr_m mrs') as Hnorm'.
  { destruct Hnorm as [H|H]; [now left|right].
    assert (2 ^ 52 < shr_m mrs' + 1); [|lia].
    apply inject_Z_lt_inv. rewrite inject_Z_plus. rewrite <- pow2_Z by lia.
    change (inject_Z 1) with 1%Q. lra. }
  assert (Qabs (inject_Z m1 * pow2 fe - x0 * pow2 e0) <= pow2 (fe - 1))%Q as Hfin.
  { rewrite Hv, pow2_pred. apply scale_abs; [apply pow2_pos|assumption]. }
  assert (e0 = fe -> l = loc_Exact -> (inject_Z m1 * pow2 fe == x0 * pow2 e0)%Q) as Hex.
  { intros E El. rewrite Hv. now rewrite (Hexact (Hsame E El)). }
  destruct (Z.eq_dec m1 (2 ^ 53)) as [Htop|Hlow].
  - (* the mantissa was rounded up to 2^53 *)
    rewrite Htop in *.
    change (Zdigits2 (2 ^ 53)) with 54.
    replace (fexp prec emax (54 + fe) - fe) with 1 by (rewrite fexp_eq; lia).
    cbn [shr shr_record_of_loc iter_pos shr_1 shr_m Z.pow Z.pow_pos Pos.iter Z.mul Pos.mul].
    assert (inject_Z (Zpos 4503599627370496) * pow2 (fe + 1) == inject_Z (2 ^ 53) * pow2 fe)%Q
      as Etop.
    { rewrite pow2_succ.
      change (inject_Z (2 ^ 53)) with (2 * inject_Z (Zpos 4503599627370496))%Q. ring. }
    destruct (Z.leb_spec (fe + 1) (emax - prec)) as [Hle|Hgt].
    + split; [reflexivity|]. split; [|split; [|split; [|split]]].
      * replace (fe + 1 - 1) with fe by lia.
        apply Qle_trans with (pow2 (fe - 1)); [|apply pow2_le; lia].
        now rewrite Etop.
      * unfold bounded, canonical_mantissa.
        change (Zpos (digits2_pos 4503599627370496)) with 53.
        rewrite fexp_eq. apply andb_true_intro. split; [apply Z.eqb_eq|apply Z.leb_le]; lia.
      * left. cbn. lia.
      * lia.
      * intros E El. rewrite Etop. now apply Hex.
    + split; [reflexivity|].
      unfold emax, prec in Hgt.
      apply Qabs_Qle_condition in Hfin.
      assert (inject_Z (2 ^ 53) * pow2 fe == pow2 (fe + 53))%Q as E1.
      { rewrite <- pow2_Z by lia. rewrite <- pow2_add. now rewrite Z.add_comm. }
      assert (pow2 (fe + 53) == 2 * pow2 (fe + 52))%Q as E2.
      { rewrite <- pow2_succ. now replace (fe + 52 + 1) with (fe + 53) by lia. }
      assert (pow2 (fe - 1) <= pow2 (fe + 52))%Q by (apply pow2_le; lia).
      assert (pow2 1023 <= pow2 (fe + 52))%Q by (apply pow2_le; lia).
      lra.
  - assert (m1 < 2 ^ 53) as Hm1up by lia.
    assert (0 <= m1) as Hm1pos by lia.
    assert (Zdigits2 m1 <= 53) as Hd1 by (apply Zdigits2_le; lia).
    rewrite shr_nop by (rewrite fexp_eq; lia).
    rewrite shr_m_of_loc.
    destruct m1 as [|m|m] eqn:Em1; [| |lia].
    + split; [reflexivity|].
      destruct Hnorm' as [E|H]; [|lia].
      split.
      * rewrite Hv. rewrite E in *.
        apply Qabs_Qle_condition in Herr. change (inject_Z 0) with 0%Q in Herr.
        change (pow2 (-1075)) with ((1 # 2) * pow2 (-1074))%Q.
        pose proof (pow2_pos (-1074)). nra.
      * intros E0 El. specialize (Hex E0 El).
        change (inject_Z 0) with 0%Q in Hex.
        pose proof (pow2_pos e0). 
        assert (x0 * pow2 e0 == 0)%Q as Hz by lra.
        apply Qmult_integral in Hz. destruct Hz as [Hz|Hz]; [assumption|lra].
    + destruct (Z.leb_spec fe (emax - prec)) as [Hle|Hgt].
      * split; [reflexivity|]. split; [assumption|]. split; [|split; [|split]].
        -- unfold bounded, canonical_mantissa.
           apply andb_true_intro. split; [apply Z.eqb_eq|now apply Z.leb_le].
           rewrite fexp_eq. change (Zpos (digits2_pos m)) with (Zdigits2 (Zpos m)).
           destruct Hnorm' as [E|H]; [lia|].
           assert (53 <= Zdigits2 (Zpos m)) by (apply Zdigits2_ge; lia).
           lia.
        -- destruct Hnorm' as [E|H]; [now right|left; lia].
        -- lia.
        -- assumption.
      * split; [reflexivity|].
        unfold emax, prec in Hgt.
        destruct Hnorm as [E|H]; [lia|].
        rewrite Hv.
        apply Qle_trans with (pow2 52 * pow2 fe)%Q.
        -- rewrite <- pow2_add. apply pow2_le. lia.
        -- apply Qmult_le_compat_r; [assumption|apply Qlt_le_weak, pow2_pos].
Qed.

Lemma bounded_inv (m : positive) (e : Z) :
  bounded prec emax m e = true ->
  Zdigits2 (Zpos m) <= 53 /\ -1074 <= e <= 971 /\ (Zdigits2 (Zpos m) = 53 \/ e = -1074).
Proof.
  unfold bounded, canonical_mantissa. intros H.
  apply andb_prop in H. destruct H as [Hc He].
  apply Z.eqb_eq in Hc. apply Z.leb_le in He. rewrite fexp_eq in Hc.
  unfold emax, prec in He. cbn [Zdigits2]. lia.
Qed.

Lemma signed_abs (s : bool) (v : Q) : (Qabs (signed s v) == Qabs v)%Q.
Proof. destruct s; cbn; [apply Qabs_opp|reflexivity]. Qed.

Lemma signed_sub (s : bool) (a b : Q) : (signed s a - signed s b == signed s (a - b))%Q.
Proof. destruct s; cbn; ring. Qed.

Lemma mantissa_pos (m : positive) (e : Z) : (0 < inject_Z (Zpos m) * pow2 e)%Q.
Proof.
  apply Qmult_lt_0_compat; [|apply pow2_pos].
  change 0%Q with (inject_Z 0). now rewrite <- Zlt_Qlt.
Qed.

Lemma round_aux_rounded (sx : bool) (m0 e0 : Z) (l : location) (x0 : Q) :
  rec_inv (shr_record_of_loc m0 l) x0 ->
  e0 <= fexp prec emax (Zdigits2 m0 + e0) ->
  rounded (signed sx (x0 * pow2 e0)) (binary_round_aux prec emax sx m0 e0 l).
Proof.
  intros Hrec Hn.
  assert (0 <= x0)%Q as Hx0.
  { destruct (rec_inv_floor _ _ Hrec) as [Hlo _]. rewrite shr_m_of_loc in Hlo.
    destruct Hrec as [Hm _]. rewrite shr_m_of_loc in Hm.
    apply Qle_trans with (inject_Z m0); [|assumption].
    change 0%Q with (inject_Z 0). now rewrite <- Zle_Qle. }
  assert (0 <= x0 * pow2 e0)%Q as Hv.
  { apply Qmult_le_0_compat; [assumption|apply Qlt_le_weak, pow2_pos]. }
  pose proof (round_aux sx m0 e0 l x0 Hrec Hn) as H.
  destruct (binary_round_aux prec emax sx m0 e0 l) as [s|s| |s m e]; cbn [rounded].
  - destruct H as (_ & H & _). rewrite signed_abs, Qabs_pos; assumption.
  - destruct H as (_ & H). rewrite signed_abs, Qabs_pos; assumption.
  - assumption.
  - destruct H as (-> & Herr & Hb & Hnorm & _).
    repeat split; try assumption.
    cbn [b64_value]. now rewrite signed_sub, signed_abs.
Qed.

Lemma rounded_error (v : Q) (z : binary64) :
  rounded v z ->
  finite z = true ->
  (Qabs (b64_value z - v) <= pow2 (-53) * Qabs (b64_value z) + pow2 (-1075))%Q.
Proof.
  destruct z as [s|s| |s m e]; cbn [rounded finite]; try discriminate; intros H _.
  - cbn [b64_value]. setoid_replace (0 - v)%Q with (- v)%Q by ring.
    rewrite Qabs_opp. change (Qabs 0) with 0%Q. lra.
  - destruct H as (Hb & Herr & [Hnorm|Hsub]).
    + apply Qle_trans with (pow2 (e - 1)); [assumption|].
      pose proof (pow2_pos (-1075)).
      assert (pow2 (e - 1) <= pow2 (-53) * Qabs (b64_value (S754_finite s m e)))%Q; [|lra].
      cbn [b64_value]. rewrite signed_abs, Qabs_pos by apply Qlt_le_weak, mantissa_pos.
      apply Qle_trans with (pow2 (-53) * (pow2 52 * pow2 e))%Q.
      * rewrite <- !pow2_add. apply pow2_le. lia.
      * apply Qmult_le_l; [apply pow2_pos|].
        apply Qmult_le_compat_r; [|apply Qlt_le_weak, pow2_pos].
        rewrite pow2_Z by lia. now rewrite <- Zle_Qle.
    + subst e. change (pow2 (-1074 - 1)) with (pow2 (-1075)) in Herr.
      assert (0 <= pow2 (-53) * Qabs (b64_value (S754_finite s m (-1074))))%Q; [|lra].
      apply Qmult_le_0_compat; [apply Qlt_le_weak, pow2_pos|apply Qabs_nonneg].
Qed.

Lemma rounded_sum_error (v : Q) (z : binary64) :
  rounded_sum v z ->
  finite z = true ->
  (Qabs (b64_value z - v) <= pow2 (-53) * Qabs (b64_value z))%Q.
Proof.
  destruct z as [s|s| |s m e]; cbn [rounded_sum finite]; try discriminate; intros H _.
  - cbn [b64_value]. rewrite H. change (Qabs (0 - 0)) with 0%Q. change (Qabs 0) with 0%Q. lra.
  - destruct H as (Hb & Herr & [Hnorm|Hex]).
    + apply Qle_trans with (pow2 (e - 1)); [assumption|].
      cbn [b64_value]. rewrite signed_abs, Qabs_pos by apply Qlt_le_weak, mantissa_pos.
      apply Qle_trans with (pow2 (-53) * (pow2 52 * pow2 e))%Q.
      * rewrite <- !pow2_add. apply pow2_le. lia.
      * apply Qmult_le_l; [apply pow2_pos|].
        apply Qmult_le_compat_r; [|apply Qlt_le_weak, pow2_pos].
        rewrite pow2_Z by lia. now rewrite <- Zle_Qle.
    + rewrite Hex. setoid_replace (v - v)%Q with 0%Q by ring. change (Qabs 0) with 0%Q.
      apply Qmult_le_0_compat; [apply Qlt_le_weak, pow2_pos|apply Qabs_nonneg].
Qed.

(** *** Multiplication *)
Lemma signed_mul (s1 s2 : bool) (a b : Q) :
  (signed s1 a * signed s2 b == signed (xorb s1 s2) (a * b))%Q.
Proof. destruct s1, s2; cbn; ring. Qed.

Lemma rounded_compat (v w : Q) (z : binary64) : (v == w)%Q -> rounded v z -> rounded w z.
Proof. intros E. destruct z; cbn [rounded b64_value]; try rewrite <- E; auto. Qed.

Lemma rounded_sum_compat (v w : Q) (z : binary64) :
  (v == w)%Q -> rounded_sum v z -> rounded_sum w z.
Proof. intros E. destruct z; cbn [rounded_sum b64_value]; try rewrite <- E; auto. Qed.

Lemma rounded_zero (v : Q) (s : bool) : (v == 0)%Q -> rounded v (S754_zero s).
Proof.
  intros E. cbn [rounded]. rewrite E. change (Qabs 0) with 0%Q.
  apply Qlt_le_weak, pow2_pos.
Qed.

Lemma digits_mul (mx my : positive) :
  Zdigits2 (Zpos mx) + Zdigits2 (Zpos my) - 1 <= Zdigits2 (Zpos (mx * my)).
Proof.
  apply Zdigits2_ge; [|lia].
  destruct (Zdigits2_spec (Zpos mx)) as [Hmx _]; [lia|].
  destruct (Zdigits2_spec (Zpos my)) as [Hmy _]; [lia|].
  assert (0 < Zdigits2 (Zpos mx)) by (cbn; lia).
  assert (0 < Zdigits2 (Zpos my)) by (cbn; lia).
  replace (Zdigits2 (Zpos mx) + Zdigits2 (Zpos my) - 1 - 1)
    with ((Zdigits2 (Zpos mx) - 1) + (Zdigits2 (Zpos my) - 1)) by lia.
  rewrite Z.pow_add_r by lia. rewrite Pos2Z.inj_mul.
  apply Z.mul_le_mono_nonneg; lia.
Qed.

Lemma mul_rounded (x y : binary64) :
  valid x = true -> valid y = true -> finite x = true -> finite y = true ->
  rounded (b64_value x * b64_value y) (SFmul prec emax x y).
Proof.
  destruct x as [sx|sx| |sx mx ex], y as [sy|sy| |sy my ey];
    cbn [finite valid valid_binary]; try discriminate; intros Hx Hy _ _;
    cbn [SFmul b64_value]; try (apply rounded_zero; ring).
  apply rounded_compat
    with (v := signed (xorb sx sy) (inject_Z (Zpos (mx * my)) * pow2 (ex + ey))).
  - rewrite signed_mul.
    destruct (xorb sx sy); cbn [signed]; rewrite Pos2Z.inj_mul, inject_Z_mult, pow2_add; ring.
  - apply round_aux_rounded; [apply rec_inv_exact; lia|].
    destruct (bounded_inv mx ex Hx) as (Hdx & Hex & Hnx).
    destruct (bounded_inv my ey Hy) as (Hdy & Hey & Hny).
    pose proof (digits_mul mx my).
    assert (0 < Zdigits2 (Zpos mx)) by (cbn; lia).
    assert (0 < Zdigits2 (Zpos my)) by (cbn; lia).
    rewrite fexp_eq. lia.
Qed.

(** *** Addition and subtraction *)
Lemma iter_xO (d m : positive) : Zpos (Pos.iter xO m d) = Zpos m * 2 ^ Zpos d.
Proof.
  induction d as [|d IH] using Pos.peano_ind.
  - cbn. lia.
  - rewrite Pos.iter_succ, Pos2Z.inj_succ, Z.pow_succ_r by lia.
    rewrite Pos2Z.inj_xO, IH. lia.
Qed.

Lemma shl_align_spec (mx : positive) (ex e' : Z) :
  snd (shl_align mx ex e') = Z.min ex e' /\
  Zpos (fst (shl_align mx ex e')) = Zpos mx * 2 ^ (ex - Z.min ex e').
Proof.
  unfold shl_align. destruct (e' - ex) as [|d|d] eqn:E; cbn [fst snd].
  - replace (Z.min ex e') with ex by lia. rewrite Z.sub_diag. cbn. lia.
  - replace (Z.min ex e') with ex by lia. rewrite Z.sub_diag. cbn. lia.
  - replace (Z.min ex e') with e' by lia. split; [reflexivity|].
    rewrite iter_xO. f_equal. f_equal. lia.
Qed.

Lemma digits_shift (m : positive) (k : Z) :
  0 <= k -> Zdigits2 (Zpos m * 2 ^ k) = Zdigits2 (Zpos m) + k.
Proof.
  intros Hk.
  destruct (Zdigits2_spec (Zpos m)) as [Hlo Hhi]; [lia|].
  assert (0 < Zdigits2 (Zpos m)) by (cbn; lia).
  assert (0 < 2 ^ k) by (apply Z.pow_pos_nonneg; lia).
  apply Z.le_antisymm.
  - apply Zdigits2_le; [lia|]. split; [lia|].
    rewrite Z.pow_add_r by lia. apply Z.mul_lt_mono_pos_r; lia.
  - apply Zdigits2_ge; [|lia].
    replace (Zdigits2 (Zpos m) + k - 1) with ((Zdigits2 (Zpos m) - 1) + k) by lia.
    rewrite Z.pow_add_r by lia. apply Z.mul_le_mono_nonneg_r; lia.
Qed.

Lemma shift_value (m : positive) (e e' : Z) :
  e' <= e -> (inject_Z (Zpos m * 2 ^ (e - e')) * pow2 e' == inject_Z (Zpos m) * pow2 e)%Q.
Proof.
  intros H. rewrite inject_Z_mult, <- pow2_Z by lia.
  rewrite <- Qmult_assoc, <- pow2_add. now replace (e - e' + e') with e by lia.
Qed.

Lemma binary_round_correct (sx : bool) (m : positive) (e : Z) :
  -1074 <= e ->
  rounded_sum (signed sx (inject_Z (Zpos m) * pow2 e)) (binary_round prec emax sx m e).
Proof.
  intros He. unfold binary_round.
  set (fe := fexp prec emax (Zpos (digits2_pos m) + e)).
  assert (fe = Z.max (Zdigits2 (Zpos m) + e - 53) (-1074)) as Hfe by apply fexp_eq.
  destruct (shl_align_spec m e fe) as [Hez Hmz].
  destruct (shl_align m e fe) as [mz ez]. cbn [fst snd] in Hez, Hmz.
  assert (inject_Z (Zpos mz) * pow2 ez == inject_Z (Zpos m) * pow2 e)%Q as Hv.
  { rewrite Hmz, Hez. apply shift_value. lia. }
  assert (Zdigits2 (Zpos mz) + ez = Zdigits2 (Zpos m) + e) as Hd.
  { rewrite Hmz, digits_shift by lia. lia. }
  assert (fexp prec emax (Zdigits2 (Zpos mz) + ez) = fe) as Hfe'.
  { rewrite Hd. reflexivity. }
  assert (ez <= fe) as Hn by lia.
  pose proof (round_aux sx (Zpos mz) ez loc_Exact (inject_Z (Zpos mz))
                (rec_inv_exact (Zpos mz) (Pos2Z.is_nonneg mz)) ltac:(rewrite Hfe'; exact Hn)) as H.
  rewrite Hfe' in H.
  assert (0 < inject_Z (Zpos mz))%Q as Hpos.
  { change 0%Q with (inject_Z 0). rewrite <- Zlt_Qlt. lia. }
  destruct (binary_round_aux prec emax sx (Zpos mz) ez loc_Exact) as [s|s| |s m' e'];
    cbn [rounded_sum].
  - exfalso. destruct H as (_ & Hsmall & Hex).
    destruct (Z.eq_dec ez fe) as [E|E].
    + specialize (Hex E eq_refl). lra.
    + assert (ez = e) as -> by lia.
      assert (pow2 (-1075) < pow2 e)%Q by (apply pow2_lt; lia).
      assert (1 <= inject_Z (Zpos mz))%Q.
      { change 1%Q with (inject_Z 1). rewrite <- Zle_Qle. lia. }
      pose proof (pow2_pos e). nra.
  - destruct H as (_ & H). rewrite signed_abs, <- Hv.
    rewrite Qabs_pos; [assumption|]. apply Qlt_le_weak, mantissa_pos.
  - assumption.
  - destruct H as (-> & Herr & Hb & Hnorm & Hlow & Hex).
    split; [assumption|]. split.
    + cbn [b64_value]. rewrite signed_sub, signed_abs. now rewrite <- Hv.
    + destruct Hnorm as [Hnorm|Hsub]; [now left|right].
      cbn [b64_value]. assert (ez = fe) as E by lia.
      specialize (Hex E eq_refl).
      destruct sx; cbn [signed]; rewrite Hex, Hv; reflexivity.
Qed.

Lemma normalize_correct (M e : Z) :
  -1074 <= e ->
  rounded_sum (inject_Z M * pow2 e) (binary_normalize prec emax M e false).
Proof.
  intros He. destruct M as [|m|m]; cbn [binary_normalize].
  - cbn [rounded_sum]. change (inject_Z 0) with 0%Q. ring.
  - now apply (binary_round_correct false m e).
  - apply rounded_sum_compat with (v := signed true (inject_Z (Zpos m) * pow2 e)).
    + cbn [signed]. change (Zneg m) with (- Zpos m). rewrite inject_Z_opp. ring.
    + now apply binary_round_correct.
Qed.

Lemma aligned_value (s : bool) (m : positive) (e ez : Z) :
  ez <= e ->
  (inject_Z (cond_Zopp s (Zpos (fst (shl_align m e ez)))) * pow2 ez ==
   signed s (inject_Z (Zpos m) * pow2 e))%Q.
Proof.
  intros H. destruct (shl_align_spec m e ez) as [_ Hm]. rewrite Hm.
  replace (Z.min e ez) with ez by lia.
  destruct s; cbn [cond_Zopp signed].
  - rewrite inject_Z_opp. rewrite <- (shift_value m e ez H). ring.
  - now apply shift_value.
Qed.

Lemma add_rounded (x y : binary64) :
  valid x = true -> valid y = true -> finite x = true -> finite y = true ->
  rounded_sum (b64_value x + b64_value y) (SFadd prec emax x y).
Proof.
  destruct x as [sx|sx| |sx mx ex], y as [sy|sy| |sy my ey];
    cbn [finite valid valid_binary]; try discriminate; intros Hx Hy _ _;
    cbn [SFadd b64_value].
  - destruct sx, sy; cbn [rounded_sum]; ring.
  - cbn [rounded_sum b64_value]. split; [assumption|]. split.
    + setoid_replace (signed sy (inject_Z (Zpos my) * pow2 ey) -
                      (0 + signed sy (inject_Z (Zpos my) * pow2 ey)))%Q with 0%Q by ring.
      change (Qabs 0) with 0%Q. apply Qlt_le_weak, pow2_pos.
    + right. ring.
  - cbn [rounded_sum b64_value]. split; [assumption|]. split.
    + setoid_replace (signed sx (inject_Z (Zpos mx) * pow2 ex) -
                      (signed sx (inject_Z (Zpos mx) * pow2 ex) + 0))%Q with 0%Q by ring.
      change (Qabs 0) with 0%Q. apply Qlt_le_weak, pow2_pos.
    + right. ring.
  - destruct (bounded_inv mx ex Hx) as (_ & Hex & _).
    destruct (bounded_inv my ey Hy) as (_ & Hey & _).
    eapply rounded_sum_compat; [|apply normalize_correct; lia].
    rewrite inject_Z_plus, Qmult_plus_distr_l.
    rewrite !aligned_value by lia. reflexivity.
Qed.

Lemma sub_rounded (x y : binary64) :
  valid x = true -> valid y = true -> finite x = true -> finite y = true ->
  rounded_sum (b64_value x - b64_value y) (SFsub prec emax x y).
Proof.
  destruct x as [sx|sx| |sx mx ex], y as [sy|sy| |sy my ey];
    cbn [finite valid valid_binary]; try discriminate; intros Hx Hy _ _;
    cbn [SFsub b64_value].
  - destruct sx, sy; cbn [rounded_sum]; ring.
  - cbn [rounded_sum b64_value]. split; [assumption|]. split.
    + setoid_replace (signed (negb sy) (inject_Z (Zpos my) * pow2 ey) -
                      (0 - signed sy (inject_Z (Zpos my) * pow2 ey)))%Q with 0%Q
        by (destruct sy; cbn; ring).
      change (Qabs 0) with 0%Q. apply Qlt_le_weak, pow2_pos.
    + right. destruct sy; cbn; ring.
  - cbn [rounded_sum b64_value]. split; [assumption|]. split.
    + setoid_replace (signed sx (inject_Z (Zpos mx) * pow2 ex) -
                      (signed sx (inject_Z (Zpos mx) * pow2 ex) - 0))%Q with 0%Q by ring.
      change (Qabs 0) with 0%Q. apply Qlt_le_weak, pow2_pos.
    + right. ring.
  - destruct (bounded_inv mx ex Hx) as (_ & Hex & _).
    destruct (bounded_inv my ey Hy) as (_ & Hey & _).
    eapply rounded_sum_compat; [|apply normalize_correct; lia].
    rewrite <- Z.add_opp_r, inject_Z_plus, inject_Z_opp. unfold Qminus. rewrite Qmult_plus_distr_l.
    setoid_replace (- inject_Z (cond_Zopp sy (Zpos (fst (shl_align my ey (Z.min ex ey))))) *
                    pow2 (Z.min ex ey))%Q
      with (- (inject_Z (cond_Zopp sy (Zpos (fst (shl_align my ey (Z.min ex ey))))) *
               pow2 (Z.min ex ey)))%Q by ring.
    rewrite !aligned_value by lia. reflexivity.
Qed.

(** *** Division *)
Lemma new_location_inv (my r : Z) :
  0 <= r < my ->
  loc_inv (shr_r (shr_record_of_loc 0 (new_location my r)))
          (shr_s (shr_record_of_loc 0 (new_location my r)))
          (inject_Z r / inject_Z my)%Q.
Proof.
  intros [Hr0 Hr].
  assert (0 < inject_Z my)%Q as Hmy.
  { change 0%Q with (inject_Z 0). rewrite <- Zlt_Qlt. lia. }
  assert (forall a : Z, (a < my)%Z -> (inject_Z a / inject_Z my < 1)%Q) as Hlt1.
  { intros a Ha. apply Qlt_shift_div_r; [assumption|]. rewrite Qmult_1_l. now rewrite <- Zlt_Qlt. }
  assert ((0 < r)%Z -> 0 < inject_Z r / inject_Z my)%Q as Hpos.
  { intros H. apply Qlt_shift_div_l; [assumption|]. rewrite Qmult_0_l.
    change 0%Q with (inject_Z 0). now rewrite <- Zlt_Qlt. }
  assert ((2 * r < my)%Z -> inject_Z r / inject_Z my < 1 # 2)%Q as Hlow.
  { intros H. apply Qlt_shift_div_r; [assumption|].
    assert (inject_Z (2 * r) < inject_Z my)%Q as H' by now rewrite <- Zlt_Qlt.
    rewrite inject_Z_mult in H'. change (inject_Z 2) with 2%Q in H'. lra. }
  assert ((my < 2 * r)%Z -> (1 # 2) < inject_Z r / inject_Z my)%Q as Hhigh.
  { intros H. apply Qlt_shift_div_l; [assumption|].
    assert (inject_Z my < inject_Z (2 * r))%Q as H' by now rewrite <- Zlt_Qlt.
    rewrite inject_Z_mult in H'. change (inject_Z 2) with 2%Q in H'. lra. }
  assert ((2 * r)%Z = my -> inject_Z r / inject_Z my == 1 # 2)%Q as Hmid.
  { intros H. rewrite <- H. rewrite inject_Z_mult. change (inject_Z 2) with 2%Q.
    field. intros E.
    assert (0 < r) by lia.
    assert (0 < inject_Z r)%Q by (change 0%Q with (inject_Z 0); now rewrite <- Zlt_Qlt).
    lra. }
  unfold new_location.
  destruct (Z.even my) eqn:Heven.
  - unfold new_location_even.
    destruct (Z.eqb_spec r 0) as [->|Hn].
    + cbn. unfold Qdiv. ring.
    + destruct (Z.compare_spec (2 * r) my) as [E|E|E]; cbn.
      * now apply Hmid.
      * split; [apply Hpos; lia|now apply Hlow].
      * split; [now apply Hhigh|now apply Hlt1].
  - unfold new_location_odd.
    destruct (Z.eqb_spec r 0) as [->|Hn].
    + cbn. unfold Qdiv. ring.
    + assert (2 * r <> my) as Hodd.
      { intros E. rewrite <- E, Z.even_mul in Heven. discriminate. }
      destruct (Z.compare_spec (2 * r + 1) my) as [E|E|E]; cbn.
      * split; [apply Hpos; lia|apply Hlow; lia].
      * split; [apply Hpos; lia|apply Hlow; lia].
      * split; [apply Hhigh; lia|now apply Hlt1].
Qed.

Lemma shr_bits_of_loc (m : Z) (l : location) :
  shr_r (shr_record_of_loc m l) = shr_r (shr_record_of_loc 0 l) /\
  shr_s (shr_record_of_loc m l) = shr_s (shr_record_of_loc 0 l).
Proof. destruct l as [|[| |]]; split; reflexivity. Qed.

Lemma div_core_correct (mx my : positive) (ex ey : Z) :
  exists x0 : Q,
    rec_inv (shr_record_of_loc (fst (fst (SFdiv_core_binary prec emax (Zpos mx) ex (Zpos my) ey)))
                               (snd (SFdiv_core_binary prec emax (Zpos mx) ex (Zpos my) ey))) x0 /\
    (x0 * pow2 (snd (fst (SFdiv_core_binary prec emax (Zpos mx) ex (Zpos my) ey))) ==
     (inject_Z (Zpos mx) * pow2 ex) / (inject_Z (Zpos my) * pow2 ey))%Q /\
    snd (fst (SFdiv_core_binary prec emax (Zpos mx) ex (Zpos my) ey)) <=
    fexp prec emax
      (Zdigits2 (fst (fst (SFdiv_core_binary prec emax (Zpos mx) ex (Zpos my) ey))) +
       snd (fst (SFdiv_core_binary prec emax (Zpos mx) ex (Zpos my) ey))).
Proof.
  unfold SFdiv_core_binary.
  set (d1 := Zdigits2 (Zpos mx)). set (d2 := Zdigits2 (Zpos my)).
  set (e' := Z.min (fexp prec emax (d1 + ex - (d2 + ey))) (ex - ey)).
  set (s := ex - ey - e').
  assert (0 <= s) as Hs by (unfold s, e'; lia).
  set (m' := match s with Zpos _ => Z.shiftl (Zpos mx) s | Z0 => Zpos mx | Zneg _ => 0 end).
  assert (m' = Zpos mx * 2 ^ s) as Hm'.
  { unfold m'. destruct s as [|p|p]; [cbn; lia| |lia].
    apply Z.shiftl_mul_pow2. lia. }
  assert (0 < 2 ^ s) as Hpow by (apply Z.pow_pos_nonneg; lia).
  assert (0 < m') as Hm'pos by (rewrite Hm'; lia).
  pose proof (Z_div_mod m' (Zpos my) ltac:(lia)) as Hdiv.
  destruct (Z.div_eucl m' (Zpos my)) as [q r] eqn:Hqr.
  destruct Hdiv as [Heq Hr]. cbn [fst snd].
  assert (0 <= q) as Hq by nia.
  assert (0 < inject_Z (Zpos my))%Q as Hmy.
  { change 0%Q with (inject_Z 0). rewrite <- Zlt_Qlt. lia. }
  exists (inject_Z q + inject_Z r / inject_Z (Zpos my))%Q.
  split; [|split].
  - split; [now rewrite shr_m_of_loc|].
    rewrite shr_m_of_loc.
    destruct (shr_bits_of_loc q (new_location (Zpos my) r)) as [-> ->].
    eapply loc_inv_compat; [|apply new_location_inv; lia].
    ring.
  - assert (inject_Z q + inject_Z r / inject_Z (Zpos my) ==
            inject_Z (Zpos mx) * pow2 s / inject_Z (Zpos my))%Q as E.
    { rewrite (pow2_Z s) by lia.
      assert (inject_Z (Zpos mx) * inject_Z (2 ^ s) ==
              inject_Z (Zpos my) * inject_Z q + inject_Z r)%Q as E'.
      { rewrite <- !inject_Z_mult, <- inject_Z_plus. now rewrite <- Hm', Heq. }
      rewrite E'. field. lra. }
    rewrite E.
    rewrite (pow2_split ex (ey + e')). replace (ex - (ey + e')) with s by (unfold s; lia).
    rewrite pow2_add.
    pose proof (pow2_pos ey). pose proof (pow2_pos e').
    field. split; lra.
  - destruct (Z_le_gt_dec e' (-1074)) as [Hlow|Hhigh]; [rewrite fexp_eq; lia|].
    assert (e' <= d1 + ex - (d2 + ey) - 53) as He'.
    { unfold e' in *. rewrite fexp_eq in *. lia. }
    set (k := d1 - d2 + s - 1).
    assert (52 <= k) as Hk by (unfold k, s; lia).
    destruct (Zdigits2_spec (Zpos mx)) as [Hmx _]; [lia|]. fold d1 in Hmx.
    destruct (Zdigits2_spec (Zpos my)) as [_ Hmy2]; [lia|]. fold d2 in Hmy2.
    assert (0 < d1) by (unfold d1; cbn; lia).
    assert (0 < d2) by (unfold d2; cbn; lia).
    assert (2 ^ k <= q) as Hqk.
    { assert (Zpos my * 2 ^ k <= m') as Hle.
      { rewrite Hm'.
        apply Z.le_trans with (2 ^ d2 * 2 ^ k).
        - apply Z.mul_le_mono_nonneg_r; [apply Z.pow_nonneg|]; lia.
        - rewrite <- Z.pow_add_r by lia.
          replace (d2 + k) with ((d1 - 1) + s) by (unfold k; lia).
          rewrite Z.pow_add_r by lia.
          apply Z.mul_le_mono_nonneg_r; lia. }
      assert (0 < 2 ^ k) by (apply Z.pow_pos_nonneg; lia).
      nia. }
    assert (k + 1 <= Zdigits2 q) as Hdq.
    { apply Zdigits2_ge; [now replace (k + 1 - 1) with k by lia|].
      assert (0 < 2 ^ k) by (apply Z.pow_pos_nonneg; lia). lia. }
    rewrite fexp_eq. unfold k, s in Hdq. lia.
Qed.


Lemma signed_div (s1 s2 : bool) (a b : Q) :
  ~ (b == 0)%Q -> (signed s1 a / signed s2 b == signed (xorb s1 s2) (a / b))%Q.
Proof. intros Hb. destruct s1, s2; cbn; field; assumption. Qed.

Lemma div_rounded (x y : binary64) :
  valid x = true -> valid y = true -> finite x = true -> nonzero y = true ->
  rounded (b64_value x / b64_value y) (SFdiv prec emax x y).
Proof.
  destruct x as [sx|sx| |sx mx ex], y as [sy|sy| |sy my ey];
    cbn [finite nonzero valid valid_binary]; try discriminate; intros Hx Hy _ _;
    cbn [SFdiv b64_value].
  destruct (div_core_correct mx my ex ey) as (x0 & Hrec & Hv & Hn).
  destruct (SFdiv_core_binary prec emax (Zpos mx) ex (Zpos my) ey) as [[mz ez] lz].
  cbn [fst snd] in Hrec, Hv, Hn.
  apply rounded_compat with (v := signed (xorb sx sy) (x0 * pow2 ez)).
  - pose proof (mantissa_pos my ey).
    rewrite signed_div by lra.
    destruct (xorb sx sy); cbn [signed]; rewrite Hv; reflexivity.
  - now apply round_aux_rounded.
Qed.

(** *** Comparison *)
Lemma magnitude_lt (m1 m2 : positive) (e1 e2 : Z) :
  bounded prec emax m1 e1 = true ->
  bounded prec emax m2 e2 = true ->
  e1 < e2 ->
  (inject_Z (Zpos m1) * pow2 e1 < inject_Z (Zpos m2) * pow2 e2)%Q.
Proof.
  intros H1 H2 He.
  destruct (bounded_inv m1 e1 H1) as (Hd1 & He1 & _).
  destruct (bounded_inv m2 e2 H2) as (Hd2 & He2 & Hn2).
  assert (Zdigits2 (Zpos m2) = 53) as Hd by lia.
  destruct (Zdigits2_spec (Zpos m1)) as [_ Hup]; [lia|].
  destruct (Zdigits2_spec (Zpos m2)) as [Hlo _]; [lia|]. rewrite Hd in Hlo.
  assert (Zpos m1 < 2 ^ 53) as Hm1.
  { apply Z.lt_le_trans with (2 ^ Zdigits2 (Zpos m1)); [assumption|].
    apply Z.pow_le_mono_r; lia. }
  apply Qlt_le_trans with (pow2 53 * pow2 e1)%Q.
  - apply Qmult_lt_compat_r; [apply pow2_pos|].
    rewrite pow2_Z by lia. now rewrite <- Zlt_Qlt.
  - apply Qle_trans with (pow2 52 * pow2 e2)%Q.
    + rewrite <- !pow2_add. apply pow2_le. lia.
    + apply Qmult_le_compat_r; [|apply Qlt_le_weak, pow2_pos].
      rewrite pow2_Z by lia. now rewrite <- Zle_Qle.
Qed.

Lemma compare_magnitude_correct (m1 m2 : positive) (e1 e2 : Z) :
  bounded prec emax m1 e1 = true ->
  bounded prec emax m2 e2 = true ->
  ordered (compare_magnitude m1 m2 e1 e2)
    (inject_Z (Zpos m1) * pow2 e1) (inject_Z (Zpos m2) * pow2 e2).
Proof.
  intros H1 H2. unfold compare_magnitude.
  destruct (Z.compare_spec e1 e2) as [E|E|E]; cbn [ordered].
  - subst e2. change (Pos.compare_cont Eq m1 m2) with (Pos.compare m1 m2).
    pose proof (pow2_pos e1).
    destruct (Pos.compare_spec m1 m2) as [Em|Em|Em]; cbn [ordered].
    + now subst m2.
    + apply Qmult_lt_compat_r; [assumption|]. rewrite <- Zlt_Qlt. lia.
    + apply Qmult_lt_compat_r; [assumption|]. rewrite <- Zlt_Qlt. lia.
  - now apply magnitude_lt.
  - now apply magnitude_lt.
Qed.

Lemma compare_correct (x y : binary64) :
  valid x = true -> valid y = true -> finite x = true -> finite y = true ->
  exists c, SFcompare x y = Some c /\ ordered c (b64_value x) (b64_value y).
Proof.
  destruct x as [sx|sx| |sx mx ex], y as [sy|sy| |sy my ey];
    cbn [finite valid valid_binary]; try discriminate; intros Hx Hy _ _;
    cbn [SFcompare b64_value].
  - exists Eq. split; [reflexivity|]. cbn. reflexivity.
  - pose proof (mantissa_pos my ey).
    destruct sy; eexists; (split; [reflexivity|]); cbn; lra.
  - pose proof (mantissa_pos mx ex).
    destruct sx; eexists; (split; [reflexivity|]); cbn; lra.
  - pose proof (mantissa_pos mx ex). pose proof (mantissa_pos my ey).
    pose proof (compare_magnitude_correct mx my ex ey Hx Hy) as Hc.
    unfold compare_magnitude in Hc.
    destruct sx, sy; eexists; (split; [reflexivity|]); cbn [signed ordered]; try lra.
    + destruct (Z.compare ex ey); cbn [ordered CompOpp] in Hc |- *; try lra.
      destruct (Pos.compare_cont Eq mx my); cbn [ordered CompOpp] in Hc |- *; lra.
    + destruct (Z.compare ex ey); cbn [ordered] in Hc |- *; try lra.
      destruct (Pos.compare_cont Eq mx my); cbn [ordered] in Hc |- *; lra.
Qed.

Lemma ltb_correct (x y : binary64) :
  valid x = true -> valid y = true -> finite x = true -> finite y = true ->
  (SFltb x y = true <-> (b64_value x < b64_value y)%Q).
Proof.
  intros Hx Hy Fx Fy. destruct (compare_correct x y Hx Hy Fx Fy) as (c & Hc & Ho).
  unfold SFltb. rewrite Hc. destruct c; cbn [ordered] in Ho; split; intros H;
    try reflexivity; try discriminate; try assumption; lra.
Qed.

Lemma leb_correct (x y : binary64) :
  valid x = true -> valid y = true -> finite x = true -> finite y = true ->
  (SFleb x y = true <-> (b64_value x <= b64_value y)%Q).
Proof.
  intros Hx Hy Fx Fy. destruct (compare_correct x y Hx Hy Fx Fy) as (c & Hc & Ho).
  unfold SFleb. rewrite Hc. destruct c; cbn [ordered] in Ho; split; intros H;
    try reflexivity; try discriminate; try lra.
Qed.

Lemma eqb_correct (x y : binary64) :
  valid x = true -> valid y = true -> finite x = true -> finite y = true ->
  (SFeqb x y = true <-> (b64_value x == b64_value y)%Q).
Proof.
  intros Hx Hy Fx Fy. destruct (compare_correct x y Hx Hy Fx Fy) as (c & Hc & Ho).
  unfold SFeqb. rewrite Hc. destruct c; cbn [ordered] in Ho; split; intros H;
    try reflexivity; try discriminate; try assumption; lra.
Qed.

End Rounding.

(** ** The error of lines 50-57 on one axis *)

Section ErrorAnalysis.

Local Open Scope Q_scope.

Lemma Qabs_cases (t : Q) : (0 <= t /\ Qabs t == t) \/ (t <= 0 /\ Qabs t == - t).
Proof.
  destruct (Qlt_le_dec t 0); [right|left]; (split; [lra|]).
  - apply Qabs_neg. lra.
  - now apply Qabs_pos.
Qed.

(** Splits on the sign of [t], so that [lra] can see through [Qabs t]. *)
Ltac abs_cases t :=
  let H := fresh "Hsign" in
  let E := fresh "Eabs" in
  destruct (Qabs_cases t) as [[H E]|[H E]].

(** An error relative to the rounded value is one relative to the exact
    value. *)
Lemma rel_err (z v : Q) :
  Qabs (z - v) <= ulp_half * Qabs z -> Qabs (z - v) <= 2 * ulp_half * Qabs v.
Proof. unfold ulp_half. intros H. abs_cases (z - v); abs_cases z; abs_cases v; lra. Qed.

Lemma rel_err_eta (z v eta : Q) :
  0 <= eta ->
  Qabs (z - v) <= ulp_half * Qabs z + eta ->
  Qabs (z - v) <= 2 * ulp_half * Qabs v + 2 * eta.
Proof. unfold ulp_half. intros He H. abs_cases (z - v); abs_cases z; abs_cases v; lra. Qed.

Lemma rel_size (z v eta : Q) :
  0 <= eta ->
  Qabs (z - v) <= ulp_half * Qabs z + eta ->
  Qabs z <= 2 * Qabs v + 2 * eta.
Proof. unfold ulp_half. intros He H. abs_cases (z - v); abs_cases z; abs_cases v; lra. Qed.

Section Axis.

(** The two sides [A] and [B] of the box, a coordinate [X] between them,
    and what lines 50, 51 and 56 compute: [T1] for [B + A], [S] for
    [T1 / 2], [D] for [B - A], [C] for [950 / D], [W] for [X - S] and [X']
    for [C * W], each within its rounding error. [R], [M] and [r] are the exact
    range, middle and scale. *)
Variables A B X K eta : Q.
Variables T1 S D C W X' : Q.
Variables R M r : Q.

Hypothesis R_def : R == B - A.
Hypothesis M_def : M == (A + B) * (1 # 2).
Hypothesis r_def : r == 950 / R.

Hypothesis HR : 0 < R.
Hypothesis HX : A <= X <= B.
Hypothesis HA : Qabs A <= K * R.
Hypothesis HB : Qabs B <= K * R.
Hypothesis HK : K <= 1099511627776.
Hypothesis Heta0 : 0 <= eta.
Hypothesis Heta1 : eta <= (1 # 1180591620717411303424) * R.
Hypothesis Heta2 : eta <= (1 # 1180591620717411303424) * r.
Hypothesis Heta3 : eta <= (1 # 1180591620717411303424).

Hypothesis E1 : Qabs (T1 - (B + A)) <= ulp_half * Qabs T1.
Hypothesis E2 : Qabs (S - T1 / 2) <= ulp_half * Qabs S + eta.
Hypothesis E3 : Qabs (D - R) <= ulp_half * Qabs D.
Hypothesis E4 : Qabs (C - 950 / D) <= ulp_half * Qabs C + eta.
Hypothesis E5 : Qabs (W - (X - S)) <= ulp_half * Qabs W.
Hypothesis E6 : Qabs (X' - C * W) <= ulp_half * Qabs X' + eta.

Lemma range_le_magnitude : R <= 2 * (K * R).
Proof. abs_cases A; abs_cases B; lra. Qed.

Lemma K_half : 1 # 2 <= K.
Proof.
  pose proof range_le_magnitude as H.
  assert (R * (1 # 2) <= R * K) as H' by lra.
  destruct (Qlt_le_dec K (1 # 2)) as [Hlt|Hge]; [exfalso|assumption].
  assert (R * K < R * (1 # 2)); [|lra].
  apply Qmult_lt_l; assumption.
Qed.

Lemma mid_small : Qabs M <= K * R.
Proof. abs_cases A; abs_cases B; abs_cases M; lra. Qed.

Lemma sum_bound : Qabs (T1 - 2 * M) <= 4 * ulp_half * (K * R) /\ Qabs T1 <= 3 * (K * R).
Proof.
  pose proof mid_small as HM. pose proof range_le_magnitude as Hrm.
  assert (Qabs (T1 - (B + A)) <= 2 * ulp_half * Qabs (B + A)) as H1 by now apply rel_err.
  unfold ulp_half in *.
  abs_cases (T1 - (B + A)); abs_cases (B + A); abs_cases M;
    abs_cases (T1 - 2 * M); abs_cases T1; split; lra.
Qed.

Lemma shift_bound : Qabs (S - M) <= 5 * ulp_half * (K * R) /\ Qabs S <= 2 * (K * R).
Proof.
  destruct sum_bound as [H1 H1']. pose proof mid_small as HM.
  pose proof range_le_magnitude as Hrm.
  assert (Qabs (S - T1 / 2) <= 2 * ulp_half * Qabs (T1 / 2) + 2 * eta) as H2
    by now apply rel_err_eta.
  assert (T1 / 2 == T1 * (1 # 2)) as Eh by (unfold Qdiv; reflexivity).
  rewrite Eh in H2.
  unfold ulp_half in *.
  abs_cases (S - T1 * (1 # 2)); abs_cases (T1 * (1 # 2)); abs_cases T1;
    abs_cases (T1 - 2 * M); abs_cases M; abs_cases (S - M); abs_cases S; split; lra.
Qed.

Lemma range_bound : Qabs (D - R) <= 2 * ulp_half * R /\ (1 - 2 * ulp_half) * R <= D.
Proof.
  assert (Qabs (D - R) <= 2 * ulp_half * Qabs R) as H by now apply rel_err.
  unfold ulp_half in *.
  abs_cases (D - R); abs_cases R; split; lra.
Qed.

Lemma r_pos : 0 < r.
Proof. rewrite r_def. apply Qlt_shift_div_l; [assumption|lra]. Qed.

Lemma r_R : r * R == 950.
Proof. rewrite r_def. field. lra. Qed.

Lemma scale_bound : Qabs (C - r) <= 6 * ulp_half * r.
Proof.
  destruct range_bound as [HD HD']. pose proof r_pos as Hr. pose proof r_R as HrR.
  assert (0 < D) as HDpos by (unfold ulp_half in *; lra).
  assert (950 / D * D == 950) as HqD by (field; lra).
  assert (0 < 950 / D) as Hq by (apply Qlt_shift_div_l; [assumption|lra]).
  assert (Qabs (C - 950 / D) <= 2 * ulp_half * Qabs (950 / D) + 2 * eta) as HC
    by now apply rel_err_eta.
  revert HqD Hq HC. generalize (950 / D). intros q HqD Hq HC.
  assert (Qabs (q - r) <= 3 * ulp_half * r) as Hqr.
  { assert ((q - r) * D == r * (R - D)) as Eq by (rewrite <- HrR in HqD; lra).
    assert (Qabs (q - r) * D == r * Qabs (R - D)) as Eabs.
    { rewrite <- (Qabs_pos D) at 1 by lra. rewrite <- Qabs_Qmult, Eq, Qabs_Qmult.
      now rewrite (Qabs_pos r) by lra. }
    assert (Qabs (R - D) <= 2 * ulp_half * R) as HD2 by (now rewrite Qabs_Qminus).
    assert (r * Qabs (R - D) <= r * (2 * ulp_half * R)) as H1.
    { apply Qmult_le_l; assumption. }
    assert (Qabs (q - r) * ((1 - 2 * ulp_half) * R) <= Qabs (q - r) * D) as H2.
    { apply Qmult_le_compat_nonneg; split; try lra; try apply Qabs_nonneg.
      unfold ulp_half. lra. }
    assert (Qabs (q - r) * (1 - 2 * ulp_half) * R <= (2 * ulp_half * r) * R) as H3 by lra.
    apply Qmult_le_r in H3; [|assumption].
    pose proof (Qabs_nonneg (q - r)). unfold ulp_half in *. lra. }
  unfold ulp_half in *.
  abs_cases (C - q); abs_cases q; abs_cases (q - r); abs_cases (C - r); lra.
Qed.

Lemma E_bound : Qabs (X - M) <= R * (1 # 2).
Proof. abs_cases (X - M); lra. Qed.

Lemma diff_bound :
  Qabs (W - (X - M)) <= ulp_half * R + 6 * ulp_half * (K * R) /\
  Qabs W <= R * (1 # 2) + ulp_half * R + 6 * ulp_half * (K * R).
Proof.
  destruct shift_bound as [HS _]. pose proof E_bound as HE.
  pose proof range_le_magnitude as Hrm.
  assert (Qabs (W - (X - S)) <= 2 * ulp_half * Qabs (X - S)) as HWS by now apply rel_err.
  unfold ulp_half in *.
  abs_cases (W - (X - S)); abs_cases (X - S); abs_cases (S - M); abs_cases (X - M);
    abs_cases (W - (X - M)); abs_cases W; split; lra.
Qed.

Lemma product_bound :
  Qabs (C * W - r * (X - M)) <= 3812 * ulp_half + 5700 * ulp_half * K /\
  Qabs (C * W) <= 476.
Proof.
  destruct diff_bound as [HW HW']. pose proof scale_bound as HC.
  pose proof E_bound as HE. pose proof r_pos as Hr. pose proof r_R as HrR.
  pose proof K_half as HKh.
  assert (r * (ulp_half * R + 6 * ulp_half * (K * R)) ==
          950 * ulp_half + 5700 * ulp_half * K) as Ew.
  { setoid_replace (r * (ulp_half * R + 6 * ulp_half * (K * R)))
      with ((r * R) * (ulp_half + 6 * ulp_half * K)) by ring.
    rewrite HrR. ring. }
  assert (r * (R * (1 # 2)) == 475) as Ehalf.
  { setoid_replace (r * (R * (1 # 2))) with ((r * R) * (1 # 2)) by ring. rewrite HrR. reflexivity. }
  assert (Qabs ((C - r) * W) <=
          6 * ulp_half * r * (R * (1 # 2) + (ulp_half * R + 6 * ulp_half * (K * R)))) as H1.
  { rewrite Qabs_Qmult. apply Qmult_le_compat_nonneg; split;
      try apply Qabs_nonneg; lra. }
  assert (Qabs (r * (W - (X - M))) <= r * (ulp_half * R + 6 * ulp_half * (K * R))) as H2.
  { rewrite Qabs_Qmult, (Qabs_pos r) by lra. apply Qmult_le_l; assumption. }
  assert (Qabs (r * (X - M)) <= 475) as H3.
  { rewrite Qabs_Qmult, (Qabs_pos r) by lra. rewrite <- Ehalf. apply Qmult_le_l; assumption. }
  assert (C * W - r * (X - M) == (C - r) * W + r * (W - (X - M))) as Esplit by ring.
  assert (6 * ulp_half * r * (R * (1 # 2) + (ulp_half * R + 6 * ulp_half * (K * R))) ==
          6 * ulp_half * (475 + (950 * ulp_half + 5700 * ulp_half * K))) as E1'.
  { rewrite <- Ew, <- Ehalf. ring. }
  rewrite E1' in H1. rewrite Ew in H2.
  assert (Qabs (C * W - r * (X - M)) <= 3812 * ulp_half + 5700 * ulp_half * K) as Hmain.
  { rewrite Esplit.
    eapply Qle_trans; [apply Qabs_triangle|]. unfold ulp_half in *. lra. }
  split; [assumption|].
  unfold ulp_half in *.
  abs_cases (C * W - r * (X - M)); abs_cases (r * (X - M)); abs_cases (C * W); lra.
Qed.

(** The printed coordinate is within [7600 * (K + 1) * 2^-53], which is
    [slack K], of its exact image. *)
Lemma axis_error : Qabs (X' - r * (X - M)) <= slack K.
Proof.
  destruct product_bound as [HP HP']. pose proof K_half as HKh.
  assert (Qabs (X' - C * W) <= 2 * ulp_half * Qabs (C * W) + 2 * eta) as HXC
    by now apply rel_err_eta.
  unfold slack, ulp_half in *.
  abs_cases (X' - C * W); abs_cases (C * W); abs_cases (C * W - r * (X - M));
    abs_cases (X' - r * (X - M)); lra.
Qed.

End Axis.

End ErrorAnalysis.

(** ** Lines 50-57 on binary64 *)

Section Binary64Axis.

Local Open Scope Q_scope.

Lemma regular_inv (x : binary64) : regular x = true -> valid x = true /\ finite x = true.
Proof. unfold regular. intros H. now apply andb_prop in H. Qed.

Lemma ulp_half_pow2 : pow2 (-53) == ulp_half.
Proof. reflexivity. Qed.

(** A rounding of less than 2^1023 is a number in canonical form. *)
Lemma rounded_regular (v : Q) (z : binary64) :
  rounded v z -> Qabs v < pow2 1023 ->
  regular z = true /\
  Qabs (b64_value z - v) <= ulp_half * Qabs (b64_value z) + pow2 (-1075).
Proof.
  intros H Hv.
  assert (regular z = true) as Hz.
  { destruct z as [s|s| |s m e]; cbn [rounded] in H; try reflexivity.
    - lra.
    - contradiction.
    - unfold regular, valid. cbn. destruct H as [Hb _]. now rewrite Hb. }
  split; [assumption|].
  rewrite <- ulp_half_pow2. apply rounded_error; [assumption|].
  now apply regular_inv in Hz.
Qed.

Lemma rounded_sum_regular (v : Q) (z : binary64) :
  rounded_sum v z -> Qabs v < pow2 1023 ->
  regular z = true /\
  Qabs (b64_value z - v) <= ulp_half * Qabs (b64_value z).
Proof.
  intros H Hv.
  assert (regular z = true) as Hz.
  { destruct z as [s|s| |s m e]; cbn [rounded_sum] in H; try reflexivity.
    - lra.
    - contradiction.
    - unfold regular, valid. cbn. destruct H as [Hb _]. now rewrite Hb. }
  split; [assumption|].
  rewrite <- ulp_half_pow2. apply rounded_sum_error; [assumption|].
  now apply regular_inv in Hz.
Qed.

Lemma add_regular (x y : binary64) :
  regular x = true -> regular y = true ->
  Qabs (b64_value x + b64_value y) < pow2 1023 ->
  regular (num_add x y) = true /\
  Qabs (b64_value (num_add x y) - (b64_value x + b64_value y)) <=
  ulp_half * Qabs (b64_value (num_add x y)).
Proof.
  intros Hx Hy. apply regular_inv in Hx, Hy. destruct Hx, Hy.
  apply rounded_sum_regular. now apply add_rounded.
Qed.

Lemma sub_regular (x y : binary64) :
  regular x = true -> regular y = true ->
  Qabs (b64_value x - b64_value y) < pow2 1023 ->
  regular (num_sub x y) = true /\
  Qabs (b64_value (num_sub x y) - (b64_value x - b64_value y)) <=
  ulp_half * Qabs (b64_value (num_sub x y)).
Proof.
  intros Hx Hy. apply regular_inv in Hx, Hy. destruct Hx, Hy.
  apply rounded_sum_regular. now apply sub_rounded.
Qed.

Lemma mul_regular (x y : binary64) :
  regular x = true -> regular y = true ->
  Qabs (b64_value x * b64_value y) < pow2 1023 ->
  regular (num_mul x y) = true /\
  Qabs (b64_value (num_mul x y) - b64_value x * b64_value y) <=
  ulp_half * Qabs (b64_value (num_mul x y)) + pow2 (-1075).
Proof.
  intros Hx Hy. apply regular_inv in Hx, Hy. destruct Hx, Hy.
  apply rounded_regular. now apply mul_rounded.
Qed.

Lemma regular_nonzero (y : binary64) :
  regular y = true -> ~ b64_value y == 0 ->
  nonzero y = true /\ num_eqb y (num_of_Z 0) = false.
Proof.
  intros Hy Hv. destruct y as [s|s| |s m e]; try discriminate.
  - exfalso. apply Hv. reflexivity.
  - split; [reflexivity|]. now destruct s.
Qed.

Lemma div_regular (x y : binary64) :
  regular x = true -> regular y = true -> ~ b64_value y == 0 ->
  Qabs (b64_value x / b64_value y) < pow2 1023 ->
  py_div x y = ret (num_div x y) /\
  regular (num_div x y) = true /\
  Qabs (b64_value (num_div x y) - b64_value x / b64_value y) <=
  ulp_half * Qabs (b64_value (num_div x y)) + pow2 (-1075).
Proof.
  intros Hx Hy Hv Hq. destruct (regular_nonzero y Hy Hv) as [Hnz Heq].
  apply regular_inv in Hx, Hy. destruct Hx, Hy.
  split.
  - unfold py_div. now rewrite Heq.
  - apply rounded_regular; [|assumption]. now apply div_rounded.
Qed.

Lemma two_exact : b64_value (num_of_Z 2) == 2 /\ regular (num_of_Z 2) = true.
Proof. split; reflexivity. Qed.

Lemma canvas_exact :
  b64_value (num_sub MAP_SIZE MARGIN) == 950 /\ regular (num_sub MAP_SIZE MARGIN) = true.
Proof. split; reflexivity. Qed.

Lemma half_regular (x : binary64) :
  regular x = true ->
  Qabs (b64_value x) < pow2 1023 ->
  regular (half x) = true /\
  Qabs (b64_value (half x) - b64_value x / 2) <=
  ulp_half * Qabs (b64_value (half x)) + pow2 (-1075).
Proof.
  intros Hx Hv. destruct two_exact as [E2 R2].
  destruct (div_regular x (num_of_Z 2) Hx R2) as (_ & Hr & He).
  - rewrite E2. discriminate.
  - rewrite E2. unfold Qdiv. rewrite Qabs_Qmult.
    change (Qabs (/ 2)) with (1 # 2). pose proof (Qabs_nonneg (b64_value x)). lra.
  - split; [exact Hr|]. unfold half. now rewrite E2 in He.
Qed.

Lemma exact_image_bound (lo hi x : Q) :
  0 < hi - lo -> lo <= x <= hi -> Qabs (exact_image lo hi x) <= 475.
Proof.
  intros HR Hx. unfold exact_image.
  assert (0 < 950 / (hi - lo)) as Hr by (apply Qlt_shift_div_l; [assumption|lra]).
  assert (950 / (hi - lo) * (hi - lo) == 950) as HrR by (field; lra).
  rewrite Qabs_Qmult, (Qabs_pos (950 / (hi - lo))) by lra.
  assert (Qabs (x - (lo + hi) * (1 # 2)) <= (hi - lo) * (1 # 2)) as HE.
  { destruct (Qabs_cases (x - (lo + hi) * (1 # 2))) as [[? E]|[? E]]; lra. }
  assert (950 / (hi - lo) * ((hi - lo) * (1 # 2)) == 475) as Eh.
  { setoid_replace (950 / (hi - lo) * ((hi - lo) * (1 # 2)))
      with ((950 / (hi - lo) * (hi - lo)) * (1 # 2)) by ring.
    rewrite HrR. reflexivity. }
  rewrite <- Eh. apply Qmult_le_l; assumption.
Qed.

Lemma exact_image_lo (lo hi : Q) : 0 < hi - lo -> exact_image lo hi lo == - 475.
Proof. intros H. unfold exact_image. field. lra. Qed.

Lemma exact_image_hi (lo hi : Q) : 0 < hi - lo -> exact_image lo hi hi == 475.
Proof. intros H. unfold exact_image. field. lra. Qed.

(** Lines 50-51 on one axis of a well-scaled box: both divisions pass, the
    shift and the scale are numbers, and line 56 puts every coordinate of
    the box within [slack K] of its exact image. *)
Lemma axis_transform (K : Q) (lo hi : binary64) :
  regular lo = true -> regular hi = true ->
  well_scaled K lo hi ->
  exists scale,
    py_div (num_sub MAP_SIZE MARGIN) (num_sub hi lo) = ret scale /\
    forall x,
      regular x = true ->
      b64_value lo <= b64_value x <= b64_value hi ->
      let x' := num_mul scale (num_sub x (half (num_add hi lo))) in
      regular x' = true /\
      Qabs (b64_value x' - exact_image (b64_value lo) (b64_value hi) (b64_value x))
      <= slack K.
Proof.
  intros Hlo Hhi (Hrange & Hlo_size & Hhi_size & Hlo_K & Hhi_K & HK).
  set (A := b64_value lo) in *. set (B := b64_value hi) in *.
  pose proof (pow2_pos (-1000)) as Hp0.
  pose proof (pow2_pos (-1075)) as He0.
  pose proof (pow2_pos 1000) as HP0.
  assert (pow2 1023 == 8388608 * pow2 1000) as EP.
  { change 1023%Z with (23 + 1000)%Z. rewrite pow2_add. reflexivity. }
  assert (pow2 (-1075) <= 1 # 1180591620717411303424) as Heta3.
  { apply Qle_trans with (pow2 (-70)); [apply pow2_le; lia|]. discriminate. }
  assert (1 <= pow2 1000) as HP1.
  { change 1 with (pow2 0). apply pow2_le. lia. }
  assert (pow2 (-1075) <= (1 # 1180591620717411303424) * (B - A)) as Heta1.
  { apply Qle_trans with (pow2 (-1070)); [apply pow2_le; lia|].
    change (-1070)%Z with (-70 + -1000)%Z. rewrite pow2_add.
    change (pow2 (-70)) with (1 # 1180591620717411303424). lra. }
  assert (0 < B - A) as HR by lra.
  assert (B - A <= 2 * pow2 1000) as HRup.
  { destruct (Qabs_cases A) as [[? ?]|[? ?]], (Qabs_cases B) as [[? ?]|[? ?]]; lra. }
  assert (pow2 (-1075) <= (1 # 1180591620717411303424) * (950 / (B - A))) as Heta2.
  { assert (pow2 (-1005) <= 950 / (B - A)) as Hq.
    { apply Qle_shift_div_l; [assumption|].
      apply Qle_trans with (pow2 (-1005) * (2 * pow2 1000)).
      - apply Qmult_le_l; [apply pow2_pos|assumption].
      - setoid_replace (pow2 (-1005) * (2 * pow2 1000))
          with (2 * (pow2 (-1005) * pow2 1000)) by ring.
        rewrite <- pow2_add. change (pow2 (-1005 + 1000)) with (1 # 32). lra. }
    apply Qle_trans with (pow2 (-70) * pow2 (-1005)).
    - rewrite <- pow2_add. apply pow2_le. lia.
    - change (pow2 (-70)) with (1 # 1180591620717411303424).
      apply Qmult_le_l; [reflexivity|assumption]. }
  (* line 50 *)
  destruct (add_regular hi lo Hhi Hlo) as [Rt1 E1].
  { fold A B. destruct (Qabs_cases A) as [[? ?]|[? ?]], (Qabs_cases B) as [[? ?]|[? ?]],
      (Qabs_cases (B + A)) as [[? ?]|[? ?]]; lra. }
  fold A B in E1. set (T1 := b64_value (num_add hi lo)) in *.
  assert (Qabs T1 <= 4 * pow2 1000) as HT1.
  { pose proof (rel_size T1 (B + A) 0 ltac:(lra) ltac:(lra)) as Hs.
    destruct (Qabs_cases A) as [[? ?]|[? ?]], (Qabs_cases B) as [[? ?]|[? ?]],
      (Qabs_cases (B + A)) as [[? ?]|[? ?]]; lra. }
  destruct (half_regular (num_add hi lo) Rt1) as [Rs E2].
  { fold T1. lra. }
  fold T1 in E2. set (S := b64_value (half (num_add hi lo))) in *.
  assert (Qabs S <= 5 * pow2 1000) as HS.
  { pose proof (rel_size S (T1 / 2) (pow2 (-1075)) ltac:(lra) E2) as Hs.
    assert (T1 / 2 == T1 * (1 # 2)) as Eh by (unfold Qdiv; reflexivity).
    rewrite Eh in Hs.
    destruct (Qabs_cases T1) as [[? ?]|[? ?]], (Qabs_cases (T1 * (1 # 2))) as [[? ?]|[? ?]]; lra. }
  (* line 51 *)
  destruct (sub_regular hi lo Hhi Hlo) as [Rd E3].
  { fold A B. rewrite Qabs_pos; lra. }
  fold A B in E3. set (D := b64_value (num_sub hi lo)) in *.
  destruct (range_bound D (B - A) HR E3) as [_ HD].
  assert (pow2 (-1001) <= D) as HDlow.
  { assert (pow2 (-1000) == 2 * pow2 (-1001)) as E.
    { change (-1000)%Z with (-1001 + 1)%Z. apply pow2_succ. }
    unfold ulp_half in HD. lra. }
  pose proof (pow2_pos (-1001)) as Hp1.
  destruct canvas_exact as [E950 R950].
  assert (0 < 950 / D) as Hq0 by (apply Qlt_shift_div_l; lra).
  assert (950 / D <= 2048 * pow2 1000) as Hqup.
  { apply Qle_shift_div_r; [lra|].
    apply Qle_trans with (2048 * pow2 1000 * pow2 (-1001)).
    - setoid_replace (2048 * pow2 1000 * pow2 (-1001))
        with (2048 * (pow2 1000 * pow2 (-1001))) by ring.
      rewrite <- pow2_add. change (pow2 (1000 + -1001)) with (1 # 2). lra.
    - apply Qmult_le_l; lra. }
  destruct (div_regular (num_sub MAP_SIZE MARGIN) (num_sub hi lo) R950 Rd)
    as (Hdiv & Rc & E4).
  { fold D. lra. }
  { fold D. rewrite E950, Qabs_pos; lra. }
  fold D in E4. rewrite E950 in E4. set (C := b64_value (num_div (num_sub MAP_SIZE MARGIN) (num_sub hi lo))) in *.
  exists (num_div (num_sub MAP_SIZE MARGIN) (num_sub hi lo)). split; [exact Hdiv|].
  intros x Rx HX. cbv zeta. set (X := b64_value x) in *.
  assert (Qabs X <= pow2 1000) as HXsize.
  { destruct (Qabs_cases A) as [[? ?]|[? ?]], (Qabs_cases B) as [[? ?]|[? ?]],
      (Qabs_cases X) as [[? ?]|[? ?]]; lra. }
  (* line 56 *)
  destruct (sub_regular x (half (num_add hi lo)) Rx Rs) as [Rw E5].
  { fold X S. destruct (Qabs_cases X) as [[? ?]|[? ?]], (Qabs_cases S) as [[? ?]|[? ?]],
      (Qabs_cases (X - S)) as [[? ?]|[? ?]]; lra. }
  fold X S in E5. set (W := b64_value (num_sub x (half (num_add hi lo)))) in *.
  assert (Qabs (C * W) <= 476) as HCW.
  { eapply (product_bound A B X K (pow2 (-1075)) T1 S D C W (B - A) ((A + B) * (1 # 2))
              (950 / (B - A))); try assumption; try reflexivity; lra. }
  destruct (mul_regular _ _ Rc Rw) as [Rx' E6].
  { fold C W. lra. }
  fold C W in E6. split; [exact Rx'|].
  unfold exact_image.
  eapply (axis_error A B X K (pow2 (-1075)) T1 S D C W _ (B - A) ((A + B) * (1 # 2))
            (950 / (B - A))); try assumption; try reflexivity; lra.
Qed.

End Binary64Axis.

(** ** The extent of the output *)

Section Binary64Extent.

Local Open Scope Q_scope.

Lemma extent_value : b64_value extent == 475.
Proof. reflexivity. Qed.

Lemma num_min_regular (a b : binary64) :
  regular a = true -> regular b = true ->
  regular (num_min a b) = true /\
  b64_value (num_min a b) <= b64_value a /\
  b64_value (num_min a b) <= b64_value b /\
  (num_min a b = a \/ num_min a b = b).
Proof.
  intros Ha Hb. destruct (regular_inv a Ha) as [Va Fa], (regular_inv b Hb) as [Vb Fb].
  pose proof (ltb_correct b a Vb Va Fb Fa) as Hlt.
  unfold num_min. cbn [num_lt binary64_num].
  destruct (SFltb b a).
  - assert (b64_value b < b64_value a) by now apply Hlt.
    repeat split; auto; lra.
  - destruct (Qlt_le_dec (b64_value b) (b64_value a)) as [Hba|Hab].
    + apply Hlt in Hba. discriminate.
    + repeat split; auto; lra.
Qed.

Lemma num_max_regular (a b : binary64) :
  regular a = true -> regular b = true ->
  regular (num_max a b) = true /\
  b64_value a <= b64_value (num_max a b) /\
  b64_value b <= b64_value (num_max a b) /\
  (num_max a b = a \/ num_max a b = b).
Proof.
  intros Ha Hb. destruct (regular_inv a Ha) as [Va Fa], (regular_inv b Hb) as [Vb Fb].
  pose proof (ltb_correct a b Va Vb Fa Fb) as Hlt.
  unfold num_max. cbn [num_lt binary64_num].
  destruct (SFltb a b).
  - assert (b64_value a < b64_value b) by now apply Hlt.
    repeat split; auto; lra.
  - destruct (Qlt_le_dec (b64_value a) (b64_value b)) as [Hab|Hba].
    + apply Hlt in Hab. discriminate.
    + repeat split; auto; lra.
Qed.

(** The fold of lines 38 and 45 returns a lower bound of what it visited, and
    one of the visited numbers. *)
Lemma fold_min_regular (l : list binary64) :
  forall a,
  regular a = true -> forallb regular l = true ->
  regular (fold_left num_min l a) = true /\
  b64_value (fold_left num_min l a) <= b64_value a /\
  (forall x, In x l -> b64_value (fold_left num_min l a) <= b64_value x) /\
  In (fold_left num_min l a) (a :: l).
Proof.
  induction l as [|b l IH]; intros a Ha Hl; cbn [fold_left].
  - repeat split; auto; try lra; [intros x []|now left].
  - cbn [forallb] in Hl. apply andb_prop in Hl. destruct Hl as [Hb Hl].
    destruct (num_min_regular a b Ha Hb) as (Hm & Hma & Hmb & Hin).
    destruct (IH (num_min a b) Hm Hl) as (Hr & Hle & Hall & Hmem).
    split; [assumption|]. split; [lra|]. split.
    + intros x [<-|Hx]; [lra|now apply Hall].
    + destruct Hmem as [Hmem|Hmem].
      * rewrite <- Hmem. destruct Hin as [-> | ->]; [now left|now right; left].
      * now right; right.
Qed.

Lemma fold_max_regular (l : list binary64) :
  forall a,
  regular a = true -> forallb regular l = true ->
  regular (fold_left num_max l a) = true /\
  b64_value a <= b64_value (fold_left num_max l a) /\
  (forall x, In x l -> b64_value x <= b64_value (fold_left num_max l a)) /\
  In (fold_left num_max l a) (a :: l).
Proof.
  induction l as [|b l IH]; intros a Ha Hl; cbn [fold_left].
  - repeat split; auto; try lra; [intros x []|now left].
  - cbn [forallb] in Hl. apply andb_prop in Hl. destruct Hl as [Hb Hl].
    destruct (num_max_regular a b Ha Hb) as (Hm & Hma & Hmb & Hin).
    destruct (IH (num_max a b) Hm Hl) as (Hr & Hle & Hall & Hmem).
    split; [assumption|]. split; [lra|]. split.
    + intros x [<-|Hx]; [lra|now apply Hall].
    + destruct Hmem as [Hmem|Hmem].
      * rewrite <- Hmem. destruct Hin as [-> | ->]; [now left|now right; left].
      * now right; right.
Qed.

Lemma regular_vertices (nvs : list (binary64 * binary64)) :
  forallb regular_vertex (map number_vertex nvs) = true ->
  forallb regular (map fst nvs) = true /\ forallb regular (map snd nvs) = true.
Proof.
  induction nvs as [|[x y] nvs IH]; cbn [map forallb]; [now split|].
  unfold number_vertex at 1. cbn [fst snd regular_vertex].
  intros H. apply andb_prop in H. destruct H as [Hxy H].
  apply andb_prop in Hxy. destruct Hxy as [Hx Hy].
  destruct (IH H) as [IHx IHy]. now rewrite Hx, Hy, IHx, IHy.
Qed.

Lemma Forall2_map_both {A B C : Type} (P : B -> C -> Prop) (f : A -> B) (g : A -> C)
    (l : list A) :
  (forall a, In a l -> P (f a) (g a)) -> Forall2 P (map f l) (map g l).
Proof.
  induction l as [|a l IH]; intros H; cbn [map]; constructor.
  - apply H. now left.
  - apply IH. intros b Hb. apply H. now right.
Qed.

Lemma near_bound (K : Q) (lo hi x x' : binary64) :
  0 < b64_value hi - b64_value lo ->
  b64_value lo <= b64_value x <= b64_value hi ->
  near K lo hi (Num x) x' ->
  Qabs (b64_value x') <= b64_value extent + slack K.
Proof.
  intros HR Hx Hn. unfold near in Hn. cbn [value_of] in Hn.
  pose proof (exact_image_bound _ _ _ HR Hx) as Hb. rewrite extent_value.
  revert Hn Hb. generalize (exact_image (b64_value lo) (b64_value hi) (b64_value x)).
  generalize (slack K). intros s e Hn Hb.
  destruct (Qabs_cases (b64_value x' - e)) as [[? ?]|[? ?]],
    (Qabs_cases e) as [[? ?]|[? ?]], (Qabs_cases (b64_value x')) as [[? ?]|[? ?]]; lra.
Qed.

Lemma near_hi (K : Q) (lo hi x' : binary64) :
  0 < b64_value hi - b64_value lo ->
  near K lo hi (Num hi) x' ->
  Qabs (b64_value x' - b64_value extent) <= slack K.
Proof.
  intros HR Hn. unfold near in Hn. cbn [value_of] in Hn.
  assert (b64_value x' - b64_value extent ==
          b64_value x' - exact_image (b64_value lo) (b64_value hi) (b64_value hi)) as E.
  { rewrite (exact_image_hi _ _ HR), extent_value. reflexivity. }
  now rewrite E.
Qed.

Lemma near_lo (K : Q) (lo hi x' : binary64) :
  0 < b64_value hi - b64_value lo ->
  near K lo hi (Num lo) x' ->
  Qabs (b64_value x' + b64_value extent) <= slack K.
Proof.
  intros HR Hn. unfold near in Hn. cbn [value_of] in Hn.
  assert (b64_value x' + b64_value extent ==
          b64_value x' - exact_image (b64_value lo) (b64_value hi) (b64_value lo)) as E.
  { rewrite (exact_image_lo _ _ HR), extent_value. ring. }
  now rewrite E.
Qed.

Lemma well_scaled_range (K : Q) (lo hi : binary64) :
  well_scaled K lo hi -> 0 < b64_value hi - b64_value lo.
Proof. intros (H & _). pose proof (pow2_pos (-1000)). lra. Qed.

(** C2, as the code has it.  The program computes in binary64, and its
    rounding moves the printed coordinates off the exact ones.  For a box
    whose sides are at least 2^-1000 apart and whose coordinates are within
    2^1000 of zero and within [K] box ranges of zero ([K <= 2^40]), and
    coordinates that are all numbers, the run prints; every printed
    coordinate is a number within [slack K = 475 * (K + 1) * 2^-49] of the
    exact image of its input coordinate, so of magnitude at most
    [(MAP_SIZE - MARGIN) / 2 + slack K]; and on each axis a point or vertex
    at each side of the box is printed within [slack K] of plus or minus
    [(MAP_SIZE - MARGIN) / 2]. *)
Theorem extent_within_tolerance (K : Q) (features : list (feature binary64))
    (points : list (point binary64)) (polygons : list (polygon binary64))
    (xm ym xM yM : binary64) :
  parse features = ret (points, polygons) ->
  bounding_box points polygons = ret (box_of xm ym xM yM) ->
  forallb regular_vertex (scanned points polygons) = true ->
  well_scaled K xm xM ->
  well_scaled K ym yM ->
  exists t out,
    transform_of (box_of xm ym xM yM) = ret t /\
    main features = ret out /\
    Forall2
      (fun v xy =>
         apply t v = ret xy /\
         near K xm xM (fst v) (fst xy) /\ near K ym yM (snd v) (snd xy))
      (scanned points polygons) (printed out) /\
    (forall xy, In xy (printed out) ->
       regular (fst xy) = true /\ regular (snd xy) = true /\
       Qabs (b64_value (fst xy)) <= b64_value extent + slack K /\
       Qabs (b64_value (snd xy)) <= b64_value extent + slack K) /\
    (exists v xy,
       In v (scanned points polygons) /\ fst v = Num xM /\
       apply t v = ret xy /\ In xy (printed out) /\
       Qabs (b64_value (fst xy) - b64_value extent) <= slack K) /\
    (exists v xy,
       In v (scanned points polygons) /\ fst v = Num xm /\
       apply t v = ret xy /\ In xy (printed out) /\
       Qabs (b64_value (fst xy) + b64_value extent) <= slack K) /\
    (exists v xy,
       In v (scanned points polygons) /\ snd v = Num yM /\
       apply t v = ret xy /\ In xy (printed out) /\
       Qabs (b64_value (snd xy) - b64_value extent) <= slack K) /\
    (exists v xy,
       In v (scanned points polygons) /\ snd v = Num ym /\
       apply t v = ret xy /\ In xy (printed out) /\
       Qabs (b64_value (snd xy) + b64_value extent) <= slack K).
Proof.
  intros Hparse Hbox Hreg HWx HWy.
  destruct (number_box_scan _ _ _ _ _ _ Hbox) as (x0 & y0 & nvs & Hscan & Exm & Eym & ExM & EyM).
  set (l := (x0, y0) :: nvs) in *.
  rewrite Hscan in Hreg. destruct (regular_vertices l Hreg) as [Hxs Hys].
  assert (regular x0 = true /\ regular y0 = true) as [Hx0 Hy0].
  { unfold l in Hxs, Hys. cbn [map forallb fst snd] in Hxs, Hys.
    apply andb_prop in Hxs, Hys. now destruct Hxs, Hys. }
  assert (In x0 (map fst l) /\ In y0 (map snd l)) as [Hinx0 Hiny0].
  { unfold l. cbn [map fst snd]. split; now left. }
  destruct (fold_min_regular (map fst l) x0 Hx0 Hxs) as (Rxm & _ & Hxm & Mxm).
  destruct (fold_max_regular (map fst l) x0 Hx0 Hxs) as (RxM & _ & HxM & MxM).
  destruct (fold_min_regular (map snd l) y0 Hy0 Hys) as (Rym & _ & Hym & Mym).
  destruct (fold_max_regular (map snd l) y0 Hy0 Hys) as (RyM & _ & HyM & MyM).
  rewrite <- Exm in Rxm, Hxm, Mxm. rewrite <- ExM in RxM, HxM, MxM.
  rewrite <- Eym in Rym, Hym, Mym. rewrite <- EyM in RyM, HyM, MyM.
  assert (In xm (map fst l)) as Ixm by (destruct Mxm as [<-|]; assumption).
  assert (In xM (map fst l)) as IxM by (destruct MxM as [<-|]; assumption).
  assert (In ym (map snd l)) as Iym by (destruct Mym as [<-|]; assumption).
  assert (In yM (map snd l)) as IyM by (destruct MyM as [<-|]; assumption).
  clear Exm ExM Eym EyM Mxm MxM Mym MyM.
  pose proof (well_scaled_range K xm xM HWx) as HRx.
  pose proof (well_scaled_range K ym yM HWy) as HRy.
  destruct (axis_transform K xm xM Rxm RxM HWx) as (sx & Hsx & Hax).
  destruct (axis_transform K ym yM Rym RyM HWy) as (sy & Hsy & Hay).
  set (t := {| x_shift := half (num_add xM xm); x_scale := sx;
               y_shift := half (num_add yM ym); y_scale := sy |}).
  assert (transform_of (box_of xm ym xM yM) = ret t) as Ht.
  { apply transform_of_ret. exists xm, ym, xM, yM. now repeat split. }
  set (image := fun v : binary64 * binary64 => (moved_x t (fst v), moved_y t (snd v))).
  assert (comprehension (apply t) (scanned points polygons) = ret (map image l)) as Happly.
  { rewrite Hscan. apply apply_numbers. }
  destruct (emit_total t points polygons _ Happly) as [out Hout].
  pose proof (printed_emit t points polygons out Hout) as Hprinted.
  rewrite Happly in Hprinted. injection Hprinted as Hprinted.
  assert (forall p, In p l ->
            (b64_value xm <= b64_value (fst p) <= b64_value xM) /\
            (b64_value ym <= b64_value (snd p) <= b64_value yM) /\
            regular (moved_x t (fst p)) = true /\ regular (moved_y t (snd p)) = true /\
            near K xm xM (Num (fst p)) (moved_x t (fst p)) /\
            near K ym yM (Num (snd p)) (moved_y t (snd p))) as Hall.
  { intros p Hp.
    assert (In (fst p) (map fst l)) as Hpx by now apply in_map.
    assert (In (snd p) (map snd l)) as Hpy by now apply in_map.
    assert (regular (fst p) = true) as Rpx.
    { rewrite forallb_forall in Hxs. now apply Hxs. }
    assert (regular (snd p) = true) as Rpy.
    { rewrite forallb_forall in Hys. now apply Hys. }
    assert (b64_value xm <= b64_value (fst p) <= b64_value xM) as Bx by (split; auto).
    assert (b64_value ym <= b64_value (snd p) <= b64_value yM) as By by (split; auto).
    destruct (Hax (fst p) Rpx Bx) as [Rx' Nx]. destruct (Hay (snd p) Rpy By) as [Ry' Ny].
    repeat split; try assumption; try apply Bx; try apply By. }
  assert (forall p, In p l -> apply t (number_vertex p) = ret (image p)) as Hap.
  { intros p _. reflexivity. }
  exists t, out. split; [exact Ht|]. split.
  { rewrite (main_of_stages features points polygons _ Hparse Hbox), Ht. exact Hout. }
  rewrite <- Hprinted, Hscan.
  split.
  { apply (Forall2_map_both _ number_vertex image l). intros p Hp. destruct (Hall p Hp) as (_ & _ & _ & _ & Nx & Ny).
    split; [now apply Hap|]. split; assumption. }
  split.
  { intros xy Hxy. change (In xy (map image l)) in Hxy. apply in_map_iff in Hxy. destruct Hxy as (p & <- & Hp).
    destruct (Hall p Hp) as (Bx & By & Rx & Ry & Nx & Ny). cbn [image fst snd].
    split; [assumption|]. split; [assumption|]. split.
    - exact (near_bound K xm xM (fst p) _ HRx Bx Nx).
    - exact (near_bound K ym yM (snd p) _ HRy By Ny). }
  split.
  { apply in_map_iff in IxM. destruct IxM as (p & Ep & Hp).
    destruct (Hall p Hp) as (_ & _ & _ & _ & Nx & _).
    exists (number_vertex p), (image p).
    split; [now apply in_map|]. split; [cbn; now rewrite Ep|].
    split; [now apply Hap|]. split; [now apply (in_map image l)|].
    cbn [image fst]. rewrite Ep in Nx |- *. exact (near_hi K xm xM _ HRx Nx). }
  split.
  { apply in_map_iff in Ixm. destruct Ixm as (p & Ep & Hp).
    destruct (Hall p Hp) as (_ & _ & _ & _ & Nx & _).
    exists (number_vertex p), (image p).
    split; [now apply in_map|]. split; [cbn; now rewrite Ep|].
    split; [now apply Hap|]. split; [now apply (in_map image l)|].
    cbn [image fst]. rewrite Ep in Nx |- *. exact (near_lo K xm xM _ HRx Nx). }
  split.
  { apply in_map_iff in IyM. destruct IyM as (p & Ep & Hp).
    destruct (Hall p Hp) as (_ & _ & _ & _ & _ & Ny).
    exists (number_vertex p), (image p).
    split; [now apply in_map|]. split; [cbn; now rewrite Ep|].
    split; [now apply Hap|]. split; [now apply (in_map image l)|].
    cbn [image snd]. rewrite Ep in Ny |- *. exact (near_hi K ym yM _ HRy Ny). }
  { apply in_map_iff in Iym. destruct Iym as (p & Ep & Hp).
    destruct (Hall p Hp) as (_ & _ & _ & _ & _ & Ny).
    exists (number_vertex p), (image p).
    split; [now apply in_map|]. split; [cbn; now rewrite Ep|].
    split; [now apply Hap|]. split; [now apply (in_map image l)|].
    cbn [image snd]. rewrite Ep in Ny |- *. exact (near_lo K ym yM _ HRy Ny). }
Qed.

Lemma extent_within_tolerance_witness :
  exists t out,
    transform_of (box_of (b64_of_Z 0) (b64_of_Z 0) (b64_of_Z 51) (b64_of_Z 51)) = ret t /\
    main span_51 = ret out /\
    Forall2
      (fun v xy =>
         apply t v = ret xy /\
         near 1 (b64_of_Z 0) (b64_of_Z 51) (fst v) (fst xy) /\
         near 1 (b64_of_Z 0) (b64_of_Z 51) (snd v) (snd xy))
      (scanned span_51_points []) (printed out) /\
    (forall xy, In xy (printed out) ->
       regular (fst xy) = true /\ regular (snd xy) = true /\
       Qabs (b64_value (fst xy)) <= b64_value extent + slack 1 /\
       Qabs (b64_value (snd xy)) <= b64_value extent + slack 1) /\
    (exists v xy,
       In v (scanned span_51_points []) /\ fst v = Num (b64_of_Z 51) /\
       apply t v = ret xy /\ In xy (printed out) /\
       Qabs (b64_value (fst xy) - b64_value extent) <= slack 1) /\
    (exists v xy,
       In v (scanned span_51_points []) /\ fst v = Num (b64_of_Z 0) /\
       apply t v = ret xy /\ In xy (printed out) /\
       Qabs (b64_value (fst xy) + b64_value extent) <= slack 1) /\
    (exists v xy,
       In v (scanned span_51_points []) /\ snd v = Num (b64_of_Z 51) /\
       apply t v = ret xy /\ In xy (printed out) /\
       Qabs (b64_value (snd xy) - b64_value extent) <= slack 1) /\
    (exists v xy,
       In v (scanned span_51_points []) /\ snd v = Num (b64_of_Z 0) /\
       apply t v = ret xy /\ In xy (printed out) /\
       Qabs (b64_value (snd xy) + b64_value extent) <= slack 1).
Proof.
  apply (extent_within_tolerance 1 span_51 span_51_points []
           (b64_of_Z 0) (b64_of_Z 0) (b64_of_Z 51) (b64_of_Z 51)).
  - reflexivity.
  - reflexivity.
  - reflexivity.
  - repeat split; vm_compute; discriminate.
  - repeat split; vm_compute; discriminate.
Defined.

End Binary64Extent.

(** ** Which line raises what *)

Section Raises.

Context {num : Type} {N : PyNum num}.

(** Closes a goal [data_error e = true] from [H : c = raise e] for a command
    [c] that has been reduced to a [raise] or a [ret]. *)
Ltac raised H := first [discriminate H | injection H as <-; reflexivity].

Lemma bind_data_error {A B} (c : result A) (k : A -> result B) :
  (forall e', c = raise e' -> data_error e' = true) ->
  (forall a e', k a = raise e' -> data_error e' = true) ->
  forall e, bind c k = raise e -> data_error e = true.
Proof.
  intros Hc Hk e H. apply bind_raise_inv in H. destruct H as [H|(a & _ & H)]; eauto.
Qed.

Lemma assert_data_error (cond : bool) (e : exn) :
  assert cond = raise e -> data_error e = true.
Proof. intros H. now rewrite (assert_raises _ _ H). Qed.

Lemma index_data_error {A} (l : list A) (i : nat) (e : exn) :
  index l i = raise e -> data_error e = true.
Proof. intros H. now rewrite (index_raises _ _ _ H). Qed.

Lemma index_last_data_error {A} (l : list A) (e : exn) :
  index_last l = raise e -> data_error e = true.
Proof. intros H. now rewrite (index_last_raises _ _ H). Qed.

Lemma member_data_error {A} (key : string) (o : option A) (e : exn) :
  member key o = raise e -> data_error e = true.
Proof. destruct o; cbn; intros H; raised H. Qed.

Lemma len_data_error (v : value num) (e : exn) : len v = raise e -> data_error e = true.
Proof. destruct v; cbn; intros H; raised H. Qed.

Lemma item_data_error (v : value num) (i : nat) (e : exn) :
  item v i = raise e -> data_error e = true.
Proof. destruct v; cbn [item]; [intros H; raised H|apply index_data_error]. Qed.

Lemma item_last_data_error (v : value num) (e : exn) :
  item_last v = raise e -> data_error e = true.
Proof. destruct v; cbn [item_last]; [intros H; raised H|apply index_last_data_error]. Qed.

Lemma all_but_last_data_error (v : value num) (e : exn) :
  all_but_last v = raise e -> data_error e = true.
Proof. destruct v; cbn; intros H; raised H. Qed.

Lemma name_of_data_error (f : feature num) (e : exn) :
  name_of f = raise e -> data_error e = true.
Proof.
  unfold name_of. destruct (properties f) as [| |name]; try (intros H; raised H).
  apply member_data_error.
Qed.

Lemma py_lt_data_error : forall (a b : value num) (e : exn),
  py_lt a b = raise e -> data_error e = true.
Proof.
  fix IH 1. intros [x|l] [y|m] e; cbn [py_lt]; try (intros H; raised H).
  revert m. induction l as [|x l IHl]; intros [|y m]; try (intros H; raised H).
  destruct (py_eq x y); [apply IHl|apply IH].
Qed.

Lemma py_gt_data_error : forall (a b : value num) (e : exn),
  py_gt a b = raise e -> data_error e = true.
Proof.
  fix IH 1. intros [x|l] [y|m] e; cbn [py_gt]; try (intros H; raised H).
  revert m. induction l as [|x l IHl]; intros [|y m]; try (intros H; raised H).
  destruct (py_eq x y); [apply IHl|apply IH].
Qed.

Lemma py_min_data_error (a b : value num) (e : exn) :
  py_min a b = raise e -> data_error e = true.
Proof.
  unfold py_min. apply bind_data_error; [apply py_lt_data_error|].
  intros r e' H. raised H.
Qed.

Lemma py_max_data_error (a b : value num) (e : exn) :
  py_max a b = raise e -> data_error e = true.
Proof.
  unfold py_max. apply bind_data_error; [apply py_gt_data_error|].
  intros r e' H. raised H.
Qed.

Lemma py_add_data_error (a b : value num) (e : exn) :
  py_add a b = raise e -> data_error e = true.
Proof. destruct a, b; cbn; intros H; raised H. Qed.

Lemma py_sub_data_error (a b : value num) (e : exn) :
  py_sub a b = raise e -> data_error e = true.
Proof. destruct a, b; cbn; intros H; raised H. Qed.

Lemma py_half_data_error (a : value num) (e : exn) :
  py_half a = raise e -> data_error e = true.
Proof. destruct a; cbn; intros H; raised H. Qed.

Lemma py_sub_ret (a b : value num) (d : num) :
  py_sub a b = ret d -> exists x y, a = Num x /\ b = Num y /\ d = num_sub x y.
Proof.
  destruct a as [x|], b as [y|]; cbn; try discriminate.
  intros H. injection H as <-. now exists x, y.
Qed.

Lemma py_div_raises (a b : num) (e : exn) :
  py_div a b = raise e -> e = ZeroDivisionError /\ num_eqb b (num_of_Z 0) = true.
Proof.
  unfold py_div. destruct (num_eqb b (num_of_Z 0)); [|discriminate].
  intros H. injection H as <-. now split.
Qed.

Lemma py_div_ret (a b q : num) :
  py_div a b = ret q -> num_eqb b (num_of_Z 0) = false.
Proof. unfold py_div. now destruct (num_eqb b (num_of_Z 0)). Qed.

Lemma comprehension_data_error {A B} (f : A -> result B) (l : list A) :
  (forall a e', f a = raise e' -> data_error e' = true) ->
  forall e, comprehension f l = raise e -> data_error e = true.
Proof.
  intros Hf. induction l as [|a l IH]; cbn [comprehension]; intros e; [intros H; raised H|].
  apply bind_data_error; [apply Hf|]. intros b e'.
  apply bind_data_error; [apply IH|intros bs e'' H; raised H].
Qed.

Lemma vertex_of_data_error (v : value num) (e : exn) :
  vertex_of v = raise e -> data_error e = true.
Proof. intros H. apply vertex_of_raises in H. now destruct H as [-> | ->]. Qed.

(** *** The feature loop *)

Lemma parse_point_data_error (f : feature num) (c : value num) (points : list (point num))
    (e : exn) :
  parse_point f c points = raise e -> data_error e = true.
Proof.
  unfold parse_point.
  apply bind_data_error; [apply len_data_error|intros n e1].
  apply bind_data_error; [apply assert_data_error|intros u e2].
  apply bind_data_error; [apply name_of_data_error|intros name e3].
  apply bind_data_error; [apply item_data_error|intros x e4].
  apply bind_data_error; [apply item_data_error|intros y e5 H; raised H].
Qed.

Lemma parse_polygon_data_error (c : value num) (polygons : list (polygon num)) (e : exn) :
  parse_polygon c polygons = raise e -> data_error e = true.
Proof.
  unfold parse_polygon.
  apply bind_data_error; [apply len_data_error|intros n e1].
  apply bind_data_error; [apply assert_data_error|intros u e2].
  apply bind_data_error; [apply item_data_error|intros ring e3].
  apply bind_data_error; [apply len_data_error|intros k e4].
  apply bind_data_error; [apply assert_data_error|intros u' e5].
  apply bind_data_error; [apply item_data_error|intros first e6].
  apply bind_data_error; [apply item_last_data_error|intros last e7].
  apply bind_data_error; [apply assert_data_error|intros u'' e8].
  apply bind_data_error; [apply all_but_last_data_error|intros kept e9].
  apply bind_data_error;
    [apply comprehension_data_error, vertex_of_data_error|intros vs e10 H; raised H].
Qed.

(** One turn of the loop ends with an exception of the data, or with the
    exception of line 32 when the geometry has coordinates and a type other
    than the two the loop knows. *)
Lemma parse_feature_raises (f : feature num) (acc : list (point num) * list (polygon num))
    (e : exn) :
  parse_feature f acc = raise e ->
  data_error e = true \/
  (e = UnsupportedGeometryError (geometry_type f) /\
   geometry_type f <> "Point" /\ geometry_type f <> "Polygon" /\
   exists c, coordinates f = Some c).
Proof.
  destruct acc as [points polygons]. unfold parse_feature. intros H.
  apply bind_raise_inv in H. destruct H as [H|(c & Hc & H)].
  { left. now apply member_data_error in H. }
  destruct (String.eqb (geometry_type f) "Point") eqn:HPoint.
  { left. apply bind_raise_inv in H. destruct H as [H|(? & _ & H)]; [|raised H].
    now apply parse_point_data_error in H. }
  destruct (String.eqb (geometry_type f) "Polygon") eqn:HPolygon.
  { left. apply bind_raise_inv in H. destruct H as [H|(? & _ & H)]; [|raised H].
    now apply parse_polygon_data_error in H. }
  right. apply String.eqb_neq in HPoint, HPolygon. injection H as <-.
  repeat split; try assumption. exists c.
  destruct (coordinates f); [cbn in Hc; now injection Hc as -> | discriminate].
Qed.

(** A collection that is refused has a first refused feature. *)
Lemma parse_from_refused (features : list (feature num)) :
  forall acc e,
  parse_from features acc = raise e ->
  exists before f after acc',
    features = before ++ f :: after /\
    parse_from before acc = ret acc' /\
    parse_feature f acc' = raise e.
Proof.
  induction features as [|f rest IH]; intros acc e H; cbn in H; [discriminate|].
  apply bind_raise_inv in H. destruct H as [H|(acc1 & Hf & H)].
  - exists [], f, rest, acc. repeat split. exact H.
  - destruct (IH acc1 e H) as (before & g & after & acc' & -> & Hbefore & Hg).
    exists (f :: before), g, after, acc'. repeat split; [|assumption].
    cbn. now rewrite Hf.
Qed.

(** *** The box, the transform and the printing loops *)

Lemma extend_data_error (b : bbox num) (x y : value num) (e : exn) :
  extend b x y = raise e -> data_error e = true.
Proof.
  unfold extend.
  apply bind_data_error; [apply py_min_data_error|intros xmin e1].
  apply bind_data_error; [apply py_max_data_error|intros xmax e2].
  apply bind_data_error; [apply py_min_data_error|intros ymin e3].
  apply bind_data_error; [apply py_max_data_error|intros ymax e4 H; raised H].
Qed.

Lemma extend_all_data_error (vs : list (vertex num)) :
  forall b e, extend_all b vs = raise e -> data_error e = true.
Proof.
  induction vs as [|v vs IH]; intros b e; cbn [extend_all]; [intros H; raised H|].
  apply bind_data_error; [apply extend_data_error|]. intros b' e'. apply IH.
Qed.

Lemma bounding_box_data_error (points : list (point num)) (polygons : list (polygon num))
    (e : exn) :
  bounding_box points polygons = raise e -> data_error e = true.
Proof.
  unfold bounding_box.
  apply bind_data_error; [apply index_data_error|intros [[x0 y0] name] e1].
  apply bind_data_error; [apply extend_all_data_error|intros b e2].
  apply extend_all_data_error.
Qed.

Lemma flat_raises (b : bbox num) : flat b -> transform_of b = raise ZeroDivisionError.
Proof.
  unfold transform_of, py_div.
  intros [(xm & xM & -> & -> & Hx)|(xm & xM & ym & yM & -> & -> & Hx & -> & -> & Hy)];
    cbn [py_add py_half py_sub bind ret]; rewrite Hx; [reflexivity|].
  cbn [bind ret]. now rewrite Hy.
Qed.

(** Lines 50-53 end with an exception of the data, or with the
    [ZeroDivisionError] of line 51 or line 53 over a flat box. *)
Lemma transform_of_raises (b : bbox num) (e : exn) :
  transform_of b = raise e ->
  data_error e = true \/ (e = ZeroDivisionError /\ flat b).
Proof.
  unfold transform_of. intros H.
  apply bind_raise_inv in H. destruct H as [H|(x_sum & _ & H)];
    [left; now apply py_add_data_error in H|].
  apply bind_raise_inv in H. destruct H as [H|(xsh & _ & H)];
    [left; now apply py_half_data_error in H|].
  apply bind_raise_inv in H. destruct H as [H|(x_range & Hxr & H)];
    [left; now apply py_sub_data_error in H|].
  apply py_sub_ret in Hxr. destruct Hxr as (xM & xm & HxM & Hxm & ->).
  apply bind_raise_inv in H. destruct H as [H|(xsc & Hxs & H)].
  { apply py_div_raises in H. destruct H as [-> Hz]. right. split; [reflexivity|].
    left. now exists xm, xM. }
  apply py_div_ret in Hxs.
  apply bind_raise_inv in H. destruct H as [H|(y_sum & _ & H)];
    [left; now apply py_add_data_error in H|].
  apply bind_raise_inv in H. destruct H as [H|(ysh & _ & H)];
    [left; now apply py_half_data_error in H|].
  apply bind_raise_inv in H. destruct H as [H|(y_range & Hyr & H)];
    [left; now apply py_sub_data_error in H|].
  apply py_sub_ret in Hyr. destruct Hyr as (yM & ym & HyM & Hym & ->).
  apply bind_raise_inv in H. destruct H as [H|(ysc & Hys & H)]; [|discriminate].
  apply py_div_raises in H. destruct H as [-> Hz]. right. split; [reflexivity|].
  right. now exists xm, xM, ym, yM.
Qed.

Lemma apply_data_error (t : transform num) (v : vertex num) (e : exn) :
  apply t v = raise e -> data_error e = true.
Proof.
  unfold apply, apply_x, apply_y.
  apply bind_data_error; [|intros x e1].
  { apply bind_data_error; [apply py_sub_data_error|intros d e1 H; raised H]. }
  apply bind_data_error; [|intros y e2 H; raised H].
  apply bind_data_error; [apply py_sub_data_error|intros d e2 H; raised H].
Qed.

Lemma emit_data_error (t : transform num) (points : list (point num))
    (polygons : list (polygon num)) (e : exn) :
  emit t points polygons = raise e -> data_error e = true.
Proof.
  unfold emit.
  apply bind_data_error; [|intros point_lines e1].
  { apply comprehension_data_error. intros [[x y] name] e1. unfold emit_point, apply_x, apply_y.
    apply bind_data_error; [|intros x' e2].
    { apply bind_data_error; [apply py_sub_data_error|intros d e2 H; raised H]. }
    apply bind_data_error; [|intros y' e3 H; raised H].
    apply bind_data_error; [apply py_sub_data_error|intros d e3 H; raised H]. }
  apply bind_data_error; [|intros blocks e2 H; raised H].
  apply comprehension_data_error. intros p e2. unfold emit_polygon.
  apply bind_data_error; [|intros vertex_lines e3 H; raised H].
  apply comprehension_data_error. intros v e3. unfold emit_vertex, apply_x, apply_y.
  apply bind_data_error; [|intros x' e4].
  { apply bind_data_error; [apply py_sub_data_error|intros d e4 H; raised H]. }
  apply bind_data_error; [|intros y' e5 H; raised H].
  apply bind_data_error; [apply py_sub_data_error|intros d e5 H; raised H].
Qed.

End Raises.

(** ** Further properties of the run *)

Section RunProperties.

Context {num : Type} {N : PyNum num}.

(** The run ends with the exception of the first feature that is refused:
    when the features before [f] are accepted and [f] is not, whatever comes
    after [f] is never looked at. *)
Theorem first_refusal_ends_run (before after : list (feature num)) (f : feature num)
    (acc : list (point num) * list (polygon num)) (e : exn) :
  parse before = ret acc ->
  parse_feature f acc = raise e ->
  parse (before ++ f :: after) = raise e /\
  main (before ++ f :: after) = raise e.
Proof. apply main_stops. Qed.

(** A ['Point'] whose name cannot be read is refused on line 22, with
    [KeyError('name')] when [properties] has no name, [KeyError('properties')]
    when the feature has no [properties] and [TypeError] when [properties] is
    [null]; but only after the assertion of line 21: with coordinates of
    another length the exception is [AssertionError]. *)
Theorem nameless_point (f : feature num) (items : list (value num))
    (acc : list (point num) * list (polygon num)) :
  geometry_type f = "Point" ->
  coordinates f = Some (Arr items) ->
  (forall name, properties f <> Properties (Some name)) ->
  parse_feature f acc =
  raise (if Nat.eqb (length items) 2 then
           match properties f with
           | PropertiesMissing => KeyError "properties"
           | PropertiesNull => TypeError
           | Properties _ => KeyError "name"
           end
         else AssertionError).
Proof.
  intros Htype Hcoords Hname. destruct acc as [points polygons].
  rewrite (parse_feature_point f _ points polygons Htype Hcoords).
  unfold parse_point, name_of. cbn [len bind ret].
  destruct (Nat.eqb (length items) 2); cbn [assert bind ret raise]; [|reflexivity].
  destruct (properties f) as [| |[name|]]; try reflexivity.
  now contradiction (Hname name).
Qed.

Lemma bind_ret_raises {A B} (c : result A) (g : A -> B) (e : exn) :
  (a <- c ;; ret (g a)) = raise e <-> c = raise e.
Proof.
  destruct c; cbn; split; intros H; try discriminate; injection H as ->; reflexivity.
Qed.

(** The assertions of lines 25, 27 and 28 fail exactly for a polygon whose
    number of rings is not one (none, or holes), whose ring has fewer than
    four entries, or whose ring ends on an entry different from the first. *)
Theorem polygon_assertions (f : feature num) (rings : list (value num))
    (points : list (point num)) (polygons : list (polygon num)) :
  geometry_type f = "Polygon" ->
  coordinates f = Some (Arr rings) ->
  (parse_polygon (Arr rings) polygons = raise AssertionError <->
   length rings <> 1 \/
   exists ring, rings = [Arr ring] /\ (length ring < 4 \/ closed ring = false)) /\
  (parse_feature f (points, polygons) = raise AssertionError <->
   length rings <> 1 \/
   exists ring, rings = [Arr ring] /\ (length ring < 4 \/ closed ring = false)).
Proof.
  intros Htype Hcoords.
  assert (parse_polygon (Arr rings) polygons = raise AssertionError <->
          length rings <> 1 \/
          exists ring, rings = [Arr ring] /\ (length ring < 4 \/ closed ring = false)) as Hp.
  { destruct rings as [|r [|hole rest]].
    - split; [intros _; left; discriminate|reflexivity].
    - destruct r as [n|ring].
      + split; [discriminate|].
        intros [Hone|(ring & Hring & _)]; [now contradiction Hone|discriminate].
      + rewrite parse_polygon_ring.
        destruct (Nat.leb 4 (length ring)) eqn:Hlen; cbn [assert bind ret].
        * apply Nat.leb_le in Hlen.
          destruct (closed ring) eqn:Hclosed; cbn [assert bind ret].
          -- split.
             ++ intros H. apply bind_raise_inv in H. destruct H as [H|(vs & _ & H)];
                  [|discriminate].
                apply comprehension_raises in H. destruct H; discriminate.
             ++ intros [Hone|(ring' & Hring & [Hshort|Hopen])].
                ** now contradiction Hone.
                ** injection Hring as <-. lia.
                ** injection Hring as <-. congruence.
          -- split; [|reflexivity]. intros _. right. exists ring. auto.
        * apply Nat.leb_gt in Hlen. split; [|reflexivity].
          intros _. right. exists ring. auto.
    - split; [intros _; left; discriminate|reflexivity]. }
  split; [exact Hp|].
  rewrite (parse_feature_polygon f _ points polygons Htype Hcoords).
  now rewrite bind_ret_raises.
Qed.

(** Whatever the numbers are and however they compare, each side of the box
    is a coordinate of the input: the x of some point or vertex for [x_min]
    and [x_max], the y of one for [y_min] and [y_max].  Lines 34-48 never
    make a value of their own. *)
Theorem box_sides_from_input (points : list (point num)) (polygons : list (polygon num))
    (b : bbox num) :
  bounding_box points polygons = ret b ->
  In (x_min b) (map fst (scanned points polygons)) /\
  In (x_max b) (map fst (scanned points polygons)) /\
  In (y_min b) (map snd (scanned points polygons)) /\
  In (y_max b) (map snd (scanned points polygons)).
Proof.
  intros H. apply bounding_box_scan in H.
  destruct H as (x0 & y0 & rest & Hscan & _ & Hext).
  destruct (extend_all_ret _ _ _ Hext) as (Hxm & HxM & Hym & HyM & _).
  cbn [x_min x_max y_min y_max] in Hxm, HxM, Hym, HyM.
  assert (In x0 (map fst (scanned points polygons))) as Hx0 by (rewrite Hscan; now left).
  assert (In y0 (map snd (scanned points polygons))) as Hy0 by (rewrite Hscan; now left).
  repeat split.
  - destruct Hxm as [-> |]; assumption.
  - destruct HxM as [-> |]; assumption.
  - destruct Hym as [-> |]; assumption.
  - destruct HyM as [-> |]; assumption.
Qed.

(** *** Where the exceptions of a run come from *)

Lemma main_raises (features : list (feature num)) (e : exn) :
  main features = raise e ->
  data_error e = true \/
  (exists before f after acc c,
     features = before ++ f :: after /\
     parse before = ret acc /\
     coordinates f = Some c /\
     geometry_type f <> "Point" /\
     geometry_type f <> "Polygon" /\
     e = UnsupportedGeometryError (geometry_type f)) \/
  (e = ZeroDivisionError /\
   exists points polygons b,
     parse features = ret (points, polygons) /\
     bounding_box points polygons = ret b /\
     flat b).
Proof.
  unfold main. intros H.
  apply bind_raise_inv in H. destruct H as [H|([points polygons] & Hparse & H)].
  { destruct (parse_from_refused features _ _ H)
      as (before & f & after & acc & -> & Hbefore & Hf).
    apply parse_feature_raises in Hf.
    destruct Hf as [Hf|(-> & HPoint & HPolygon & c & Hc)]; [now left|].
    right. left. now exists before, f, after, acc, c. }
  apply bind_raise_inv in H. destruct H as [H|(b & Hbox & H)].
  { left. now apply bounding_box_data_error in H. }
  apply bind_raise_inv in H. destruct H as [H|(t & _ & H)].
  { apply transform_of_raises in H. destruct H as [H|[-> Hflat]]; [now left|].
    right. right. split; [reflexivity|]. now exists points, polygons, b. }
  left. now apply emit_data_error in H.
Qed.

(** The run ends with [ZeroDivisionError] exactly when every feature is
    accepted, there is a point, and the divisor of line 51 or of line 53 is a
    zero.  No other line raises it. *)
Theorem zero_division_from_flat_box (features : list (feature num)) :
  main features = raise ZeroDivisionError <->
  exists points polygons b,
    parse features = ret (points, polygons) /\
    bounding_box points polygons = ret b /\
    flat b.
Proof.
  split.
  - intros H. apply main_raises in H.
    destruct H as [H|[(before & f & after & acc & c & _ & _ & _ & _ & _ & H)|[_ H]]];
      [discriminate|discriminate|exact H].
  - intros (points & polygons & b & Hparse & Hbox & Hflat).
    rewrite (main_of_stages features points polygons b Hparse Hbox).
    now rewrite (flat_raises b Hflat).
Qed.

(** The run ends with the [Exception] of line 32 exactly when the first
    feature that is refused has coordinates and a geometry type other than
    ['Point'] and ['Polygon'], and the message is then made of that type.  No
    other [Exception] is raised. *)
Theorem exception_from_other_type (features : list (feature num)) (msg : string) :
  main features = raise (Exception msg) <->
  exists before f after acc c,
    features = before ++ f :: after /\
    parse before = ret acc /\
    coordinates f = Some c /\
    geometry_type f <> "Point" /\
    geometry_type f <> "Polygon" /\
    msg = String.append "Unexpected geometry type: " (geometry_type f).
Proof.
  split.
  - intros H. apply main_raises in H.
    destruct H as [H|[(before & f & after & acc & c & E & Hb & Hc & HP & HQ & H)|[H _]]];
      [discriminate| |discriminate].
    exists before, f, after, acc, c. repeat split; try assumption.
    unfold UnsupportedGeometryError in H. now injection H.
  - intros (before & f & after & acc & c & -> & Hbefore & Hc & HPoint & HPolygon & ->).
    apply (main_stops before after f _ acc Hbefore).
    now apply other_type_raises with (c := c).
Qed.


(** *** The size of the output *)

Lemma parse_feature_lines (f : feature num) (p : list (point num)) (q : list (polygon num)) :
  parse_feature f ([], []) = ret (p, q) ->
  length p + list_sum (map block_lines q) = lines_of_feature f.
Proof.
  unfold parse_feature, lines_of_feature. intros H.
  bind_inv H as c Hc.
  destruct (coordinates f) as [c'|]; [|discriminate]. cbn in Hc. injection Hc as ->.
  destruct (String.eqb (geometry_type f) "Point").
  - bind_inv H as points' Hpoint. injection H as <- <-.
    unfold parse_point in Hpoint.
    bind_inv Hpoint as n Hn. bind_inv Hpoint as u Hlen. bind_inv Hpoint as name Hname.
    bind_inv Hpoint as x Hx. bind_inv Hpoint as y Hy.
    injection Hpoint as <-. reflexivity.
  - destruct (String.eqb (geometry_type f) "Polygon"); [|discriminate].
    bind_inv H as polygons' Hpolygon. injection H as <- <-.
    apply parse_polygon_ret in Hpolygon.
    destruct Hpolygon as (ring & vertices & -> & Hlen & _ & Hvertices & ->).
    apply Forall2_length_eq in Hvertices. rewrite length_removelast_pred in Hvertices.
    cbn. unfold block_lines. lia.
Qed.

Lemma parse_lines (features : list (feature num)) :
  forall points polygons,
  parse features = ret (points, polygons) ->
  length points + list_sum (map block_lines polygons) =
  list_sum (map lines_of_feature features).
Proof.
  induction features as [|f rest IH]; intros points polygons H.
  - injection H as <- <-. reflexivity.
  - rewrite parse_cons in H.
    bind_inv H as acc Hf. destruct acc as [p1 q1].
    bind_inv H as acc Hrest. destruct acc as [p2 q2].
    injection H as <- <-.
    apply parse_feature_lines in Hf. apply IH in Hrest.
    rewrite length_app, map_app, list_sum_app.
    change (list_sum (map lines_of_feature (f :: rest)))
      with (lines_of_feature f + list_sum (map lines_of_feature rest)).
    lia.
Qed.

Lemma blocks_length (t : transform num) (polygons : list (polygon num)) :
  forall blocks,
  comprehension (emit_polygon t) polygons = ret blocks ->
  length (concat blocks) = list_sum (map block_lines polygons).
Proof.
  induction polygons as [|p polygons IH]; intros blocks H; cbn [comprehension] in H.
  - injection H as <-. reflexivity.
  - bind_inv H as block Hblock. bind_inv H as rest Hrest. injection H as <-.
    apply emit_polygon_ret in Hblock. destruct Hblock as (vertex_lines & Hv & ->).
    apply comprehension_length in Hv. apply IH in Hrest.
    change (list_sum (map block_lines (p :: polygons)))
      with (block_lines p + list_sum (map block_lines polygons)).
    cbn [concat]. rewrite length_app, Hrest. f_equal.
    unfold block_lines. cbn [length]. rewrite length_app, Hv. cbn [length]. lia.
Qed.

Lemma emit_length (t : transform num) (points : list (point num))
    (polygons : list (polygon num)) (out : list (line num)) :
  emit t points polygons = ret out ->
  length out = length points + list_sum (map block_lines polygons).
Proof.
  intros H. apply emit_ret_inv in H.
  destruct H as (point_lines & blocks & Hp & Hb & ->).
  rewrite length_app, (comprehension_length _ _ _ Hp). f_equal.
  now apply blocks_length with (t := t).
Qed.

(** A run that prints writes one line per ['Point'] feature and, per
    ['Polygon'] feature, one line more than its ring has entries: the two
    marker lines and a vertex line for every entry but the last. *)
Theorem line_count (features : list (feature num)) (out : list (line num)) :
  main features = ret out ->
  length out = list_sum (map lines_of_feature features).
Proof.
  intros H.
  destruct (main_ret_inv features out H) as (points & polygons & b & t & Hparse & _ & _ & Hout).
  rewrite (emit_length _ _ _ _ Hout). now apply parse_lines.
Qed.

(** *** Splitting and joining feature collections *)

(** Reading two collections one after the other: the concatenation is
    accepted exactly when both parts are, and then its points and polygons
    are those of the first part followed by those of the second. *)
Theorem parse_concat (first second : list (feature num))
    (points : list (point num)) (polygons : list (polygon num)) :
  parse (first ++ second) = ret (points, polygons) <->
  exists p1 q1 p2 q2,
    parse first = ret (p1, q1) /\
    parse second = ret (p2, q2) /\
    points = p1 ++ p2 /\
    polygons = q1 ++ q2.
Proof.
  rewrite parse_app. split.
  - intros H. bind_inv H as r1 H1. destruct r1 as [p1 q1].
    bind_inv H as r2 H2. destruct r2 as [p2 q2].
    injection H as <- <-. now exists p1, q1, p2, q2.
  - intros (p1 & q1 & p2 & q2 & -> & -> & -> & ->). reflexivity.
Qed.

End RunProperties.

(** ** The box over binary64 *)

Section Binary64Order.

(** Splits the comparisons of exponents and mantissas a goal stands on. *)
Ltac compare_cases :=
  repeat match goal with
  | H : context [Pos.compare_cont Eq ?m ?n] |- _ =>
      change (Pos.compare_cont Eq m n) with (Pos.compare m n) in H
  | |- context [Pos.compare_cont Eq ?m ?n] =>
      change (Pos.compare_cont Eq m n) with (Pos.compare m n)
  | H : context [Z.compare ?x ?y] |- _ => destruct (Z.compare_spec x y)
  | |- context [Z.compare ?x ?y] => destruct (Z.compare_spec x y)
  | H : context [Pos.compare ?m ?n] |- _ => destruct (Pos.compare_spec m n)
  | |- context [Pos.compare ?m ?n] => destruct (Pos.compare_spec m n)
  end.

Ltac order_cases :=
  cbn [not_nan SFcompare CompOpp] in *;
  repeat match goal with s : bool |- _ => destruct s end;
  cbn [not_nan SFcompare CompOpp] in *;
  compare_cases; cbn [CompOpp] in *; subst;
  try discriminate; try reflexivity; try lia; auto.

Lemma b64_lt_trans (a b c : binary64) :
  SFltb a b = true -> SFltb b c = true -> SFltb a c = true.
Proof.
  unfold SFltb.
  destruct a as [sa|sa| |sa ma ea], b as [sb|sb| |sb mb eb], c as [sc|sc| |sc mc ec];
    order_cases.
Qed.

(** Without NaN the order is total: what is below [c] is below [b] or [b] is
    below [c]. *)
Lemma b64_lt_between (a b c : binary64) :
  not_nan b = true ->
  SFltb a c = true -> SFltb a b = true \/ SFltb b c = true.
Proof.
  unfold SFltb.
  destruct a as [sa|sa| |sa ma ea], b as [sb|sb| |sb mb eb], c as [sc|sc| |sc mc ec];
    order_cases.
Qed.

Lemma b64_le_not_lt (a b : binary64) :
  not_nan a = true -> not_nan b = true ->
  SFltb b a = false -> SFleb a b = true.
Proof.
  unfold SFltb, SFleb.
  destruct a as [sa|sa| |sa ma ea], b as [sb|sb| |sb mb eb]; order_cases.
Qed.

Lemma b64_lt_irrefl (a : binary64) : SFltb a a = false.
Proof.
  destruct (SFltb a a) eqn:E; [|reflexivity].
  destruct a as [s|s| |s m e]; try discriminate; unfold SFltb in E; cbn in E;
    try (destruct s; discriminate E).
  destruct s; rewrite Z.compare_refl in E; cbn in E;
    change (Pos.compare_cont Eq m m) with (Pos.compare m m) in E;
    rewrite Pos.compare_refl in E; discriminate E.
Qed.

End Binary64Order.

Section Binary64Box.

Lemma b64_min_not_nan (a b : binary64) :
  not_nan a = true -> not_nan b = true -> not_nan (num_min a b) = true.
Proof. intros Ha Hb. unfold num_min. now destruct (num_lt b a). Qed.

Lemma b64_max_not_nan (a b : binary64) :
  not_nan a = true -> not_nan b = true -> not_nan (num_max a b) = true.
Proof. intros Ha Hb. unfold num_max. now destruct (num_lt a b). Qed.

(** Nothing scanned is below the running minimum. *)
Lemma b64_fold_min (l : list binary64) :
  forall a,
  not_nan a = true ->
  Forall (fun x => not_nan x = true) l ->
  not_nan (fold_left num_min l a) = true /\
  SFltb a (fold_left num_min l a) = false /\
  Forall (fun x => SFltb x (fold_left num_min l a) = false) l.
Proof.
  induction l as [|b l IH]; intros a Ha Hl; cbn [fold_left].
  - repeat split; [assumption|apply b64_lt_irrefl|constructor].
  - inversion Hl as [|? ? Hb Hl']; subst.
    destruct (IH (num_min a b) (b64_min_not_nan a b Ha Hb) Hl') as (Hm & Hseed & Hall).
    set (m := fold_left num_min l (num_min a b)) in *.
    assert (SFltb a m = false /\ SFltb b m = false) as [Hma Hmb].
    { unfold num_min in Hseed. cbn [num_lt binary64_num] in Hseed.
      destruct (SFltb b a) eqn:Hba.
      - split; [|assumption].
        destruct (SFltb a m) eqn:Ham; [|reflexivity].
        rewrite (b64_lt_trans b a m Hba Ham) in Hseed. discriminate.
      - split; [assumption|].
        destruct (SFltb b m) eqn:Hbm; [|reflexivity].
        destruct (b64_lt_between b a m Ha Hbm) as [H|H]; congruence. }
    repeat split; try assumption. now constructor.
Qed.

(** Nothing scanned is above the running maximum. *)
Lemma b64_fold_max (l : list binary64) :
  forall a,
  not_nan a = true ->
  Forall (fun x => not_nan x = true) l ->
  not_nan (fold_left num_max l a) = true /\
  SFltb (fold_left num_max l a) a = false /\
  Forall (fun x => SFltb (fold_left num_max l a) x = false) l.
Proof.
  induction l as [|b l IH]; intros a Ha Hl; cbn [fold_left].
  - repeat split; [assumption|apply b64_lt_irrefl|constructor].
  - inversion Hl as [|? ? Hb Hl']; subst.
    destruct (IH (num_max a b) (b64_max_not_nan a b Ha Hb) Hl') as (Hm & Hseed & Hall).
    set (m := fold_left num_max l (num_max a b)) in *.
    assert (SFltb m a = false /\ SFltb m b = false) as [Hma Hmb].
    { unfold num_max in Hseed. cbn [num_lt binary64_num] in Hseed.
      destruct (SFltb a b) eqn:Hab.
      - split; [|assumption].
        destruct (SFltb m a) eqn:Hma; [|reflexivity].
        rewrite (b64_lt_trans m a b Hma Hab) in Hseed. discriminate.
      - split; [assumption|].
        destruct (SFltb m b) eqn:Hmb; [|reflexivity].
        destruct (b64_lt_between m a b Ha Hmb) as [H|H]; congruence. }
    repeat split; try assumption. now constructor.
Qed.

Lemma not_nan_numbers (vs : list (vertex binary64)) :
  Forall (fun v => number_not_nan (fst v) = true /\ number_not_nan (snd v) = true) vs ->
  exists nvs,
    vs = map number_vertex nvs /\
    Forall (fun x => not_nan x = true) (map fst nvs) /\
    Forall (fun y => not_nan y = true) (map snd nvs).
Proof.
  induction 1 as [|[x y] vs [Hx Hy] _ (nvs & -> & Hxs & Hys)].
  - exists []. repeat split; constructor.
  - destruct x as [x|]; [|discriminate]. destruct y as [y|]; [|discriminate].
    exists ((x, y) :: nvs). cbn [map fst snd]. repeat split; now constructor.
Qed.

(** Over binary64, when every coordinate is a number and none is NaN, the
    box of lines 34-48 is made of numbers and encloses every point and every
    polygon vertex: [x_min <= x <= x_max] and [y_min <= y <= y_max] in the
    order of Python's [<=], infinities included. *)
Theorem box_encloses_b64 (points : list (point binary64)) (polygons : list (polygon binary64))
    (b : bbox binary64) :
  bounding_box points polygons = ret b ->
  Forall (fun v => number_not_nan (fst v) = true /\ number_not_nan (snd v) = true)
         (scanned points polygons) ->
  exists xm ym xM yM,
    b = box_of xm ym xM yM /\
    forall x y, In (Num x, Num y) (scanned points polygons) ->
      SFleb xm x = true /\ SFleb x xM = true /\
      SFleb ym y = true /\ SFleb y yM = true.
Proof.
  intros Hbox Hnan.
  apply bounding_box_scan in Hbox. destruct Hbox as (x0 & y0 & rest & Hscan & _ & Hext).
  destruct (not_nan_numbers _ Hnan) as (nvs & Hnvs & Hxs & Hys).
  rewrite Hnvs in Hscan, Hext |- *.
  destruct nvs as [|[a0 b0] nvs]; [discriminate|].
  injection Hscan as <- <- _.
  change {| x_min := Num a0; y_min := Num b0; x_max := Num a0; y_max := Num b0 |}
    with (box_of a0 b0 a0 b0) in Hext.
  rewrite extend_all_numbers in Hext. injection Hext as <-.
  set (l := (a0, b0) :: nvs) in *.
  assert (not_nan a0 = true /\ not_nan b0 = true) as [Ha0 Hb0].
  { unfold l in Hxs, Hys. cbn [map fst snd] in Hxs, Hys.
    inversion Hxs; inversion Hys; now subst. }
  destruct (b64_fold_min _ a0 Ha0 Hxs) as (Hnx & _ & Hminx).
  destruct (b64_fold_max _ a0 Ha0 Hxs) as (HnX & _ & Hmaxx).
  destruct (b64_fold_min _ b0 Hb0 Hys) as (Hny & _ & Hminy).
  destruct (b64_fold_max _ b0 Hb0 Hys) as (HnY & _ & Hmaxy).
  rewrite Forall_forall in Hminx, Hmaxx, Hminy, Hmaxy, Hxs, Hys.
  eexists _, _, _, _. split; [reflexivity|].
  intros x y Hin. apply in_map_iff in Hin. destruct Hin as ([x' y'] & E & Hin).
  injection E as -> ->.
  assert (In x (map fst l)) as Hx by (now apply (in_map fst) in Hin).
  assert (In y (map snd l)) as Hy by (now apply (in_map snd) in Hin).
  repeat split; apply b64_le_not_lt; auto.
Qed.

End Binary64Box.

(** ** The theorems at concrete inputs *)

Lemma empty_points_crash_witness :
  parse no_points = ret ([], [triangle]) /\
  bounding_box [] [triangle] = raise IndexError /\
  main no_points = raise IndexError.
Proof.
  split; [reflexivity|].
  apply (empty_points_crash no_points [triangle]).
  reflexivity.
Defined.

Lemma unsupported_geometry_witness :
  parse_feature line_string (scenario_points, [triangle]) =
    raise (Exception "Unexpected geometry type: LineString") /\
  main (scenario ++ line_string :: scenario) =
    raise (Exception "Unexpected geometry type: LineString").
Proof.
  destruct (unsupported_geometry line_string) as (H & _ & _).
  - discriminate.
  - discriminate.
  - destruct (H _ eq_refl) as [Hturn Hrun]. split.
    + exact (Hturn (scenario_points, [triangle])).
    + exact (Hrun scenario scenario (scenario_points, [triangle]) eq_refl).
Defined.

(** A GeometryCollection has no [coordinates]: line 18 raises [KeyError]
    before line 32 is reached, and the run ends with that, not with the
    exception that names the type. *)
Lemma missing_coordinates_key_error :
  geometry_type geometry_collection <> "Point" /\
  geometry_type geometry_collection <> "Polygon" /\
  parse_feature geometry_collection ([], []) = raise (KeyError "coordinates") /\
  main [geometry_collection] = raise (KeyError "coordinates") /\
  main [geometry_collection] <> raise (UnsupportedGeometryError "GeometryCollection").
Proof. repeat split; discriminate. Qed.

Lemma zero_range_raises_witness :
  transform_of single_box = raise ZeroDivisionError /\
  main single_point = raise ZeroDivisionError.
Proof.
  apply (zero_range_raises single_point
           [(Num (b64_of_Z 10), Num (b64_of_Z 10), "A")] []
           (b64_of_Z 10) (b64_of_Z 10) (b64_of_Z 10) (b64_of_Z 10)).
  - reflexivity.
  - reflexivity.
  - left. split; reflexivity.
Defined.

Lemma center_to_origin_witness :
  main scenario = ret scenario_out /\
  exists points polygons b t c image,
    parse scenario = ret (points, polygons) /\
    bounding_box points polygons = ret b /\
    transform_of b = ret t /\
    center b = ret c /\
    apply t (number_vertex c) = ret image /\
    (finite (x_shift t) = true /\ finite (x_scale t) = true ->
     exists sx, fst image = S754_zero sx) /\
    (finite (x_shift t) = false \/ finite (x_scale t) = false ->
     fst image = S754_nan) /\
    (finite (y_shift t) = true /\ finite (y_scale t) = true ->
     exists sy, snd image = S754_zero sy) /\
    (finite (y_shift t) = false \/ finite (y_scale t) = false ->
     snd image = S754_nan).
Proof.
  split; [reflexivity|].
  apply (center_to_origin scenario scenario_out).
  reflexivity.
Defined.

Lemma ring_length_checked_witness :
  exists vertices,
    parse_polygon (Arr [Arr (repeat (@position_of binary64 _ (0, 0)%Z) 4)]) [] =
      ret ([] ++ [vertices]) /\
    parse_feature collapsed ([], []) = ret ([], [] ++ [vertices]) /\
    length vertices = 4 - 1.
Proof.
  destruct (ring_length_checked collapsed (repeat (@position_of binary64 _ (0, 0)%Z) 4) [] [])
    as [_ H].
  - reflexivity.
  - reflexivity.
  - apply H.
    + cbn. lia.
    + reflexivity.
    + repeat constructor.
Defined.

(** A ring of four identical entries has a single distinct vertex, and the
    feature loop accepts it: the run goes on to print its three vertices. *)
Lemma collapsed_ring_accepted :
  coordinates collapsed = Some (Arr [Arr (repeat (position_of (0, 0)%Z) 4)]) /\
  parse [collapsed] = ret ([], [repeat (number_vertex (b64_of_Z 0, b64_of_Z 0)) 3]) /\
  main around_collapsed =
    ret [ PointLine "A" (b64_of_Z (-475)) (b64_of_Z (-475));
          PointLine "B" (b64_of_Z 475) (b64_of_Z 475);
          BlockOpen;
          VertexLine (b64_of_Z (-475)) (b64_of_Z (-475));
          VertexLine (b64_of_Z (-475)) (b64_of_Z (-475));
          VertexLine (b64_of_Z (-475)) (b64_of_Z (-475));
          BlockClose ].
Proof. repeat split. Qed.

Lemma polygon_block_witness :
  exists points polygons b t earlier later vertices
         point_lines earlier_blocks vertex_lines later_blocks,
    parse scenario = ret (points, polygons) /\
    bounding_box points polygons = ret b /\
    transform_of b = ret t /\
    parse [point_feature "A" (10, 10)%Z] = ret earlier /\
    parse [] = ret later /\
    polygons = snd earlier ++ vertices :: snd later /\
    Forall2 first_two (removelast triangle_ring) vertices /\
    length vertices = 3 /\
    comprehension (emit_point t) points = ret point_lines /\
    comprehension (emit_polygon t) (snd earlier) = ret earlier_blocks /\
    comprehension (emit_vertex t) vertices = ret vertex_lines /\
    comprehension (emit_polygon t) (snd later) = ret later_blocks /\
    scenario_out =
      (point_lines ++ concat earlier_blocks)
      ++ (BlockOpen :: vertex_lines ++ [BlockClose])
      ++ concat later_blocks /\
    length vertex_lines = 3 /\
    forallb is_vertex_line vertex_lines = true.
Proof.
  apply (polygon_block [point_feature "A" (10, 10)%Z] []
           (polygon_feature [(0, 0); (20, 0); (20, 20); (0, 0)]%Z)
           triangle_ring 3 scenario_out);
    reflexivity.
Defined.

Lemma points_before_polygons_witness :
  main interleaved = ret interleaved_out /\
  exists points polygons b t point_lines blocks,
    parse interleaved = ret (points, polygons) /\
    bounding_box points polygons = ret b /\
    transform_of b = ret t /\
    comprehension (emit_point t) points = ret point_lines /\
    comprehension (emit_polygon t) polygons = ret blocks /\
    interleaved_out = point_lines ++ concat blocks /\
    forallb is_point_line point_lines = true /\
    existsb is_point_line (concat blocks) = false /\
    map point_name points = point_names interleaved /\
    line_names point_lines = point_names interleaved.
Proof.
  split; [reflexivity|].
  apply (points_before_polygons interleaved interleaved_out).
  reflexivity.
Defined.

Lemma vertex_arity_unchecked_witness :
  parse_feature triangle_xyz ([], []) = ret ([], [triangle]) /\
  exists vertices,
    parse_polygon (Arr [Arr ring_xyz]) [] = ret ([] ++ [vertices]) /\
    parse_feature triangle_xyz ([], []) = ret ([], [] ++ [vertices]) /\
    Forall2 first_two (removelast ring_xyz) vertices.
Proof.
  split; [reflexivity|].
  destruct (vertex_arity_unchecked triangle_xyz ring_xyz [] []) as [H _].
  - reflexivity.
  - reflexivity.
  - cbn. lia.
  - reflexivity.
  - apply H. repeat constructor.
Defined.

Lemma first_refusal_ends_run_witness :
  parse ([nested_point] ++ line_string :: scenario) =
    raise (Exception "Unexpected geometry type: LineString") /\
  main ([nested_point] ++ line_string :: scenario) =
    raise (Exception "Unexpected geometry type: LineString").
Proof.
  apply (first_refusal_ends_run [nested_point] scenario line_string
           ([(position_of (0, 0)%Z, position_of (1, 1)%Z, "N")], [])
           (Exception "Unexpected geometry type: LineString")).
  - reflexivity.
  - reflexivity.
Defined.

Lemma nameless_point_witness :
  parse_feature nameless ([], []) = raise (KeyError "name") /\
  parse_feature null_properties ([], []) = raise TypeError /\
  parse_feature no_properties ([], []) = raise (KeyError "properties").
Proof.
  split; [|split].
  - apply (nameless_point nameless [Num (b64_of_Z 10); Num (b64_of_Z 10)] ([], []));
      [reflexivity|reflexivity|intros name; discriminate].
  - apply (nameless_point null_properties [Num (b64_of_Z 10); Num (b64_of_Z 10)] ([], []));
      [reflexivity|reflexivity|intros name; discriminate].
  - apply (nameless_point no_properties [Num (b64_of_Z 10); Num (b64_of_Z 10)] ([], []));
      [reflexivity|reflexivity|intros name; discriminate].
Defined.

Lemma polygon_assertions_witness :
  parse_feature with_hole ([], []) = raise AssertionError /\
  parse_feature unclosed ([], []) = raise AssertionError.
Proof.
  split.
  - destruct (polygon_assertions with_hole
                [ Arr (map position_of [(0, 0); (20, 0); (20, 20); (0, 0)]%Z);
                  Arr (map position_of [(5, 1); (9, 1); (9, 4); (5, 1)]%Z) ] [] [])
      as [_ [_ H]].
    + reflexivity.
    + reflexivity.
    + apply H. left. discriminate.
  - destruct (polygon_assertions unclosed [Arr open_ring] [] []) as [_ [_ H]].
    + reflexivity.
    + reflexivity.
    + apply H. right. exists open_ring. split; [reflexivity|]. right. reflexivity.
Defined.

Lemma box_sides_from_input_witness :
  In (x_min scenario_box) (map fst (scanned scenario_points [triangle])) /\
  In (x_max scenario_box) (map fst (scanned scenario_points [triangle])) /\
  In (y_min scenario_box) (map snd (scanned scenario_points [triangle])) /\
  In (y_max scenario_box) (map snd (scanned scenario_points [triangle])).
Proof.
  apply (box_sides_from_input scenario_points [triangle] scenario_box).
  reflexivity.
Defined.


Lemma line_count_witness :
  length interleaved_out = 1 + (4 + 1) + 1 + (5 + 1) /\
  length interleaved_out = list_sum (map lines_of_feature interleaved).
Proof.
  split; [reflexivity|].
  apply (line_count interleaved interleaved_out).
  reflexivity.
Defined.

Lemma box_encloses_b64_witness :
  exists xm ym xM yM,
    scenario_box = box_of xm ym xM yM /\
    forall x y, In (Num x, Num y) (scanned scenario_points [triangle]) ->
      SFleb xm x = true /\ SFleb x xM = true /\
      SFleb ym y = true /\ SFleb y yM = true.
Proof.
  apply (box_encloses_b64 scenario_points [triangle] scenario_box).
  - reflexivity.
  - repeat constructor.
Defined.
